(** * informative-validator: validation orchestration, feedback display and
    debouncing of the [informative-validator] directive.

    The development embeds the TypeScript sources shallowly:

    - [informative-validator-rules.ts] holds the rule interfaces, the two
      rules shipped with the library ([RequiredValidationRule],
      [EmailStructureValidationRule]) and the directive that debounces
      revalidation through an RxJS timer (module [RxDirective] below);
    - [informative-validator.directive.ts] holds the directive without
      debouncing (module [Directive] below).

    Both directive classes are called [InformativeValidatorDirective] in the
    sources; the two modules keep them apart.  Methods keep their source
    names.  The methods that render run on a [Page]: the directive together
    with the tree of nodes its elements are inserted into. *)

From Stdlib Require Import Ascii String ZArith NArith Lia.
From stdpp Require Import base option list strings pretty.

Set Default Proof Using "Type".
Open Scope string_scope.
Open Scope list_scope.

(* ================================================================== *)
(** * JavaScript values and exceptions *)
(* ================================================================== *)

(** The kinds of value the statements below speak of.  [control.value] is
    [any] in the sources: arrays and objects (such as [[]], whose
    [toString()] is the empty string) are not among them, and no statement
    is made about them.  Numbers are the integer-valued ones; strings are
    sequences of characters of which only the ASCII ones can be matched by
    the patterns used here. *)
Inductive Value :=
| VNull
| VUndefined
| VString (s : string)
| VNumber (z : Z)
| VBoolean (b : bool).

(** [v == null] is true of [null] and of [undefined]. *)
Definition eq_null (v : Value) : bool :=
  match v with
  | VNull | VUndefined => true
  | _ => false
  end.

(** A call that can throw returns [None] when it throws (here always a
    [TypeError]: a property read on [null]/[undefined], or a call of a
    method the receiver does not have). *)
Definition Completion (A : Type) : Type := option A.

(** [v.toString()]. *)
Definition toString (v : Value) : Completion string :=
  match v with
  | VNull | VUndefined => None
  | VString s => Some s
  | VNumber z => Some (pretty z)
  | VBoolean true => Some "true"
  | VBoolean false => Some "false"
  end.

(** A nullable string: what a method declared [: string] returns once the
    callers test it against [null]. *)
Definition JsString : Type := option string.

(* ================================================================== *)
(** * Regular expressions ([String.prototype.match] with an anchored,
      capture-free pattern) *)
(* ================================================================== *)

Inductive Regex :=
| Void
| Eps
| Class (p : ascii → bool)
| Cat (r1 r2 : Regex)
| Alt (r1 r2 : Regex)
| Star (r : Regex).

(** [r+] and [r{n,}]. *)
Definition Plus (r : Regex) : Regex := Cat r (Star r).

Fixpoint AtLeast (n : nat) (r : Regex) : Regex :=
  match n with
  | O => Star r
  | S n' => Cat r (AtLeast n' r)
  end.

Fixpoint nullable (r : Regex) : bool :=
  match r with
  | Void => false
  | Eps => true
  | Class _ => false
  | Cat r1 r2 => nullable r1 && nullable r2
  | Alt r1 r2 => nullable r1 || nullable r2
  | Star _ => true
  end.

Fixpoint deriv (a : ascii) (r : Regex) : Regex :=
  match r with
  | Void => Void
  | Eps => Void
  | Class p => if p a then Eps else Void
  | Cat r1 r2 =>
      if nullable r1
      then Alt (Cat (deriv a r1) r2) (deriv a r2)
      else Cat (deriv a r1) r2
  | Alt r1 r2 => Alt (deriv a r1) (deriv a r2)
  | Star r1 => Cat (deriv a r1) (Star r1)
  end.

(** Does the whole of [s] match [r]?  (The patterns below are anchored with
    [^] and [$] and carry no [m] flag.) *)
Fixpoint matches (r : Regex) (s : string) : bool :=
  match s with
  | EmptyString => nullable r
  | String a s' => matches (deriv a r) s'
  end.

(** The language of a pattern, as a relation: the reading of the pattern
    that [matches] is checked against. *)
Inductive Matches : Regex → string → Prop :=
| MEps : Matches Eps ""
| MClass p a : p a = true → Matches (Class p) (String a "")
| MCat r1 r2 s1 s2 : Matches r1 s1 → Matches r2 s2 → Matches (Cat r1 r2) (s1 +:+ s2)
| MAltL r1 r2 s : Matches r1 s → Matches (Alt r1 r2) s
| MAltR r1 r2 s : Matches r2 s → Matches (Alt r1 r2) s
| MStarNil r : Matches (Star r) ""
| MStarCons r s1 s2 : Matches r s1 → Matches (Star r) s2 → Matches (Star r) (s1 +:+ s2).

(** Character classes of the e-mail pattern, under the [i] flag: [A-Z]
    also matches [a-z]; no character outside ASCII is folded into them. *)
Definition in_range (lo hi a : ascii) : bool :=
  (nat_of_ascii lo <=? nat_of_ascii a)%nat && (nat_of_ascii a <=? nat_of_ascii hi)%nat.

Definition is_letter (a : ascii) : bool :=
  in_range "A" "Z" a || in_range "a" "z" a.

Definition is_digit (a : ascii) : bool := in_range "0" "9" a.

Definition is_char (c a : ascii) : bool := bool_decide (a = c).

(** [[A-Z0-9._%+-]] *)
Definition local_class (a : ascii) : bool :=
  is_letter a || is_digit a || is_char "." a || is_char "_" a
  || is_char "%" a || is_char "+" a || is_char "-" a.

(** [[A-Z0-9.-]] *)
Definition domain_class (a : ascii) : bool :=
  is_letter a || is_digit a || is_char "." a || is_char "-" a.

(** [/^[A-Z0-9._%+-]+@[A-Z0-9.-]+\.[A-Z]{2,}$/i] *)
Definition EMAIL_PATTERN : Regex :=
  Cat (Plus (Class local_class))
   (Cat (Class (is_char "@"))
    (Cat (Plus (Class domain_class))
     (Cat (Class (is_char "."))
      (AtLeast 2 (Class is_letter))))).

(** [v.match(re)]: only strings have the method; the result is [null] or
    the match, which for an anchored pattern is the whole string. *)
Definition match_ (v : Value) (re : Regex) : Completion (option string) :=
  match v with
  | VString s => Some (if matches re s then Some s else None)
  | _ => None
  end.

(* ================================================================== *)
(** * The control and the rule interfaces *)
(* ================================================================== *)

(** The argument of [setErrors]: an object such as [{customErrors: true}]. *)
Definition ValidationErrors : Type := list (string * bool).

(** The part of Angular's [AbstractControl] the directive reads and writes. *)
Record AbstractControl := {
  value : Value;
  untouched : bool;
  status : string;
  errors : option ValidationErrors;
}.

(** [control.setErrors(e)] *)
Definition setErrors_control (e : option ValidationErrors) (c : AbstractControl)
  : AbstractControl :=
  {| value := value c; untouched := untouched c; status := status c; errors := e |}.

(** How the promise returned by an asynchronous rule settles. *)
Inductive Settlement :=
| Fulfilled (b : bool)
| Rejected.

#[global] Instance Settlement_eq_dec : EqDecision Settlement.
Proof. solve_decision. Defined.

Module SynchronousValidationRule.
Record t := {
  getDescription : JsString;
  getFeedback : JsString;
  (** [None]: the predicate throws. *)
  isValid : option AbstractControl → Completion bool;
}.
End SynchronousValidationRule.

Module AsynchronousValidationRule.
Record t := {
  getDescription : JsString;
  getFeedback : JsString;
  (** [None]: the call itself throws, before any promise is returned;
      otherwise the settlement of the returned promise. *)
  isValid : option AbstractControl → Completion Settlement;
}.
End AsynchronousValidationRule.

Module SynchronousValidationRuleSet.
Record t := { getRuleSet : list SynchronousValidationRule.t }.
End SynchronousValidationRuleSet.

Module AsynchronousValidationRuleSet.
Record t := { getRuleSet : list AsynchronousValidationRule.t }.
End AsynchronousValidationRuleSet.

(* ================================================================== *)
(** * Rules provided by the library *)
(* ================================================================== *)

Module RequiredValidationRule.

Definition getDescription : JsString := Some "This field is required".

Definition getFeedback : JsString := Some "You have not provided this item".

Definition isValid (control : option AbstractControl) : Completion bool :=
  c ← control;
  if eq_null (value c) then Some false
  else s ← toString (value c); Some (0 <? String.length s)%nat.

Definition rule : SynchronousValidationRule.t :=
  {| SynchronousValidationRule.getDescription := getDescription;
     SynchronousValidationRule.getFeedback := getFeedback;
     SynchronousValidationRule.isValid := isValid |}.

End RequiredValidationRule.

Module EmailStructureValidationRule.

Definition getDescription : JsString := Some "Must be a valid Email address".

Definition getFeedback : JsString := Some "This email address is invalid".

Definition isValid (control : option AbstractControl) : Completion bool :=
  c ← control;
  if eq_null (value c) then Some true
  else m ← match_ (value c) EMAIL_PATTERN; Some (bool_decide (m ≠ None)).

Definition rule : SynchronousValidationRule.t :=
  {| SynchronousValidationRule.getDescription := getDescription;
     SynchronousValidationRule.getFeedback := getFeedback;
     SynchronousValidationRule.isValid := isValid |}.

End EmailStructureValidationRule.

(* ================================================================== *)
(** * The machine the directive runs on *)
(* ================================================================== *)

(** One entry per invocation of a rule's [isValid], with the control it
    was handed: what a spy rule would record. *)
Inductive Call :=
| SyncIsValid (rule : SynchronousValidationRule.t) (control : option AbstractControl)
| AsyncIsValid (rule : AsynchronousValidationRule.t) (control : option AbstractControl).

(** A rendered element. *)
Record Element := {
  className : string;
  innerHTML : string;
}.

(** RxJS: the subscription to [Observable.timer(delay)].  The observable
    emits once, [delay] ms after the subscription, and completes;
    [unsubscribe] before that drops the emission, and is a no-op on a
    subscription that has emitted or was unsubscribed already. *)
Inductive TimerState := Pending | Emitted | Unsubscribed.

(** The closure handed to [subscribe], by name. *)
Abbreviation Callback := nat (only parsing).

Record TimerSubscription := {
  due : N;
  next : Callback;
  state : TimerState;
}.

(** A [Subscription] object is its position in the machine's timer table. *)
Abbreviation Subscription := nat (only parsing).

Record Machine (D : Type) := {
  this : D;
  (** invocations of rule predicates, oldest first *)
  calls : list Call;
  (** the clock, in ms *)
  now : N;
  timers : list TimerSubscription;
  (** the callbacks that ran, oldest first, with the subscription they ran for *)
  emitted : list (Subscription * Callback);
}.
Arguments this {D} _.
Arguments calls {D} _.
Arguments now {D} _.
Arguments timers {D} _.
Arguments emitted {D} _.

(** State and exceptions: a computation returns the machine it leaves
    behind and, unless it threw, a result. *)
Definition M (D A : Type) : Type := Machine D → Machine D * Completion A.

Definition ret {D A} (a : A) : M D A := λ m, (m, Some a).

Definition bind {D A B} (c : M D A) (f : A → M D B) : M D B :=
  λ m, match c m with
       | (m', Some a) => f a m'
       | (m', None) => (m', None)
       end.

Definition throw {D A} : M D A := λ m, (m, None).

(** [try { c } catch { h }] *)
Definition try_catch {D A} (c : M D A) (h : M D A) : M D A :=
  λ m, match c m with
       | (m', Some a) => (m', Some a)
       | (m', None) => h m'
       end.

Declare Scope js_scope.
Delimit Scope js_scope with js.
Notation "'let*' x := c 'in' k" := (bind c (λ x, k))
  (at level 10, x name, c at level 100, k at level 200, only parsing) : js_scope.
Notation "c ;; k" := (bind c (λ _, k))
  (at level 100, k at level 200, right associativity, only parsing) : js_scope.
Open Scope js_scope.

(** Read a field of [this]; replace [this]. *)
Definition gets {D A} (f : D → A) : M D A := λ m, (m, Some (f (this m))).

Definition modify {D} (f : D → D) : M D unit :=
  λ m, ({| this := f (this m); calls := calls m; now := now m;
           timers := timers m; emitted := emitted m |}, Some tt).

(** Lift a call that may throw. *)
Definition lift {D A} (c : Completion A) : M D A := λ m, (m, c).

(** Record an invocation of a rule predicate. *)
Definition log {D} (c : Call) : M D unit :=
  λ m, ({| this := this m; calls := calls m ++ [c]; now := now m;
           timers := timers m; emitted := emitted m |}, Some tt).

(** [rule.isValid(control)] for both kinds of rule. *)
Definition call_sync {D} (rule : SynchronousValidationRule.t)
    (control : option AbstractControl) : M D bool :=
  log (SyncIsValid rule control);;
  lift (SynchronousValidationRule.isValid rule control).

Definition call_async {D} (rule : AsynchronousValidationRule.t)
    (control : option AbstractControl) : M D Settlement :=
  log (AsyncIsValid rule control);;
  lift (AsynchronousValidationRule.isValid rule control).

(** [for (let x of xs) { body }], the loop's local variables threaded as [s]. *)
Fixpoint for_of {D A S} (xs : list A) (s : S) (body : A → S → M D S) : M D S :=
  match xs with
  | [] => ret s
  | x :: xs' => let* s' := body x s in for_of xs' s' body
  end.

(** [for (let key in xs) { body }] over an array: the keys are its indices,
    ascending. *)
Definition for_in {D A S} (xs : list A) (s : S) (body : nat → S → M D S) : M D S :=
  for_of (seq 0 (length xs)) s body.

(** ** [Promise.all]

    The promises settle in the order given by [order], a list of positions
    in [promises] (a position that never occurs never settles).  As in
    ECMAScript, each fulfilment stores its value at the promise's own
    position and decrements the count of outstanding elements; the
    combined promise fulfils with the array of values when the count
    reaches zero and rejects at the first rejection; once it is settled
    nothing changes it. *)
Inductive AllSettlement :=
| AllPending
| AllFulfilled (results : list bool)
| AllRejected.

Record AllState := {
  values : list (option bool);
  remainingElementsCount : nat;
  outcome : AllSettlement;
}.

(** An empty slot of the values array reads [undefined], which is falsy. *)
Definition truthy (v : option bool) : bool := default false v.

Definition all_init (promises : list Settlement) : AllState :=
  {| values := replicate (length promises) None;
     remainingElementsCount := length promises;
     outcome := if decide (length promises = 0) then AllFulfilled [] else AllPending |}.

Definition all_settle (promises : list Settlement) (st : AllState) (k : nat) : AllState :=
  match outcome st with
  | AllPending =>
      match promises !! k with
      | Some Rejected =>
          {| values := values st;
             remainingElementsCount := remainingElementsCount st;
             outcome := AllRejected |}
      | Some (Fulfilled b) =>
          match values st !! k with
          | Some None =>
              let values' := <[k := Some b]> (values st) in
              let remaining' := pred (remainingElementsCount st) in
              {| values := values';
                 remainingElementsCount := remaining';
                 outcome := if decide (remaining' = 0)
                            then AllFulfilled (truthy <$> values')
                            else AllPending |}
          | _ => st (* already called *)
          end
      | None => st
      end
  | _ => st
  end.

Definition Promise_all (order : list nat) (promises : list Settlement) : AllSettlement :=
  outcome (foldl (all_settle promises) (all_init promises) order).

(** The message of the [catch] handler. *)
Definition GENERIC_FAILURE : string :=
  "An unknown error occured during validation. Validation has failed.".

(** [{ "customErrors": true }] *)
Definition CUSTOM_ERRORS : ValidationErrors := [("customErrors", true)].

(** ** RxJS timers *)

(** [Observable.timer(delay).subscribe(cb)] *)
Definition timer_subscribe {D} (delay : N) (cb : Callback) : M D Subscription :=
  λ m, ({| this := this m; calls := calls m; now := now m;
           timers := timers m ++ [{| due := (now m + delay)%N; next := cb; state := Pending |}];
           emitted := emitted m |},
        Some (length (timers m))).

Definition close (tm : TimerSubscription) : TimerSubscription :=
  match state tm with
  | Pending => {| due := due tm; next := next tm; state := Unsubscribed |}
  | _ => tm
  end.

(** [sub.unsubscribe()] *)
Definition unsubscribe {D} (sub : Subscription) : M D unit :=
  λ m, ({| this := this m; calls := calls m; now := now m;
           timers := alter close sub (timers m);
           emitted := emitted m |},
        Some tt).

Definition is_pending (tm : TimerSubscription) : bool :=
  match state tm with
  | Pending => true
  | _ => false
  end.

Definition is_due (t : N) (tm : TimerSubscription) : bool :=
  is_pending tm && (due tm <=? t)%N.

Definition emit (tm : TimerSubscription) : TimerSubscription :=
  {| due := due tm; next := next tm; state := Emitted |}.

(** The timers of [tms] (those at positions [i], [i+1], ...) that are due
    at time [t] emit: their callbacks run, once. *)
Fixpoint fire (t : N) (i : nat) (tms : list TimerSubscription)
  : list TimerSubscription * list (Subscription * Callback) :=
  match tms with
  | [] => ([], [])
  | tm :: rest =>
      let '(rest', out) := fire t (S i) rest in
      if is_due t tm then (emit tm :: rest', (i, next tm) :: out)
      else (tm :: rest', out)
  end.

(** [dt] ms pass. *)
Definition elapse {D} (dt : N) (m : Machine D) : Machine D :=
  let t := (now m + dt)%N in
  let '(tms, out) := fire t 0 (timers m) in
  {| this := this m; calls := calls m; now := t; timers := tms;
     emitted := emitted m ++ out |}.

(* ================================================================== *)
(** * The document *)
(* ================================================================== *)

(** A node is its position in the page's table of nodes. *)
Abbreviation Node := nat (only parsing).

(** The place of a node in the tree.  A node is an element or a document
    fragment; the nodes that markup assigned to [innerHTML] parses into
    are not in the table, nothing refers to them. *)
Record DomNode := {
  isElement : bool;
  parent : option Node;
  children : list Node;
}.

Definition set_parent (p : option Node) (dn : DomNode) : DomNode :=
  {| isElement := isElement dn; parent := p; children := children dn |}.

Definition set_children (ns : list Node) (dn : DomNode) : DomNode :=
  {| isElement := isElement dn; parent := parent dn; children := ns |}.

(** [n.parentNode] *)
Definition parentNode (tree : list DomNode) (n : Node) : option Node :=
  dn ← tree !! n; parent dn.

(** [n.parentElement]: the parent, if it is an element. *)
Definition parentElement (tree : list DomNode) (n : Node) : option Node :=
  p ← parentNode tree n;
  dp ← tree !! p;
  if isElement dp then Some p else None.

(** The node that follows [n] among [siblings]. *)
Fixpoint after (n : Node) (siblings : list Node) : option Node :=
  match siblings with
  | [] => None
  | x :: rest => if decide (x = n) then head rest else after n rest
  end.

(** [n.nextSibling] *)
Definition nextSibling (tree : list DomNode) (n : Node) : option Node :=
  p ← parentNode tree n;
  dp ← tree !! p;
  after n (children dp).

(** "Remove" of the DOM standard: [n] leaves its parent, if it has one. *)
Definition detach (n : Node) (tree : list DomNode) : list DomNode :=
  match parentNode tree n with
  | Some p =>
      alter (set_parent None) n
        (alter (λ dp, set_children (filter (λ x, x ≠ n) (children dp)) dp) p tree)
  | None => tree
  end.

(** [node] put before [child] among [siblings]. *)
Fixpoint before (node child : Node) (siblings : list Node) : list Node :=
  match siblings with
  | [] => [node]
  | x :: rest =>
      if decide (x = child) then node :: x :: rest
      else x :: before node child rest
  end.

(** "Insert" of the DOM standard, for a node that has no parent: before
    [child], or last when [child] is [null]. *)
Definition attach (p node : Node) (child : option Node) (tree : list DomNode)
  : list DomNode :=
  alter (set_parent (Some p)) node
    (alter (λ dp, set_children
                    (match child with
                     | Some c => before node c (children dp)
                     | None => children dp ++ [node]
                     end) dp)
       p tree).

(** Is [a] the node [n] or above it?  [fuel] bounds the climb. *)
Fixpoint inclusive_ancestor (fuel : nat) (tree : list DomNode) (a n : Node) : bool :=
  bool_decide (a = n)
  || match fuel with
     | O => false
     | S fuel' =>
         match parentNode tree n with
         | Some p => inclusive_ancestor fuel' tree a p
         | None => false
         end
     end.

(** "Pre-insert" of the DOM standard, behind [p.insertBefore(node, child)]:
    it throws a [HierarchyRequestError] when [node] is [p] or above it and
    a [NotFoundError] when [child] is not a child of [p]; a [child] that is
    [node] itself stands for the sibling after it; [node] leaves the
    parent it had. *)
Definition pre_insert (p node : Node) (child : option Node) (tree : list DomNode)
  : Completion (list DomNode) :=
  if inclusive_ancestor (length tree) tree node p then None
  else if match child with
          | Some c => bool_decide (parentNode tree c = Some p)
          | None => true
          end
  then
    let referenceChild :=
      if bool_decide (child = Some node) then nextSibling tree node else child in
    Some (attach p node referenceChild (detach node tree))
  else None.

(** "Pre-remove", behind [p.removeChild(child)]: a [NotFoundError] when
    [child] is not a child of [p]. *)
Definition pre_remove (p child : Node) (tree : list DomNode)
  : Completion (list DomNode) :=
  if bool_decide (parentNode tree child = Some p) then Some (detach child tree)
  else None.

(** What [document.createElement('div')] returns: no class, no content. *)
Definition blank : Element := {| className := ""; innerHTML := "" |}.

(** [e.className = c] and [e.innerHTML = html] *)
Definition with_className (c : string) (e : Element) : Element :=
  {| className := c; innerHTML := innerHTML e |}.

Definition with_innerHTML (html : string) (e : Element) : Element :=
  {| className := className e; innerHTML := html |}.

(** The page a directive lives on.  The directive's element fields hold
    the elements' own properties; the page holds the tree and, for each of
    the three fields, the node the field refers to. *)
Record Page (D : Type) := {
  directive : D;
  tree : list DomNode;
  inputNode : Node;
  descriptionNode : option Node;
  feedbackNode : option Node;
}.
Arguments directive {D} _.
Arguments tree {D} _.
Arguments inputNode {D} _.
Arguments descriptionNode {D} _.
Arguments feedbackNode {D} _.

Definition set_directive {D} (d : D) (p : Page D) : Page D :=
  {| directive := d; tree := tree p; inputNode := inputNode p;
     descriptionNode := descriptionNode p; feedbackNode := feedbackNode p |}.

Definition set_tree {D} (t : list DomNode) (p : Page D) : Page D :=
  {| directive := directive p; tree := t; inputNode := inputNode p;
     descriptionNode := descriptionNode p; feedbackNode := feedbackNode p |}.

Definition set_descriptionNode {D} (n : option Node) (p : Page D) : Page D :=
  {| directive := directive p; tree := tree p; inputNode := inputNode p;
     descriptionNode := n; feedbackNode := feedbackNode p |}.

Definition set_feedbackNode {D} (n : option Node) (p : Page D) : Page D :=
  {| directive := directive p; tree := tree p; inputNode := inputNode p;
     descriptionNode := descriptionNode p; feedbackNode := n |}.

(** A method of the directive that does not touch the document, run on
    the page. *)
Definition zoom {D A} (c : M D A) : M (Page D) A :=
  λ m, let '(m', r) := c {| this := directive (this m); calls := calls m; now := now m;
                            timers := timers m; emitted := emitted m |} in
       ({| this := set_directive (this m') (this m); calls := calls m'; now := now m';
           timers := timers m'; emitted := emitted m' |}, r).

(** [document.createElement('div')] *)
Definition createElement {D} : M (Page D) Node :=
  let* t := gets tree in
  modify (set_tree (t ++ [{| isElement := true; parent := None; children := [] |}]));;
  ret (length t).

(** [p.insertBefore(node, child)] and [p.removeChild(child)] *)
Definition insertBefore {D} (p node : Node) (child : option Node) : M (Page D) unit :=
  let* t := gets tree in
  let* t' := lift (pre_insert p node child t) in
  modify (set_tree t').

Definition removeChild {D} (p child : Node) : M (Page D) unit :=
  let* t := gets tree in
  let* t' := lift (pre_remove p child t) in
  modify (set_tree t').

(* ================================================================== *)
(** * The directive of [informative-validator-rules.ts] (debounced) *)
(* ================================================================== *)

Module RxDirective.

Record Directive := {
  _inputElement : Element;
  _descriptionElement : option Element;
  _feedbackElement : option Element;
  _valid : bool;
  _initialised : bool;
  _typingTimer : option Subscription;
  _validationDelay : N;
  syncRules : option (list SynchronousValidationRule.t);
  asyncRules : option (list AsynchronousValidationRule.t);
  syncRuleSet : option SynchronousValidationRuleSet.t;
  asyncRuleSet : option AsynchronousValidationRuleSet.t;
  hideFeedback : bool;
  hideDescriptions : bool;
  formControl : option AbstractControl;
  descriptions : option (list string);
  feedback : option (list string);
}.

(** The field initialisers and the constructor. *)
Definition constructor (element : Element) : Directive :=
  {| _inputElement := element;
     _descriptionElement := None;
     _feedbackElement := None;
     _valid := false;
     _initialised := false;
     _typingTimer := None;
     _validationDelay := 1500;
     syncRules := None;
     asyncRules := None;
     syncRuleSet := None;
     asyncRuleSet := None;
     hideFeedback := false;
     hideDescriptions := false;
     formControl := None;
     descriptions := None;
     feedback := None |}.

Definition set__valid (v : bool) (d : Directive) : Directive :=
  {| _inputElement := _inputElement d;
     _descriptionElement := _descriptionElement d;
     _feedbackElement := _feedbackElement d;
     _valid := v;
     _initialised := _initialised d;
     _typingTimer := _typingTimer d;
     _validationDelay := _validationDelay d;
     syncRules := syncRules d;
     asyncRules := asyncRules d;
     syncRuleSet := syncRuleSet d;
     asyncRuleSet := asyncRuleSet d;
     hideFeedback := hideFeedback d;
     hideDescriptions := hideDescriptions d;
     formControl := formControl d;
     descriptions := descriptions d;
     feedback := feedback d |}.

Definition set_feedback (f : option (list string)) (d : Directive) : Directive :=
  {| _inputElement := _inputElement d;
     _descriptionElement := _descriptionElement d;
     _feedbackElement := _feedbackElement d;
     _valid := _valid d;
     _initialised := _initialised d;
     _typingTimer := _typingTimer d;
     _validationDelay := _validationDelay d;
     syncRules := syncRules d;
     asyncRules := asyncRules d;
     syncRuleSet := syncRuleSet d;
     asyncRuleSet := asyncRuleSet d;
     hideFeedback := hideFeedback d;
     hideDescriptions := hideDescriptions d;
     formControl := formControl d;
     descriptions := descriptions d;
     feedback := f |}.

Definition set__typingTimer (t : option Subscription) (d : Directive) : Directive :=
  {| _inputElement := _inputElement d;
     _descriptionElement := _descriptionElement d;
     _feedbackElement := _feedbackElement d;
     _valid := _valid d;
     _initialised := _initialised d;
     _typingTimer := t;
     _validationDelay := _validationDelay d;
     syncRules := syncRules d;
     asyncRules := asyncRules d;
     syncRuleSet := syncRuleSet d;
     asyncRuleSet := asyncRuleSet d;
     hideFeedback := hideFeedback d;
     hideDescriptions := hideDescriptions d;
     formControl := formControl d;
     descriptions := descriptions d;
     feedback := feedback d |}.

Definition set_formControl (c : option AbstractControl) (d : Directive) : Directive :=
  {| _inputElement := _inputElement d;
     _descriptionElement := _descriptionElement d;
     _feedbackElement := _feedbackElement d;
     _valid := _valid d;
     _initialised := _initialised d;
     _typingTimer := _typingTimer d;
     _validationDelay := _validationDelay d;
     syncRules := syncRules d;
     asyncRules := asyncRules d;
     syncRuleSet := syncRuleSet d;
     asyncRuleSet := asyncRuleSet d;
     hideFeedback := hideFeedback d;
     hideDescriptions := hideDescriptions d;
     formControl := c;
     descriptions := descriptions d;
     feedback := feedback d |}.

(** [this.feedback.push(item)] *)
Definition push_feedback (item : string) : M Directive unit :=
  let* fb := gets feedback in
  let* items := lift fb in
  modify (set_feedback (Some (items ++ [item]))).

Definition getValidationDelay : M Directive N := gets _validationDelay.

Definition waitForInputFinish (callback : Callback) : M Directive unit :=
  let* validationDelay := getValidationDelay in
  let* typingTimer := gets _typingTimer in
  match typingTimer with
  | Some sub => unsubscribe sub
  | None => ret tt
  end;;
  let* sub := timer_subscribe validationDelay callback in
  modify (set__typingTimer (Some sub)).

(** The statement [if(this._typingTimer != null) this._typingTimer.unsubscribe();]
    of [onBlur], [onKeyUp] and [ngOnDestroy]. *)
Definition unsubscribeTypingTimer : M Directive unit :=
  let* typingTimer := gets _typingTimer in
  match typingTimer with
  | Some sub => unsubscribe sub
  | None => ret tt
  end.

Definition getSyncRules : M Directive (list SynchronousValidationRule.t) :=
  let* syncRuleSet := gets syncRuleSet in
  let fromSet := match syncRuleSet with
                 | None => []
                 | Some set => SynchronousValidationRuleSet.getRuleSet set
                 end in
  let* syncRules := gets syncRules in
  let fromList := match syncRules with
                  | None => []
                  | Some list => list
                  end in
  ret (fromSet ++ fromList).

Definition getAsyncRules : M Directive (list AsynchronousValidationRule.t) :=
  let* asyncRuleSet := gets asyncRuleSet in
  let fromSet := match asyncRuleSet with
                 | None => []
                 | Some set => AsynchronousValidationRuleSet.getRuleSet set
                 end in
  let* asyncRules := gets asyncRules in
  let fromList := match asyncRules with
                  | None => []
                  | Some list => list
                  end in
  ret (fromSet ++ fromList).

Definition setErrors : M Directive unit :=
  let* valid := gets _valid in
  let errors := if valid then None else Some CUSTOM_ERRORS in
  let* formControl := gets formControl in
  let* control := lift formControl in
  modify (set_formControl (Some (setErrors_control errors control))).

Definition clearErrors : M Directive unit :=
  let* formControl := gets formControl in
  let* control := lift formControl in
  modify (set_formControl (Some (setErrors_control None control))).

Definition shouldDisplayFeedback (d : Directive) : bool :=
  negb (
    bool_decide (feedback d = None)
    || hideFeedback d
    || match formControl d with
       | None => true
       | Some control =>
           untouched control
           || bool_decide (status control = "DISABLED")
       end
    || _valid d).

(** The [catch] handler of [validate]. *)
Definition validate_catch : M Directive unit :=
  modify (set_feedback (Some []));;
  push_feedback GENERIC_FAILURE;;
  modify (set__valid false).

(** The [then] handler of [validate]: the body of its loop over the keys
    of [results], and the handler; [valid] is the variable of the
    enclosing call. *)
Definition validate_merge (asyncRules : list AsynchronousValidationRule.t)
    (results : list bool) (key : nat) (valid : bool) : M Directive bool :=
  let* result := lift (results !! key) in
  if negb result then
    let* rule := lift (asyncRules !! key) in
    match AsynchronousValidationRule.getFeedback rule with
    | Some item => push_feedback item
    | None => ret tt
    end;;
    ret false
  else ret valid.

Definition validate_then (asyncRules : list AsynchronousValidationRule.t)
    (valid : bool) (results : list bool) : M Directive unit :=
  let* valid := for_in results valid (validate_merge asyncRules results) in
  modify (set__valid valid).

(** The body of the loop over the synchronous rules. *)
Definition validate_sync
    (rule : SynchronousValidationRule.t) (valid : bool) : M Directive bool :=
  let* control := gets formControl in
  let* ruleIsValid := call_sync rule control in
  if negb ruleIsValid then
    match SynchronousValidationRule.getFeedback rule with
    | Some item => push_feedback item
    | None => ret tt
    end;;
    ret false
  else ret valid.

(** The body of the loop over the asynchronous rules:
    [promises.push(rule.isValid(this.formControl))]. *)
Definition validate_dispatch
    (rule : AsynchronousValidationRule.t) (promises : list Settlement)
  : M Directive (list Settlement) :=
  let* control := gets formControl in
  let* promise := call_async rule control in
  ret (promises ++ [promise]).

(** One validation pass, run until its promise settles; [order] is the
    order in which the promises of the asynchronous rules settle.  When
    the combined promise stays pending neither handler runs. *)
Definition validate (order : list nat) : M Directive unit :=
  let* syncRules := getSyncRules in
  let* asyncRules := getAsyncRules in
  modify (set_feedback (Some []));;
  let* valid := for_of syncRules true validate_sync in
  if negb valid then
    modify (set__valid valid)
  else
    let* promises := for_of asyncRules [] validate_dispatch in
    match Promise_all order promises with
    | AllPending => ret tt
    | AllFulfilled results =>
        try_catch (validate_then asyncRules valid results) validate_catch
    | AllRejected => validate_catch
    end.

Definition set_descriptions (ds : option (list string)) (d : Directive) : Directive :=
  {| _inputElement := _inputElement d;
     _descriptionElement := _descriptionElement d;
     _feedbackElement := _feedbackElement d;
     _valid := _valid d;
     _initialised := _initialised d;
     _typingTimer := _typingTimer d;
     _validationDelay := _validationDelay d;
     syncRules := syncRules d;
     asyncRules := asyncRules d;
     syncRuleSet := syncRuleSet d;
     asyncRuleSet := asyncRuleSet d;
     hideFeedback := hideFeedback d;
     hideDescriptions := hideDescriptions d;
     formControl := formControl d;
     descriptions := ds;
     feedback := feedback d |}.

(** [this.descriptions.push(item)] *)
Definition push_description (item : string) : M Directive unit :=
  let* ds := gets descriptions in
  let* items := lift ds in
  modify (set_descriptions (Some (items ++ [item]))).

(** The bodies of the two loops of [buildDescriptions]. *)
Definition describe_sync (rule : SynchronousValidationRule.t) (_ : unit)
  : M Directive unit :=
  match SynchronousValidationRule.getDescription rule with
  | Some item => push_description item
  | None => ret tt
  end.

Definition describe_async (rule : AsynchronousValidationRule.t) (_ : unit)
  : M Directive unit :=
  match AsynchronousValidationRule.getDescription rule with
  | Some item => push_description item
  | None => ret tt
  end.

Definition buildDescriptions : M Directive unit :=
  let* syncRules := getSyncRules in
  let* asyncRules := getAsyncRules in
  modify (set_descriptions (Some []));;
  for_of syncRules tt describe_sync;;
  for_of asyncRules tt describe_async.

(** ** Rendering *)

Definition set__descriptionElement (e : option Element) (d : Directive) : Directive :=
  {| _inputElement := _inputElement d;
     _descriptionElement := e;
     _feedbackElement := _feedbackElement d;
     _valid := _valid d;
     _initialised := _initialised d;
     _typingTimer := _typingTimer d;
     _validationDelay := _validationDelay d;
     syncRules := syncRules d;
     asyncRules := asyncRules d;
     syncRuleSet := syncRuleSet d;
     asyncRuleSet := asyncRuleSet d;
     hideFeedback := hideFeedback d;
     hideDescriptions := hideDescriptions d;
     formControl := formControl d;
     descriptions := descriptions d;
     feedback := feedback d |}.

Definition set__feedbackElement (e : option Element) (d : Directive) : Directive :=
  {| _inputElement := _inputElement d;
     _descriptionElement := _descriptionElement d;
     _feedbackElement := e;
     _valid := _valid d;
     _initialised := _initialised d;
     _typingTimer := _typingTimer d;
     _validationDelay := _validationDelay d;
     syncRules := syncRules d;
     asyncRules := asyncRules d;
     syncRuleSet := syncRuleSet d;
     asyncRuleSet := asyncRuleSet d;
     hideFeedback := hideFeedback d;
     hideDescriptions := hideDescriptions d;
     formControl := formControl d;
     descriptions := descriptions d;
     feedback := feedback d |}.

(** [this._descriptionElement = e] and [this._feedbackElement = e], [e]
    being [null] or the element at node [n]. *)
Definition assign__descriptionElement (n : option Node) (e : option Element)
  : M (Page Directive) unit :=
  modify (λ p, set_descriptionNode n
                 (set_directive (set__descriptionElement e (directive p)) p)).

Definition assign__feedbackElement (n : option Node) (e : option Element)
  : M (Page Directive) unit :=
  modify (λ p, set_feedbackNode n
                 (set_directive (set__feedbackElement e (directive p)) p)).

(** A write to a property of [this._descriptionElement] or of
    [this._feedbackElement]. *)
Definition write__descriptionElement (f : Element → Element) : M (Page Directive) unit :=
  let* descriptionElement := gets (λ p, _descriptionElement (directive p)) in
  let* element := lift descriptionElement in
  modify (λ p, set_directive (set__descriptionElement (Some (f element)) (directive p)) p).

Definition write__feedbackElement (f : Element → Element) : M (Page Directive) unit :=
  let* feedbackElement := gets (λ p, _feedbackElement (directive p)) in
  let* element := lift feedbackElement in
  modify (λ p, set_directive (set__feedbackElement (Some (f element)) (directive p)) p).

(** The body of the loops that build the markup. *)
Definition add_item (item : string) (html : string) : M (Page Directive) string :=
  ret (html +:+ (("<li>" +:+ item) +:+ "</li>")).

Definition clearDescriptions : M (Page Directive) unit :=
  let* descriptionElement := gets descriptionNode in
  match descriptionElement with
  | None => ret tt
  | Some element =>
      let* t := gets tree in
      let* parentElement := lift (parentElement t element) in
      removeChild parentElement element;;
      assign__descriptionElement None None
  end.

Definition displayDescriptions : M (Page Directive) unit :=
  let* hideDescriptions := gets (λ p, hideDescriptions (directive p)) in
  if hideDescriptions then ret tt
  else
    let descriptionHtml := "<ul>" in
    let* descriptions := gets (λ p, descriptions (directive p)) in
    let* items := lift descriptions in
    let* descriptionHtml := for_of items descriptionHtml add_item in
    let descriptionHtml := descriptionHtml +:+ "</ul>" in
    let* element := createElement in
    assign__descriptionElement (Some element) (Some blank);;
    write__descriptionElement (with_className "informative-validator-descriptions");;
    write__descriptionElement (with_innerHTML descriptionHtml);;
    let* inputElement := gets inputNode in
    let* t := gets tree in
    let* parentNode := lift (parentNode t inputElement) in
    let* descriptionElement := gets descriptionNode in
    let* node := lift descriptionElement in
    insertBefore parentNode node (nextSibling t inputElement).

Definition clearFeedback : M (Page Directive) unit :=
  let* feedbackElement := gets feedbackNode in
  match feedbackElement with
  | None => ret tt
  | Some element =>
      let* t := gets tree in
      let* parentElement := lift (parentElement t element) in
      removeChild parentElement element;;
      assign__feedbackElement None None
  end.

Definition displayFeedback : M (Page Directive) unit :=
  let* initialised := gets (λ p, _initialised (directive p)) in
  if negb initialised then ret tt
  else
    clearFeedback;;
    let feedbackHtml := "<ul>" in
    let* feedback := gets (λ p, feedback (directive p)) in
    let* items := lift feedback in
    let* feedbackHtml := for_of items feedbackHtml add_item in
    let feedbackHtml := feedbackHtml +:+ "</ul>" in
    let* element := createElement in
    assign__feedbackElement (Some element) (Some blank);;
    write__feedbackElement (with_className "informative-validator-feedback");;
    write__feedbackElement (with_innerHTML feedbackHtml);;
    let* inputElement := gets inputNode in
    let* t := gets tree in
    let* parentNode := lift (parentNode t inputElement) in
    let* feedbackElement := gets feedbackNode in
    let* node := lift feedbackElement in
    let* descriptionElement := gets descriptionNode in
    let* description := lift descriptionElement in
    insertBefore parentNode node (nextSibling t description).

(** The callback [valueUpdate] hands to [then]. *)
Definition valueUpdate_then : M (Page Directive) unit :=
  zoom setErrors;;
  let* display := gets (λ p, shouldDisplayFeedback (directive p)) in
  if display then displayFeedback else clearFeedback.

Definition ngOnDestroy : M (Page Directive) unit :=
  zoom unsubscribeTypingTimer;;
  clearFeedback;;
  clearDescriptions.

End RxDirective.

(* ================================================================== *)
(** * The directive of [informative-validator.directive.ts] *)
(* ================================================================== *)

Module Directive.

Record Directive := {
  _inputElement : Element;
  _descriptionElement : option Element;
  _feedbackElement : option Element;
  _initialised : bool;
  _valid : bool;
  syncRules : option (list SynchronousValidationRule.t);
  asyncRules : option (list AsynchronousValidationRule.t);
  syncRuleSet : option SynchronousValidationRuleSet.t;
  asyncRuleSet : option AsynchronousValidationRuleSet.t;
  hideFeedback : bool;
  hideDescriptions : bool;
  validationControl : option AbstractControl;
  descriptions : option (list JsString);
  (** this directive pushes what [getFeedback()] returns, [null] or not *)
  feedback : option (list JsString);
}.

Definition set__valid (v : bool) (d : Directive) : Directive :=
  {| _inputElement := _inputElement d;
     _descriptionElement := _descriptionElement d;
     _feedbackElement := _feedbackElement d;
     _initialised := _initialised d;
     _valid := v;
     syncRules := syncRules d;
     asyncRules := asyncRules d;
     syncRuleSet := syncRuleSet d;
     asyncRuleSet := asyncRuleSet d;
     hideFeedback := hideFeedback d;
     hideDescriptions := hideDescriptions d;
     validationControl := validationControl d;
     descriptions := descriptions d;
     feedback := feedback d |}.

Definition set_feedback (f : option (list JsString)) (d : Directive) : Directive :=
  {| _inputElement := _inputElement d;
     _descriptionElement := _descriptionElement d;
     _feedbackElement := _feedbackElement d;
     _initialised := _initialised d;
     _valid := _valid d;
     syncRules := syncRules d;
     asyncRules := asyncRules d;
     syncRuleSet := syncRuleSet d;
     asyncRuleSet := asyncRuleSet d;
     hideFeedback := hideFeedback d;
     hideDescriptions := hideDescriptions d;
     validationControl := validationControl d;
     descriptions := descriptions d;
     feedback := f |}.

(** [this.feedback.push(item)] *)
Definition push_feedback (item : JsString) : M Directive unit :=
  let* fb := gets feedback in
  let* items := lift fb in
  modify (set_feedback (Some (items ++ [item]))).

Definition getSyncRules : M Directive (list SynchronousValidationRule.t) :=
  let* syncRuleSet := gets syncRuleSet in
  let fromSet := match syncRuleSet with
                 | None => []
                 | Some set => SynchronousValidationRuleSet.getRuleSet set
                 end in
  let* syncRules := gets syncRules in
  let fromList := match syncRules with
                  | None => []
                  | Some list => list
                  end in
  ret (fromSet ++ fromList).

Definition getAsyncRules : M Directive (list AsynchronousValidationRule.t) :=
  let* asyncRuleSet := gets asyncRuleSet in
  let fromSet := match asyncRuleSet with
                 | None => []
                 | Some set => AsynchronousValidationRuleSet.getRuleSet set
                 end in
  let* asyncRules := gets asyncRules in
  let fromList := match asyncRules with
                  | None => []
                  | Some list => list
                  end in
  ret (fromSet ++ fromList).

(** [None]: the read of [untouched] on a missing control throws. *)
Definition shouldDisplayFeedback (d : Directive) : Completion bool :=
  if bool_decide (feedback d = None) then Some false
  else if negb (_initialised d) then Some false
  else if hideFeedback d then Some false
  else
    control ← validationControl d;
    if untouched control then Some false
    else if _valid d then Some false
    else Some true.

(** The [catch] handler of [validate]. *)
Definition validate_catch : M Directive unit :=
  modify (set_feedback (Some []));;
  push_feedback (Some GENERIC_FAILURE);;
  modify (set__valid false).

(** The [then] handler of [validate]: the body of its loop, and the
    handler. *)
Definition validate_merge (asyncRules : list AsynchronousValidationRule.t)
    (results : list bool) (key : nat) (valid : bool) : M Directive bool :=
  let* result := lift (results !! key) in
  (if negb result then
     let* rule := lift (asyncRules !! key) in
     push_feedback (AsynchronousValidationRule.getDescription rule)
   else ret tt);;
  ret (valid && result).

Definition validate_then (asyncRules : list AsynchronousValidationRule.t)
    (valid : bool) (results : list bool) : M Directive unit :=
  let* valid := for_in results valid (validate_merge asyncRules results) in
  modify (set__valid valid).

(** The body of the loop over the synchronous rules.  In
    [valid = valid && rule.isValid(...)] the second call is made only
    while [valid] is still true. *)
Definition validate_sync
    (rule : SynchronousValidationRule.t) (valid : bool) : M Directive bool :=
  let* control := gets validationControl in
  let* ruleIsValid := call_sync rule control in
  (if negb ruleIsValid then
     push_feedback (SynchronousValidationRule.getFeedback rule)
   else ret tt);;
  if valid then
    let* control := gets validationControl in
    call_sync rule control
  else ret false.

(** The body of the loop over the asynchronous rules. *)
Definition validate_dispatch
    (rule : AsynchronousValidationRule.t) (promises : list Settlement)
  : M Directive (list Settlement) :=
  let* control := gets validationControl in
  let* promise := call_async rule control in
  ret (promises ++ [promise]).

(** One validation pass, run until its promise settles; [order] as in
    [RxDirective.validate]. *)
Definition validate (order : list nat) : M Directive unit :=
  let* syncRules := getSyncRules in
  let* asyncRules := getAsyncRules in
  modify (set_feedback (Some []));;
  let* valid := for_of syncRules true validate_sync in
  if negb valid then
    modify (set__valid valid)
  else
    let* promises := for_of asyncRules [] validate_dispatch in
    match Promise_all order promises with
    | AllPending => ret tt
    | AllFulfilled results =>
        try_catch (validate_then asyncRules valid results) validate_catch
    | AllRejected => validate_catch
    end.

Definition set_descriptions (ds : option (list JsString)) (d : Directive) : Directive :=
  {| _inputElement := _inputElement d;
     _descriptionElement := _descriptionElement d;
     _feedbackElement := _feedbackElement d;
     _initialised := _initialised d;
     _valid := _valid d;
     syncRules := syncRules d;
     asyncRules := asyncRules d;
     syncRuleSet := syncRuleSet d;
     asyncRuleSet := asyncRuleSet d;
     hideFeedback := hideFeedback d;
     hideDescriptions := hideDescriptions d;
     validationControl := validationControl d;
     descriptions := ds;
     feedback := feedback d |}.

(** [this.descriptions.push(item)] *)
Definition push_description (item : JsString) : M Directive unit :=
  let* ds := gets descriptions in
  let* items := lift ds in
  modify (set_descriptions (Some (items ++ [item]))).

(** The bodies of the two loops of [buildDescriptions]: no test against
    [null] here. *)
Definition describe_sync (rule : SynchronousValidationRule.t) (_ : unit)
  : M Directive unit :=
  push_description (SynchronousValidationRule.getDescription rule).

Definition describe_async (rule : AsynchronousValidationRule.t) (_ : unit)
  : M Directive unit :=
  push_description (AsynchronousValidationRule.getDescription rule).

Definition buildDescriptions : M Directive unit :=
  let* syncRules := getSyncRules in
  let* asyncRules := getAsyncRules in
  modify (set_descriptions (Some []));;
  for_of syncRules tt describe_sync;;
  for_of asyncRules tt describe_async.

(** ** Rendering *)

Definition set__descriptionElement (e : option Element) (d : Directive) : Directive :=
  {| _inputElement := _inputElement d;
     _descriptionElement := e;
     _feedbackElement := _feedbackElement d;
     _initialised := _initialised d;
     _valid := _valid d;
     syncRules := syncRules d;
     asyncRules := asyncRules d;
     syncRuleSet := syncRuleSet d;
     asyncRuleSet := asyncRuleSet d;
     hideFeedback := hideFeedback d;
     hideDescriptions := hideDescriptions d;
     validationControl := validationControl d;
     descriptions := descriptions d;
     feedback := feedback d |}.

Definition set__feedbackElement (e : option Element) (d : Directive) : Directive :=
  {| _inputElement := _inputElement d;
     _descriptionElement := _descriptionElement d;
     _feedbackElement := e;
     _initialised := _initialised d;
     _valid := _valid d;
     syncRules := syncRules d;
     asyncRules := asyncRules d;
     syncRuleSet := syncRuleSet d;
     asyncRuleSet := asyncRuleSet d;
     hideFeedback := hideFeedback d;
     hideDescriptions := hideDescriptions d;
     validationControl := validationControl d;
     descriptions := descriptions d;
     feedback := feedback d |}.

Definition set__initialised (b : bool) (d : Directive) : Directive :=
  {| _inputElement := _inputElement d;
     _descriptionElement := _descriptionElement d;
     _feedbackElement := _feedbackElement d;
     _initialised := b;
     _valid := _valid d;
     syncRules := syncRules d;
     asyncRules := asyncRules d;
     syncRuleSet := syncRuleSet d;
     asyncRuleSet := asyncRuleSet d;
     hideFeedback := hideFeedback d;
     hideDescriptions := hideDescriptions d;
     validationControl := validationControl d;
     descriptions := descriptions d;
     feedback := feedback d |}.

Definition set_validationControl (c : option AbstractControl) (d : Directive) : Directive :=
  {| _inputElement := _inputElement d;
     _descriptionElement := _descriptionElement d;
     _feedbackElement := _feedbackElement d;
     _initialised := _initialised d;
     _valid := _valid d;
     syncRules := syncRules d;
     asyncRules := asyncRules d;
     syncRuleSet := syncRuleSet d;
     asyncRuleSet := asyncRuleSet d;
     hideFeedback := hideFeedback d;
     hideDescriptions := hideDescriptions d;
     validationControl := c;
     descriptions := descriptions d;
     feedback := feedback d |}.

(** [this._descriptionElement = e] and [this._feedbackElement = e], [e]
    being the element at node [n]. *)
Definition assign__descriptionElement (n : option Node) (e : option Element)
  : M (Page Directive) unit :=
  modify (λ p, set_descriptionNode n
                 (set_directive (set__descriptionElement e (directive p)) p)).

Definition assign__feedbackElement (n : option Node) (e : option Element)
  : M (Page Directive) unit :=
  modify (λ p, set_feedbackNode n
                 (set_directive (set__feedbackElement e (directive p)) p)).

Definition write__descriptionElement (f : Element → Element) : M (Page Directive) unit :=
  let* descriptionElement := gets (λ p, _descriptionElement (directive p)) in
  let* element := lift descriptionElement in
  modify (λ p, set_directive (set__descriptionElement (Some (f element)) (directive p)) p).

Definition write__feedbackElement (f : Element → Element) : M (Page Directive) unit :=
  let* feedbackElement := gets (λ p, _feedbackElement (directive p)) in
  let* element := lift feedbackElement in
  modify (λ p, set_directive (set__feedbackElement (Some (f element)) (directive p)) p).

(** The body of the loops that build the markup; a [null] item reads
    ["null"] once concatenated. *)
Definition add_item (item : JsString) (html : string) : M (Page Directive) string :=
  ret (html +:+ (("<li>" +:+ default "null" item) +:+ "</li>")).

(** The element stays in [_descriptionElement] once removed. *)
Definition clearDescriptions : M (Page Directive) unit :=
  let* descriptionElement := gets descriptionNode in
  match descriptionElement with
  | None => ret tt
  | Some element =>
      let* t := gets tree in
      let* parentElement := lift (parentElement t element) in
      removeChild parentElement element
  end.

Definition displayDescriptions : M (Page Directive) unit :=
  let* hideDescriptions := gets (λ p, hideDescriptions (directive p)) in
  if hideDescriptions then ret tt
  else
    let descriptionHtml := "<ul>" in
    let* descriptions := gets (λ p, descriptions (directive p)) in
    let* items := lift descriptions in
    let* descriptionHtml := for_of items descriptionHtml add_item in
    let descriptionHtml := descriptionHtml +:+ "</ul>" in
    let* element := createElement in
    assign__descriptionElement (Some element) (Some blank);;
    write__descriptionElement (with_className "informative-validator-descriptions");;
    write__descriptionElement (with_innerHTML descriptionHtml);;
    let* inputElement := gets inputNode in
    let* t := gets tree in
    let* parentNode := lift (parentNode t inputElement) in
    let* descriptionElement := gets descriptionNode in
    let* node := lift descriptionElement in
    insertBefore parentNode node (nextSibling t inputElement).

(** The element stays in [_feedbackElement] once removed. *)
Definition clearFeedback : M (Page Directive) unit :=
  let* feedbackElement := gets feedbackNode in
  match feedbackElement with
  | None => ret tt
  | Some element =>
      let* t := gets tree in
      let* parentElement := lift (parentElement t element) in
      removeChild parentElement element
  end.

(** The last statement inserts [_descriptionElement], not the element
    just built. *)
Definition displayFeedback : M (Page Directive) unit :=
  clearFeedback;;
  let feedbackHtml := "<ul>" in
  let* feedback := gets (λ p, feedback (directive p)) in
  let* items := lift feedback in
  let* feedbackHtml := for_of items feedbackHtml add_item in
  let feedbackHtml := feedbackHtml +:+ "</ul>" in
  let* element := createElement in
  assign__feedbackElement (Some element) (Some blank);;
  write__feedbackElement (with_className "informative-validator-feedback");;
  write__feedbackElement (with_innerHTML feedbackHtml);;
  let* inputElement := gets inputNode in
  let* t := gets tree in
  let* parentNode := lift (parentNode t inputElement) in
  let* descriptionElement := gets descriptionNode in
  let* description := lift descriptionElement in
  insertBefore parentNode description (nextSibling t description).

Definition setErrors : M (Page Directive) unit :=
  let* validationControl := gets (λ p, validationControl (directive p)) in
  let* control := lift validationControl in
  modify (λ p, set_directive
                 (set_validationControl
                    (Some (setErrors_control (Some CUSTOM_ERRORS) control))
                    (directive p)) p);;
  displayFeedback.

(** [{}] is an object without keys, not [null]. *)
Definition clearErrors : M (Page Directive) unit :=
  let* validationControl := gets (λ p, validationControl (directive p)) in
  let* control := lift validationControl in
  modify (λ p, set_directive
                 (set_validationControl (Some (setErrors_control (Some []) control))
                    (directive p)) p);;
  clearFeedback.

Definition ngOnInit : M (Page Directive) unit :=
  modify (λ p, set_directive (set__initialised true (directive p)) p);;
  zoom buildDescriptions;;
  displayDescriptions.

(** The callback [ngOnChanges] hands to [then]. *)
Definition ngOnChanges_then : M (Page Directive) unit :=
  let* display := gets (λ p, shouldDisplayFeedback (directive p)) in
  let* display := lift display in
  if display then setErrors else clearErrors.

Definition ngOnDestroy : M (Page Directive) unit :=
  clearFeedback;;
  clearDescriptions.

End Directive.


(** A machine at rest around a directive: no call made, no timer started. *)
Definition boot {D} (d : D) : Machine D :=
  {| this := d; calls := []; now := 0; timers := []; emitted := [] |}.

(* ================================================================== *)
(** * Vocabulary of the statements *)
(* ================================================================== *)

(** The aggregated rules of a configuration: the set's rules, then the
    list's. *)
Definition rules_of_set (set : option SynchronousValidationRuleSet.t)
  : list SynchronousValidationRule.t :=
  from_option SynchronousValidationRuleSet.getRuleSet [] set.

Definition async_rules_of_set (set : option AsynchronousValidationRuleSet.t)
  : list AsynchronousValidationRule.t :=
  from_option AsynchronousValidationRuleSet.getRuleSet [] set.

(** What a rule answers on a control. *)
Definition sync_passes (control : option AbstractControl)
    (rule : SynchronousValidationRule.t) : bool :=
  bool_decide (SynchronousValidationRule.isValid rule control = Some true).

Definition sync_fails (control : option AbstractControl)
    (rule : SynchronousValidationRule.t) : Prop :=
  SynchronousValidationRule.isValid rule control = Some false.

#[global] Instance sync_fails_dec control rule : Decision (sync_fails control rule).
Proof. unfold sync_fails. apply _. Defined.

Definition sync_returns (control : option AbstractControl)
    (rule : SynchronousValidationRule.t) : Prop :=
  is_Some (SynchronousValidationRule.isValid rule control).

Definition async_passes (control : option AbstractControl)
    (rule : AsynchronousValidationRule.t) : bool :=
  bool_decide (AsynchronousValidationRule.isValid rule control = Some (Fulfilled true)).

Definition async_fails (control : option AbstractControl)
    (rule : AsynchronousValidationRule.t) : Prop :=
  AsynchronousValidationRule.isValid rule control = Some (Fulfilled false).

#[global] Instance async_fails_dec control rule : Decision (async_fails control rule).
Proof. unfold async_fails. apply _. Defined.

(** The asynchronous rule hands back a promise (it does not throw). *)
Definition async_returns (control : option AbstractControl)
    (rule : AsynchronousValidationRule.t) : Prop :=
  is_Some (AsynchronousValidationRule.isValid rule control).

(** ... and that promise fulfils. *)
Definition async_fulfils (control : option AbstractControl)
    (rule : AsynchronousValidationRule.t) : Prop :=
  ∃ b, AsynchronousValidationRule.isValid rule control = Some (Fulfilled b).


Definition is_sync_call (c : Call) : Prop :=
  match c with
  | SyncIsValid _ _ => True
  | AsyncIsValid _ _ => False
  end.

(* ================================================================== *)
(** * Invariants, derived notions and sample configurations *)
(* ================================================================== *)

(** The empty slots of the values array. *)
Definition empty_slots (vs : list (option bool)) : nat :=
  length (filter (λ v, v = None) vs).

(** What holds of the combinator's state at every moment. *)
Record all_inv (promises : list Settlement) (st : AllState) : Prop := {
  inv_length : length (values st) = length promises;
  inv_count : remainingElementsCount st = empty_slots (values st);
  inv_values k b : values st !! k = Some (Some b) → promises !! k = Some (Fulfilled b);
  inv_outcome :
    match outcome st with
    | AllPending => 0 < remainingElementsCount st
    | AllFulfilled results =>
        remainingElementsCount st = 0 ∧ results = truthy <$> values st
    | AllRejected => ∃ k, promises !! k = Some Rejected
    end;
}.

Arguments inv_length {promises} st _.
Arguments inv_count {promises} st _.
Arguments inv_values {promises} st _ k b _.
Arguments inv_outcome {promises} st _.

(** Once position [k] has settled, the combined promise is settled or the
    slot of [k] is filled; both are stable. *)
Definition seen (k : nat) (st : AllState) : Prop :=
  outcome st ≠ AllPending ∨ ∃ b, values st !! k = Some (Some b).

(** The promises the asynchronous rules hand back, in rule order. *)
Definition dispatched (control : option AbstractControl)
    (rules : list AsynchronousValidationRule.t) : list Settlement :=
  omap (λ r, AsynchronousValidationRule.isValid r control) rules.

(** The feedback of the rules whose result is false, in rule order. *)
Definition merge_feedback (rules : list AsynchronousValidationRule.t)
    (results : list bool) : list string :=
  omap (λ rb : AsynchronousValidationRule.t * bool,
          if rb.2 then None else AsynchronousValidationRule.getFeedback rb.1)
       (zip rules results).

(** What [informative-validator.directive.ts] pushes for the rules whose
    result is false. *)
Definition merge_descriptions (rules : list AsynchronousValidationRule.t)
    (results : list bool) : list JsString :=
  omap (λ rb : AsynchronousValidationRule.t * bool,
          if rb.2 then None else Some (AsynchronousValidationRule.getDescription rb.1))
       (zip rules results).

Definition Rx_syncRules (d : RxDirective.Directive) : list SynchronousValidationRule.t :=
  rules_of_set (RxDirective.syncRuleSet d) ++ default [] (RxDirective.syncRules d).

Definition Rx_asyncRules (d : RxDirective.Directive) : list AsynchronousValidationRule.t :=
  async_rules_of_set (RxDirective.asyncRuleSet d) ++ default [] (RxDirective.asyncRules d).

Definition Dir_syncRules (d : Directive.Directive) : list SynchronousValidationRule.t :=
  rules_of_set (Directive.syncRuleSet d) ++ default [] (Directive.syncRules d).

Definition Dir_asyncRules (d : Directive.Directive) : list AsynchronousValidationRule.t :=
  async_rules_of_set (Directive.asyncRuleSet d) ++ default [] (Directive.asyncRules d).

(** The invocations made by the loop over the synchronous rules of
    [informative-validator.directive.ts]: every rule once, and once more
    while no rule has failed yet. *)
Fixpoint double_calls (control : option AbstractControl) (valid : bool)
    (rules : list SynchronousValidationRule.t) : list Call :=
  match rules with
  | [] => []
  | r :: rs =>
      SyncIsValid r control
      :: (if valid then [SyncIsValid r control] else [])
      ++ double_calls control (valid && sync_passes control r) rs
  end.

(** Two machines agree outside the directive (clock, timers, callbacks
    run) and their directives are related by [F]. *)
Definition machine_frame {D} (F : D → D → Prop) (m m' : Machine D) : Prop :=
  F (this m) (this m') ∧ now m' = now m ∧ timers m' = timers m ∧ emitted m' = emitted m.

Definition preserves {D A} (F : D → D → Prop) (c : M D A) : Prop :=
  ∀ m, machine_frame F m (c m).1.

(** The fields of the directive other than the verdict ([_valid],
    [feedback]). *)
Definition Rx_frame (d d' : RxDirective.Directive) : Prop :=
  RxDirective._inputElement d' = RxDirective._inputElement d
  ∧ RxDirective._descriptionElement d' = RxDirective._descriptionElement d
  ∧ RxDirective._feedbackElement d' = RxDirective._feedbackElement d
  ∧ RxDirective._initialised d' = RxDirective._initialised d
  ∧ RxDirective._typingTimer d' = RxDirective._typingTimer d
  ∧ RxDirective._validationDelay d' = RxDirective._validationDelay d
  ∧ RxDirective.syncRules d' = RxDirective.syncRules d
  ∧ RxDirective.asyncRules d' = RxDirective.asyncRules d
  ∧ RxDirective.syncRuleSet d' = RxDirective.syncRuleSet d
  ∧ RxDirective.asyncRuleSet d' = RxDirective.asyncRuleSet d
  ∧ RxDirective.hideFeedback d' = RxDirective.hideFeedback d
  ∧ RxDirective.hideDescriptions d' = RxDirective.hideDescriptions d
  ∧ RxDirective.formControl d' = RxDirective.formControl d
  ∧ RxDirective.descriptions d' = RxDirective.descriptions d.

Definition Dir_frame (d d' : Directive.Directive) : Prop :=
  Directive._inputElement d' = Directive._inputElement d
  ∧ Directive._descriptionElement d' = Directive._descriptionElement d
  ∧ Directive._feedbackElement d' = Directive._feedbackElement d
  ∧ Directive._initialised d' = Directive._initialised d
  ∧ Directive.syncRules d' = Directive.syncRules d
  ∧ Directive.asyncRules d' = Directive.asyncRules d
  ∧ Directive.syncRuleSet d' = Directive.syncRuleSet d
  ∧ Directive.asyncRuleSet d' = Directive.asyncRuleSet d
  ∧ Directive.hideFeedback d' = Directive.hideFeedback d
  ∧ Directive.hideDescriptions d' = Directive.hideDescriptions d
  ∧ Directive.validationControl d' = Directive.validationControl d
  ∧ Directive.descriptions d' = Directive.descriptions d.

(** What can happen to a binding: a value change schedules a revalidation
    ([waitForInputFinish]); blur, enter and teardown cancel the pending one;
    time passes; a validation pass runs. *)
Inductive Action :=
| Schedule (callback : Callback)
| Cancel
| Elapse (dt : N)
| Validate (order : list nat).

Definition step (a : Action) (m : Machine RxDirective.Directive)
  : Machine RxDirective.Directive :=
  match a with
  | Schedule callback => (RxDirective.waitForInputFinish callback m).1
  | Cancel => (RxDirective.unsubscribeTypingTimer m).1
  | Elapse dt => elapse dt m
  | Validate order => (RxDirective.validate order m).1
  end.

Definition run_actions (acts : list Action) (m : Machine RxDirective.Directive)
  : Machine RxDirective.Directive :=
  foldl (λ m a, step a m) m acts.

(** The timer at position [h] is outstanding. *)
Definition outstanding (m : Machine RxDirective.Directive) (h : Subscription) : Prop :=
  ∃ tm, timers m !! h = Some tm ∧ is_pending tm = true.

(** The timer at position [h] was unsubscribed before it emitted. *)
Definition cancelled (m : Machine RxDirective.Directive) (h : Subscription) : Prop :=
  ∃ tm, timers m !! h = Some tm ∧ state tm = Unsubscribed.

(** How often the callback of the timer at position [h] has run. *)
Definition times_fired (m : Machine RxDirective.Directive) (h : Subscription) : nat :=
  length (filter (λ e, e.1 = h) (emitted m)).

Record timer_inv (m : Machine RxDirective.Directive) : Prop := {
  inv_pending h : outstanding m h → RxDirective._typingTimer (this m) = Some h;
  inv_emitted h cb :
    (h, cb) ∈ emitted m →
    ∃ tm, timers m !! h = Some tm ∧ state tm = Emitted ∧ next tm = cb;
  inv_nodup : NoDup (emitted m).*1;
}.

(** The timer table once the timer held in [_typingTimer], if any, is
    unsubscribed. *)
Definition unsubscribed_table (m : Machine RxDirective.Directive) : list TimerSubscription :=
  match RxDirective._typingTimer (this m) with
  | Some sub => alter close sub (timers m)
  | None => timers m
  end.

(** The debouncing contract of the binding in state [m], for
    a directive that started as [d]. *)
Definition debounce_contract (d : RxDirective.Directive)
    (m : Machine RxDirective.Directive) : Prop :=
  (* at most one timer is outstanding *)
  (∀ h1 h2, outstanding m h1 → outstanding m h2 → h1 = h2)
  (* scheduling cancels the outstanding timer and starts a new one, due
     after the configured delay, with the callback handed in; nothing
     fires meanwhile *)
  ∧ (∀ callback,
       let m' := step (Schedule callback) m in
       (∀ h, outstanding m h → cancelled m' h)
       ∧ (∀ h, outstanding m' h ↔ h = length (timers m))
       ∧ timers m' !! length (timers m)
         = Some {| due := (now m + RxDirective._validationDelay d)%N;
                   next := callback; state := Pending |}
       ∧ emitted m' = emitted m)
  (* an outstanding timer has not fired; it does not fire before it is
     due; once due it fires, and then it has fired exactly once *)
  ∧ (∀ h tm dt, timers m !! h = Some tm → is_pending tm = true →
       times_fired m h = 0
       ∧ ((now m + dt < due tm)%N →
            outstanding (step (Elapse dt) m) h
            ∧ times_fired (step (Elapse dt) m) h = 0)
       ∧ ((due tm ≤ now m + dt)%N →
            (h, next tm) ∈ emitted (step (Elapse dt) m)
            ∧ times_fired (step (Elapse dt) m) h = 1))
  (* no timer ever fires twice *)
  ∧ (∀ h, (times_fired m h ≤ 1)%nat)
  (* cancelling unsubscribes the outstanding timer; with nothing
     outstanding it changes nothing *)
  ∧ (∀ h, outstanding m h → cancelled (step Cancel m) h)
  ∧ ((∀ h, ¬ outstanding m h) → step Cancel m = m)
  (* a cancelled timer never fires, whatever happens next *)
  ∧ (∀ h, cancelled m h → ∀ acts, times_fired (run_actions acts m) h = 0)
  (* the delay is the one the directive was built with: 1500 ms *)
  ∧ RxDirective._validationDelay (this m) = RxDirective._validationDelay d
  ∧ (∀ element, RxDirective._validationDelay (RxDirective.constructor element) = 1500%N).

(** Every character of [s] is in the class [p]. *)
Fixpoint string_forall (p : ascii → bool) (s : string) : bool :=
  match s with
  | EmptyString => true
  | String a s' => p a && string_forall p s'
  end.

(** The pattern read off by hand: a non-empty local part, [@], a
    non-empty domain, a dot, and at least two letters. *)
Definition email_shape (s : string) : Prop :=
  ∃ local domain tld,
    s = local +:+ "@" +:+ domain +:+ "." +:+ tld
    ∧ local ≠ "" ∧ string_forall local_class local = true
    ∧ domain ≠ "" ∧ string_forall domain_class domain = true
    ∧ (2 ≤ String.length tld)%nat ∧ string_forall is_letter tld = true.

Definition sample_element : Element := {| className := ""; innerHTML := "" |}.

(** A touched, enabled control holding [v]. *)
Definition sample_control (v : Value) : AbstractControl :=
  {| value := v; untouched := false; status := "INVALID"; errors := None |}.

(** A synchronous rule that answers [b]; an asynchronous rule whose promise
    settles as [p]. *)
Definition sync_rule (description feedback : JsString) (b : bool)
  : SynchronousValidationRule.t :=
  {| SynchronousValidationRule.getDescription := description;
     SynchronousValidationRule.getFeedback := feedback;
     SynchronousValidationRule.isValid := λ _, Some b |}.

Definition async_rule (description feedback : JsString) (p : Settlement)
  : AsynchronousValidationRule.t :=
  {| AsynchronousValidationRule.getDescription := description;
     AsynchronousValidationRule.getFeedback := feedback;
     AsynchronousValidationRule.isValid := λ _, Some p |}.

(** Directives configured through their rule lists, bound to a control. *)
Definition Rx_configured (sync : list SynchronousValidationRule.t)
    (async : list AsynchronousValidationRule.t) (control : AbstractControl)
  : RxDirective.Directive :=
  {| RxDirective._inputElement := sample_element;
     RxDirective._descriptionElement := None;
     RxDirective._feedbackElement := None;
     RxDirective._valid := false;
     RxDirective._initialised := true;
     RxDirective._typingTimer := None;
     RxDirective._validationDelay := 1500;
     RxDirective.syncRules := Some sync;
     RxDirective.asyncRules := Some async;
     RxDirective.syncRuleSet := None;
     RxDirective.asyncRuleSet := None;
     RxDirective.hideFeedback := false;
     RxDirective.hideDescriptions := false;
     RxDirective.formControl := Some control;
     RxDirective.descriptions := None;
     RxDirective.feedback := None |}.

Definition Dir_configured (sync : list SynchronousValidationRule.t)
    (async : list AsynchronousValidationRule.t) (control : AbstractControl)
  : Directive.Directive :=
  {| Directive._inputElement := sample_element;
     Directive._descriptionElement := None;
     Directive._feedbackElement := None;
     Directive._initialised := true;
     Directive._valid := false;
     Directive.syncRules := Some sync;
     Directive.asyncRules := Some async;
     Directive.syncRuleSet := None;
     Directive.asyncRuleSet := None;
     Directive.hideFeedback := false;
     Directive.hideDescriptions := false;
     Directive.validationControl := Some control;
     Directive.descriptions := None;
     Directive.feedback := None |}.

(** An asynchronous rule that finds the name taken, and one whose lookup
    breaks. *)
Definition name_is_free : AsynchronousValidationRule.t :=
  async_rule (Some "Must be unique") (Some "This name is taken") (Fulfilled false).

Definition lookup_breaks : AsynchronousValidationRule.t :=
  async_rule (Some "Must exist") (Some "No such entry") Rejected.

(** A failing synchronous rule that has no feedback to give. *)
Definition silent_rule : SynchronousValidationRule.t :=
  sync_rule (Some "Checked silently") None false.

(** A directive of [informative-validator.directive.ts] bound to a disabled
    control that was touched and found invalid. *)
Definition Dir_disabled : Directive.Directive :=
  {| Directive._inputElement := sample_element;
     Directive._descriptionElement := None;
     Directive._feedbackElement := None;
     Directive._initialised := true;
     Directive._valid := false;
     Directive.syncRules := Some [RequiredValidationRule.rule];
     Directive.asyncRules := None;
     Directive.syncRuleSet := None;
     Directive.asyncRuleSet := None;
     Directive.hideFeedback := false;
     Directive.hideDescriptions := false;
     Directive.validationControl :=
       Some {| value := VString ""; untouched := false;
               status := "DISABLED"; errors := None |};
     Directive.descriptions := None;
     Directive.feedback := Some [Some "You have not provided this item"] |}.

(** The same directive with no control bound. *)
Definition Dir_unbound : Directive.Directive :=
  Directive.set_validationControl None Dir_disabled.

(** The directive of [informative-validator-rules.ts] in the same two
    states: bound to that disabled control, and with no control bound. *)
Definition Rx_disabled : RxDirective.Directive :=
  RxDirective.set_feedback (Some ["You have not provided this item"])
    (Rx_configured [RequiredValidationRule.rule] []
       {| value := VString ""; untouched := false;
          status := "DISABLED"; errors := None |}).

Definition Rx_unbound : RxDirective.Directive :=
  RxDirective.set_formControl None Rx_disabled.

(** The six conditions under which feedback is not displayed, on either
    directive. *)
Definition Rx_suppressed (d : RxDirective.Directive) : Prop :=
  RxDirective.feedback d = None
  ∨ RxDirective.hideFeedback d = true
  ∨ RxDirective.formControl d = None
  ∨ (∃ c, RxDirective.formControl d = Some c ∧ untouched c = true)
  ∨ (∃ c, RxDirective.formControl d = Some c ∧ status c = "DISABLED")
  ∨ RxDirective._valid d = true.

Definition Dir_suppressed (d : Directive.Directive) : Prop :=
  Directive.feedback d = None
  ∨ Directive.hideFeedback d = true
  ∨ Directive.validationControl d = None
  ∨ (∃ c, Directive.validationControl d = Some c ∧ untouched c = true)
  ∨ (∃ c, Directive.validationControl d = Some c ∧ status c = "DISABLED")
  ∨ Directive._valid d = true.

(** ** Notions used by the further properties *)

(** The verdict of a pass, read off the rules, the control and the
    settlement order: what [validate] is compared with. *)
Definition Rx_verdict (order : list nat) (d : RxDirective.Directive)
  : RxDirective.Directive :=
  let control := RxDirective.formControl d in
  if forallb (sync_passes control) (Rx_syncRules d) then
    match Promise_all order (dispatched control (Rx_asyncRules d)) with
    | AllPending => RxDirective.set_feedback (Some []) d
    | AllFulfilled results =>
        RxDirective.set__valid (forallb id results)
          (RxDirective.set_feedback
             (Some (merge_feedback (Rx_asyncRules d) results)) d)
    | AllRejected =>
        RxDirective.set__valid false
          (RxDirective.set_feedback (Some [GENERIC_FAILURE]) d)
    end
  else
    RxDirective.set__valid false
      (RxDirective.set_feedback
         (Some (omap SynchronousValidationRule.getFeedback
                  (filter (sync_fails control) (Rx_syncRules d)))) d).

Definition Dir_verdict (order : list nat) (d : Directive.Directive)
  : Directive.Directive :=
  let control := Directive.validationControl d in
  if forallb (sync_passes control) (Dir_syncRules d) then
    match Promise_all order (dispatched control (Dir_asyncRules d)) with
    | AllPending => Directive.set_feedback (Some []) d
    | AllFulfilled results =>
        Directive.set__valid (forallb id results)
          (Directive.set_feedback
             (Some (merge_descriptions (Dir_asyncRules d) results)) d)
    | AllRejected =>
        Directive.set__valid false
          (Directive.set_feedback (Some [Some GENERIC_FAILURE]) d)
    end
  else
    Directive.set__valid false
      (Directive.set_feedback
         (Some (SynchronousValidationRule.getFeedback <$>
                  filter (sync_fails control) (Dir_syncRules d))) d).

(** A synchronous predicate that throws; an asynchronous rule whose call
    throws before it hands back a promise. *)
Definition sync_throws (control : option AbstractControl)
    (rule : SynchronousValidationRule.t) : Prop :=
  SynchronousValidationRule.isValid rule control = None.

Definition async_throws (control : option AbstractControl)
    (rule : AsynchronousValidationRule.t) : Prop :=
  AsynchronousValidationRule.isValid rule control = None.

(** Rules that throw when asked. *)
Definition throwing_rule : SynchronousValidationRule.t :=
  {| SynchronousValidationRule.getDescription := Some "Checked elsewhere";
     SynchronousValidationRule.getFeedback := Some "Could not be checked";
     SynchronousValidationRule.isValid := λ _, None |}.

Definition throwing_async_rule : AsynchronousValidationRule.t :=
  {| AsynchronousValidationRule.getDescription := Some "Checked remotely";
     AsynchronousValidationRule.getFeedback := Some "Could not be checked";
     AsynchronousValidationRule.isValid := λ _, None |}.

(** [toUpperCase] on the ASCII range. *)
Definition to_upper (a : ascii) : ascii :=
  if in_range "a" "z" a then ascii_of_nat (nat_of_ascii a - 32) else a.

Fixpoint upper (s : string) : string :=
  match s with
  | EmptyString => EmptyString
  | String a s' => String (to_upper a) (upper s')
  end.

(** Every class of the pattern answers the same on a character and on its
    upper-case form. *)
Inductive case_blind : Regex → Prop :=
| CBVoid : case_blind Void
| CBEps : case_blind Eps
| CBClass p : (∀ a, p (to_upper a) = p a) → case_blind (Class p)
| CBCat r1 r2 : case_blind r1 → case_blind r2 → case_blind (Cat r1 r2)
| CBAlt r1 r2 : case_blind r1 → case_blind r2 → case_blind (Alt r1 r2)
| CBStar r : case_blind r → case_blind (Star r).

(** A burst of value changes: each one schedules a revalidation, and the
    next one comes [dt] ms later. *)
Definition burst (changes : list (Callback * N)) : list Action :=
  flat_map (λ change : nat * N, [Schedule change.1; Elapse change.2]) changes.

(** What a pass makes of a value when the rules are the two the library
    ships, the required rule first: the verdict and the feedback, or
    nothing when the pass throws. *)
Definition library_verdict (v : Value) : option (bool * list string) :=
  match v with
  | VNull | VUndefined => Some (false, ["You have not provided this item"])
  | VString s =>
      if bool_decide (s = "") then
        Some (false, ["You have not provided this item"; "This email address is invalid"])
      else if matches EMAIL_PATTERN s then Some (true, [])
      else Some (false, ["This email address is invalid"])
  | VNumber _ | VBoolean _ => None
  end.

(** ** Notions used by the properties of the rendering *)

(** Parent pointers are backed by the child lists. *)
Definition wf_tree (t : list DomNode) : Prop :=
  ∀ n p, parentNode t n = Some p → ∃ dp, t !! p = Some dp ∧ n ∈ children dp.

(** The children of the element [p] are [kids], in this order. *)
Definition siblings (t : list DomNode) (p : Node) (kids : list Node) : Prop :=
  wf_tree t
  ∧ (p ∉ kids)
  ∧ NoDup kids
  ∧ (∀ x, x ∈ kids → parentNode t x = Some p)
  ∧ ∃ dp, t !! p = Some dp ∧ isElement dp = true ∧ children dp = kids.

(** [n] is in the table, outside every tree, and has no child. *)
Definition detached_leaf (t : list DomNode) (n : Node) : Prop :=
  ∃ dn, t !! n = Some dn ∧ parent dn = None ∧ children dn = [].

(** [kids] less the node [old], if there is one. *)
Definition without (old : option Node) (kids : list Node) : list Node :=
  match old with
  | Some f => filter (λ x, x ≠ f) kids
  | None => kids
  end.

(** The markup of a list. *)
Fixpoint items_html (items : list string) : string :=
  match items with
  | [] => ""
  | item :: rest => "<li>" +:+ item +:+ "</li>" +:+ items_html rest
  end.

Definition list_html (items : list string) : string :=
  "<ul>" +:+ items_html items +:+ "</ul>".

(** The machine [m] around another [this]. *)
Definition with_this {D E} (p : E) (m : Machine D) : Machine E :=
  {| this := p; calls := calls m; now := now m; timers := timers m;
     emitted := emitted m |}.

(** A parent element with three children, the input in the middle. *)
Definition sample_tree : list DomNode :=
  [{| isElement := true; parent := None; children := [1; 2; 3] |};
   {| isElement := true; parent := Some 0; children := [] |};
   {| isElement := true; parent := Some 0; children := [] |};
   {| isElement := true; parent := Some 0; children := [] |}].

(** A page around a directive, nothing rendered yet. *)
Definition sample_page {D} (d : D) : Page D :=
  {| directive := d; tree := sample_tree; inputNode := 2;
     descriptionNode := None; feedbackNode := None |}.

(** The same parent once a description element (node 4) and a feedback
    element (node 5) were put after the input. *)
Definition rendered_tree : list DomNode :=
  [{| isElement := true; parent := None; children := [1; 2; 4; 5; 3] |};
   {| isElement := true; parent := Some 0; children := [] |};
   {| isElement := true; parent := Some 0; children := [] |};
   {| isElement := true; parent := Some 0; children := [] |};
   {| isElement := true; parent := Some 0; children := [] |};
   {| isElement := true; parent := Some 0; children := [] |}].

Definition rendered_page {D} (d : D) (feedbackElement : option Node) : Page D :=
  {| directive := d; tree := rendered_tree; inputNode := 2;
     descriptionNode := Some 4; feedbackNode := feedbackElement |}.

(** Directives with descriptions and feedback to show. *)
Definition Rx_informed : RxDirective.Directive :=
  RxDirective.set_feedback (Some ["This name is taken"])
    (RxDirective.set_descriptions (Some ["This field is required"; "Must be unique"])
       (Rx_configured [RequiredValidationRule.rule] [name_is_free]
          (sample_control (VString "ada")))).

Definition Dir_informed : Directive.Directive :=
  Directive.set_feedback (Some [Some "Must be unique"])
    (Directive.set_descriptions (Some [Some "This field is required"; Some "Must be unique"])
       (Dir_configured [RequiredValidationRule.rule] [name_is_free]
          (sample_control (VString "ada")))).

(* ================================================================== *)
(** * [Promise.all] *)
(* ================================================================== *)

Section PromiseAll.

Variable promises : list Settlement.

Lemma empty_slots_replicate n : empty_slots (replicate n None) = n.
Proof.
  unfold empty_slots. induction n as [|n IH]; [done|].
  cbn [replicate]. rewrite filter_cons_True by done. cbn [length]. by rewrite IH.
Qed.

Lemma empty_slots_fill vs k b :
  vs !! k = Some None →
  empty_slots vs = S (empty_slots (<[k := Some b]> vs)).
Proof.
  unfold empty_slots. revert k.
  induction vs as [|v vs IH]; intros [|k] Hk; try done.
  - injection Hk as ->. change (<[0 := Some b]> (None :: vs)) with (Some b :: vs).
    rewrite filter_cons_True by done. by rewrite filter_cons_False by done.
  - change (<[S k := Some b]> (v :: vs)) with (v :: <[k := Some b]> vs).
    change ((v :: vs) !! S k) with (vs !! k) in Hk.
    destruct (decide (v = None)) as [->|Hv].
    + rewrite !filter_cons_True by done. cbn [length]. f_equal. by apply IH.
    + rewrite !filter_cons_False by done. by apply IH.
Qed.

Lemma empty_slots_full vs :
  (∀ k, vs !! k ≠ Some None) → empty_slots vs = 0.
Proof.
  unfold empty_slots. induction vs as [|v vs IH]; intros Hfull; [done|].
  rewrite filter_cons_False.
  - apply IH. intros k. apply (Hfull (S k)).
  - intros ->. by apply (Hfull 0).
Qed.

Lemma empty_slots_zero vs k : empty_slots vs = 0 → vs !! k ≠ Some None.
Proof.
  intros Hz Hk. pose proof (empty_slots_fill vs k true Hk). lia.
Qed.

Lemma all_init_inv : all_inv promises (all_init promises).
Proof.
  split; simpl.
  - by rewrite length_replicate.
  - by rewrite empty_slots_replicate.
  - intros k b Hk. apply lookup_replicate in Hk as [? _]. done.
  - case_decide as Hn; [|lia]. split; [done|]. rewrite Hn. done.
Qed.

Lemma all_settle_inv st k :
  all_inv promises st → all_inv promises (all_settle promises st k).
Proof.
  intros Hinv. unfold all_settle.
  destruct (outcome st) eqn:Hout; try done.
  destruct (promises !! k) as [[b|]|] eqn:Hp; try done.
  - destruct (values st !! k) as [[b'|]|] eqn:Hv; try done.
    pose proof (empty_slots_fill _ _ b Hv) as Hfill.
    destruct Hinv as [Hlen Hcnt Hvals _].
    split; simpl.
    + by rewrite length_insert.
    + rewrite Hcnt, Hfill. done.
    + intros k' b'. destruct (decide (k = k')) as [<-|Hne].
      * rewrite list_lookup_insert_eq by (by eapply lookup_lt_Some). by intros [= <-].
      * rewrite list_lookup_insert_ne by done. apply Hvals.
    + case_decide; [done|lia].
  - destruct Hinv as [Hlen Hcnt Hvals _]. split; simpl; eauto.
Qed.

Lemma all_settle_settled st k :
  outcome st ≠ AllPending → all_settle promises st k = st.
Proof. unfold all_settle. by destruct (outcome st). Qed.

Lemma foldl_all_settle_inv order st :
  all_inv promises st → all_inv promises (foldl (all_settle promises) st order).
Proof.
  revert st. induction order as [|k order IH]; intros st Hinv; simpl; [done|].
  by apply IH, all_settle_inv.
Qed.

Lemma foldl_all_settle_settled order st :
  outcome st ≠ AllPending → foldl (all_settle promises) st order = st.
Proof.
  induction order as [|k order IH]; intros Hst; simpl; [done|].
  rewrite all_settle_settled by done. by apply IH.
Qed.

Lemma all_settle_seen st k :
  all_inv promises st → k < length promises → seen k (all_settle promises st k).
Proof.
  intros Hinv Hk. unfold seen, all_settle.
  destruct (outcome st) eqn:Hout; try (left; congruence).
  destruct (lookup_lt_is_Some_2 promises k Hk) as [p Hp]. rewrite Hp.
  destruct p as [b|]; simpl; [|by left].
  assert (k < length (values st)) as Hkv by (by rewrite (inv_length _ Hinv)).
  destruct (lookup_lt_is_Some_2 _ k Hkv) as [v Hv]. rewrite Hv.
  destruct v as [b'|]; simpl.
  - right. eauto.
  - right. exists b. by rewrite list_lookup_insert_eq.
Qed.

Lemma all_settle_seen_mono st k j : seen k st → seen k (all_settle promises st j).
Proof.
  intros [Hs|[b Hb]].
  - rewrite all_settle_settled by done. by left.
  - unfold all_settle. destruct (outcome st) eqn:Hout; try (right; eauto; fail).
    destruct (promises !! j) as [[c|]|]; try (right; eauto; fail).
    destruct (values st !! j) as [[c'|]|] eqn:Hv; try (right; eauto; fail).
    right. exists b. simpl. rewrite list_lookup_insert_ne; [done|]. congruence.
Qed.

Lemma foldl_all_settle_seen_mono order st k :
  seen k st → seen k (foldl (all_settle promises) st order).
Proof.
  revert st. induction order as [|j order IH]; intros st Hs; simpl; [done|].
  by apply IH, all_settle_seen_mono.
Qed.

Lemma foldl_all_settle_seen order st k :
  all_inv promises st → k < length promises → k ∈ order →
  seen k (foldl (all_settle promises) st order).
Proof.
  revert st. induction order as [|j order IH]; intros st Hinv Hk Hin; simpl.
  - by apply elem_of_nil in Hin.
  - apply elem_of_cons in Hin as [<-|Hin].
    + by apply foldl_all_settle_seen_mono, all_settle_seen.
    + apply IH; [by apply all_settle_inv|done|done].
Qed.

(** When every promise fulfils and every one of them settles, the combined
    promise fulfils with the values in the order of the promises, whatever
    the order of the settlements. *)
Lemma Promise_all_fulfilled order bs :
  promises = Fulfilled <$> bs →
  (∀ k, k < length promises → k ∈ order) →
  Promise_all order promises = AllFulfilled bs.
Proof.
  intros Hps Hall. unfold Promise_all.
  pose proof (foldl_all_settle_inv order _ all_init_inv) as Hinv.
  set (st := foldl _ _ _) in *.
  assert (∀ k, k < length promises → ∃ b, values st !! k = Some (Some b)) as Hfilled.
  { intros k Hk.
    destruct (lookup_lt_is_Some_2 (values st) k) as [v Hv];
      [by rewrite (inv_length _ Hinv)|].
    destruct v as [b|]; [eauto|]. exfalso.
    destruct (foldl_all_settle_seen order _ k all_init_inv Hk (Hall k Hk)) as [Hs|[b Hb]].
    - fold st in Hs. pose proof (inv_outcome _ Hinv) as Ho.
      destruct (outcome st) as [|rs|]; [done| |].
      + destruct Ho as [Hz _]. rewrite (inv_count _ Hinv) in Hz.
        by apply (empty_slots_zero _ k) in Hz.
      + destruct Ho as [j Hj]. rewrite Hps, list_lookup_fmap in Hj.
        destruct (bs !! j); simplify_eq/=.
    - fold st in Hb. congruence. }
  assert (truthy <$> values st = bs) as Hvals.
  { apply list_eq. intros k. rewrite list_lookup_fmap.
    destruct (decide (k < length promises)) as [Hk|Hk].
    - destruct (Hfilled k Hk) as [b Hb]. rewrite Hb. simpl.
      apply (inv_values _ Hinv) in Hb. rewrite Hps, list_lookup_fmap in Hb.
      destruct (bs !! k); simplify_eq/=. done.
    - rewrite (lookup_ge_None_2 (values st)) by (rewrite (inv_length _ Hinv); lia).
      rewrite lookup_ge_None_2; [done|]. rewrite Hps, length_fmap in Hk. lia. }
  pose proof (inv_outcome _ Hinv) as Ho.
  destruct (outcome st) as [|rs|] eqn:Hout.
  - exfalso. rewrite (inv_count _ Hinv), empty_slots_full in Ho; [lia|].
    intros k Hk. destruct (Hfilled k) as [b Hb]; [|congruence].
    rewrite <- (inv_length _ Hinv). by eapply lookup_lt_Some.
  - destruct Ho as [_ ->]. by rewrite Hvals.
  - destruct Ho as [j Hj]. rewrite Hps, list_lookup_fmap in Hj.
    destruct (bs !! j); simplify_eq/=.
Qed.

(** When a promise that rejects settles, the combined promise rejects. *)
Lemma Promise_all_rejected order k :
  k ∈ order → promises !! k = Some Rejected →
  Promise_all order promises = AllRejected.
Proof.
  intros Hin Hrej. unfold Promise_all.
  pose proof (foldl_all_settle_inv order _ all_init_inv) as Hinv.
  assert (outcome (foldl (all_settle promises) (all_init promises) order) ≠ AllPending) as Hset.
  { generalize (all_init promises). clear Hinv.
    induction order as [|j order IH]; intros st; simpl.
    - by apply elem_of_nil in Hin.
    - apply elem_of_cons in Hin as [<-|Hin]; [|by apply IH].
      assert (outcome (all_settle promises st k) ≠ AllPending) as Hk.
      { unfold all_settle. destruct (outcome st) eqn:Hout; try congruence.
        rewrite Hrej. simpl. done. }
      by rewrite foldl_all_settle_settled. }
  set (st := foldl _ _ _) in *.
  pose proof (inv_outcome _ Hinv) as Ho.
  destruct (outcome st) as [|rs|]; [done| |done].
  exfalso. destruct Ho as [Hz _]. rewrite (inv_count _ Hinv) in Hz.
  destruct (lookup_lt_is_Some_2 (values st) k) as [v Hv].
  { rewrite (inv_length _ Hinv). by eapply lookup_lt_Some. }
  destruct v as [b|].
  - apply (inv_values _ Hinv) in Hv. congruence.
  - by apply (empty_slots_zero _ k) in Hz.
Qed.

(** A fulfilled combination has one result per promise. *)
Lemma Promise_all_fulfilled_length order results :
  Promise_all order promises = AllFulfilled results →
  length results = length promises.
Proof.
  unfold Promise_all. intros Hout.
  pose proof (foldl_all_settle_inv order _ all_init_inv) as Hinv.
  pose proof (inv_outcome _ Hinv) as Ho. rewrite Hout in Ho.
  destruct Ho as [_ ->]. rewrite length_fmap. apply (inv_length _ Hinv).
Qed.

End PromiseAll.

(* ================================================================== *)
(** * The synchronous stage *)
(* ================================================================== *)

Lemma sync_passes_eq control rule b :
  SynchronousValidationRule.isValid rule control = Some b →
  sync_passes control rule = b.
Proof.
  intros H. unfold sync_passes. rewrite H.
  destruct b; [by rewrite bool_decide_eq_true_2|by rewrite bool_decide_eq_false_2].
Qed.

Ltac run := unfold bind, ret, gets, modify, lift, log, throw, try_catch; simpl.

Lemma Rx_sync_stage rules : ∀ valid (m : Machine RxDirective.Directive) fb,
  RxDirective.feedback (this m) = Some fb →
  Forall (sync_returns (RxDirective.formControl (this m))) rules →
  for_of rules valid RxDirective.validate_sync m =
    ({| this := RxDirective.set_feedback
                  (Some (fb ++ omap SynchronousValidationRule.getFeedback
                                 (filter (sync_fails (RxDirective.formControl (this m))) rules)))
                  (this m);
        calls := calls m ++
                 ((λ r, SyncIsValid r (RxDirective.formControl (this m))) <$> rules);
        now := now m; timers := timers m; emitted := emitted m |},
     Some (valid && forallb (sync_passes (RxDirective.formControl (this m))) rules)).
Proof.
  induction rules as [|r rules IH]; intros valid [d cs nw tms em] fb Hfb Hret.
  - simpl in *. destruct d; simpl in *; subst.
    unfold ret. rewrite !app_nil_r, andb_true_r. done.
  - apply Forall_cons in Hret as [[b Hb] Hret]. simpl in *.
    unfold RxDirective.validate_sync, call_sync, RxDirective.push_feedback. run.
    rewrite Hb. simpl.
    destruct b; simpl.
    + rewrite (IH _ _ fb) by done. cbn [this calls now timers emitted].
      rewrite filter_cons_False by (unfold sync_fails; congruence).
      cbn [forallb fmap list_fmap]. rewrite (sync_passes_eq _ _ _ Hb).
      by rewrite <- app_assoc.
    + rewrite filter_cons_True by done.
      cbn [forallb fmap list_fmap omap list_omap]. rewrite (sync_passes_eq _ _ _ Hb).
      rewrite andb_false_r.
      destruct (SynchronousValidationRule.getFeedback r) as [item|]; simpl.
      * rewrite Hfb. simpl. rewrite (IH _ _ (fb ++ [item])) by (destruct d; done).
        simpl. destruct d; simpl. by rewrite <- !app_assoc.
      * rewrite (IH _ _ fb) by done. simpl. by rewrite <- app_assoc.
Qed.

(* ================================================================== *)
(** * The asynchronous stage *)
(* ================================================================== *)

Lemma Rx_dispatch_stage rules : ∀ promises (m : Machine RxDirective.Directive),
  Forall (async_returns (RxDirective.formControl (this m))) rules →
  for_of rules promises RxDirective.validate_dispatch m =
    ({| this := this m;
        calls := calls m ++
                 ((λ r, AsyncIsValid r (RxDirective.formControl (this m))) <$> rules);
        now := now m; timers := timers m; emitted := emitted m |},
     Some (promises ++ dispatched (RxDirective.formControl (this m)) rules)).
Proof.
  induction rules as [|r rules IH]; intros promises [d cs nw tms em] Hret.
  - simpl. unfold ret. by rewrite !app_nil_r.
  - apply Forall_cons in Hret as [[p Hp] Hret]. simpl in *.
    unfold RxDirective.validate_dispatch, call_async. run.
    rewrite Hp. simpl. rewrite IH by done. cbn [this calls now timers emitted].
    unfold dispatched. by rewrite <- !app_assoc.
Qed.

Lemma Rx_merge_loop rules results n : ∀ i valid (m : Machine RxDirective.Directive) fb,
  i + n = length results →
  length results = length rules →
  RxDirective.feedback (this m) = Some fb →
  for_of (seq i n) valid (RxDirective.validate_merge rules results) m =
    ({| this := RxDirective.set_feedback
                  (Some (fb ++ merge_feedback (drop i rules) (drop i results)))
                  (this m);
        calls := calls m; now := now m; timers := timers m; emitted := emitted m |},
     Some (valid && forallb id (drop i results))).
Proof.
  induction n as [|n IH]; intros i valid [d cs nw tms em] fb Hi Hlen Hfb.
  - simpl in *. rewrite !drop_ge by lia. unfold merge_feedback. simpl.
    unfold ret. rewrite app_nil_r, andb_true_r. destruct d; simpl in *; by subst.
  - cbn [seq for_of]. simpl in Hfb.
    destruct (lookup_lt_is_Some_2 results i) as [b Hb]; [lia|].
    destruct (lookup_lt_is_Some_2 rules i) as [r Hr]; [lia|].
    rewrite (drop_S _ _ _ Hb), (drop_S _ _ _ Hr).
    unfold RxDirective.validate_merge at 1, RxDirective.push_feedback. run.
    rewrite Hb. simpl. unfold merge_feedback. cbn [zip zip_with omap list_omap fst snd forallb].
    fold (merge_feedback (drop (S i) rules) (drop (S i) results)).
    destruct b; simpl.
    + rewrite (IH _ _ _ fb) by (simpl; done || lia). done.
    + rewrite Hr. simpl. rewrite andb_false_r.
      destruct (AsynchronousValidationRule.getFeedback r) as [item|]; simpl.
      * rewrite Hfb. simpl. rewrite (IH _ _ _ (fb ++ [item])) by (destruct d; simpl; done || lia).
        simpl. destruct d; simpl. by rewrite <- !app_assoc.
      * rewrite (IH _ _ _ fb) by (simpl; done || lia). done.
Qed.

Lemma Rx_then_stage rules results valid (m : Machine RxDirective.Directive) fb :
  length results = length rules →
  RxDirective.feedback (this m) = Some fb →
  RxDirective.validate_then rules valid results m =
    ({| this := RxDirective.set__valid (valid && forallb id results)
                  (RxDirective.set_feedback
                     (Some (fb ++ merge_feedback rules results)) (this m));
        calls := calls m; now := now m; timers := timers m; emitted := emitted m |},
     Some tt).
Proof.
  intros Hlen Hfb. unfold RxDirective.validate_then, for_in, bind.
  rewrite (Rx_merge_loop rules results _ 0 valid m fb) by done.
  rewrite !drop_0. done.
Qed.

(** Reading the results off the rules. *)
Lemma dispatched_fulfilled control rules :
  Forall (async_fulfils control) rules →
  ∃ bs, dispatched control rules = Fulfilled <$> bs
        ∧ length bs = length rules
        ∧ merge_feedback rules bs
          = omap AsynchronousValidationRule.getFeedback (filter (async_fails control) rules)
        ∧ merge_descriptions rules bs
          = AsynchronousValidationRule.getDescription <$> filter (async_fails control) rules
        ∧ forallb id bs = forallb (async_passes control) rules.
Proof.
  induction 1 as [|r rules [b Hb] _ (bs & Hd & Hlen & Hfb & Hds & Hand)].
  - by exists [].
  - exists (b :: bs). unfold dispatched, merge_feedback, merge_descriptions in *.
    cbn [omap list_omap zip zip_with fst snd forallb fmap list_fmap length].
    rewrite Hb, Hd, Hlen, Hfb, Hds, Hand. simpl.
    unfold async_passes at 2. rewrite Hb.
    destruct b.
    + rewrite filter_cons_False by (unfold async_fails; congruence).
      rewrite bool_decide_eq_true_2 by done. done.
    + rewrite filter_cons_True by done.
      rewrite bool_decide_eq_false_2 by congruence. done.
Qed.

(* ================================================================== *)
(** * Aggregation *)
(* ================================================================== *)

Lemma Rx_getSyncRules_eq (m : Machine RxDirective.Directive) :
  RxDirective.getSyncRules m = (m, Some (Rx_syncRules (this m))).
Proof.
  unfold RxDirective.getSyncRules, Rx_syncRules, rules_of_set. run.
  by destruct (RxDirective.syncRuleSet (this m)), (RxDirective.syncRules (this m)).
Qed.

Lemma Rx_getAsyncRules_eq (m : Machine RxDirective.Directive) :
  RxDirective.getAsyncRules m = (m, Some (Rx_asyncRules (this m))).
Proof.
  unfold RxDirective.getAsyncRules, Rx_asyncRules, async_rules_of_set. run.
  by destruct (RxDirective.asyncRuleSet (this m)), (RxDirective.asyncRules (this m)).
Qed.

Lemma Dir_getSyncRules_eq (m : Machine Directive.Directive) :
  Directive.getSyncRules m = (m, Some (Dir_syncRules (this m))).
Proof.
  unfold Directive.getSyncRules, Dir_syncRules, rules_of_set. run.
  by destruct (Directive.syncRuleSet (this m)), (Directive.syncRules (this m)).
Qed.

Lemma Dir_getAsyncRules_eq (m : Machine Directive.Directive) :
  Directive.getAsyncRules m = (m, Some (Dir_asyncRules (this m))).
Proof.
  unfold Directive.getAsyncRules, Dir_asyncRules, async_rules_of_set. run.
  by destruct (Directive.asyncRuleSet (this m)), (Directive.asyncRules (this m)).
Qed.

Lemma forallb_sync_passes_fails control rules :
  Exists (sync_fails control) rules → forallb (sync_passes control) rules = false.
Proof.
  induction 1 as [r rules Hr|r rules _ IH]; simpl.
  - by rewrite (sync_passes_eq _ _ _ Hr).
  - by rewrite IH, andb_false_r.
Qed.

Lemma forallb_sync_passes_true control rules :
  forallb (sync_passes control) rules = true →
  Forall (λ r, SynchronousValidationRule.isValid r control = Some true) rules.
Proof.
  induction rules as [|r rules IH]; simpl; [done|].
  intros [Hr Hrs]%andb_prop. constructor; [|by apply IH].
  by apply bool_decide_eq_true in Hr.
Qed.

Lemma forallb_sync_passes_false control rules :
  Forall (sync_returns control) rules →
  forallb (sync_passes control) rules = false →
  Exists (sync_fails control) rules.
Proof.
  induction 1 as [|r rules [b Hb] _ IH]; simpl; [done|].
  rewrite (sync_passes_eq _ _ _ Hb). destruct b; simpl.
  - intros Hrs. apply Exists_cons_tl. by apply IH.
  - intros _. by apply Exists_cons_hd.
Qed.

Lemma forallb_sync_passes_all control rules :
  Forall (λ r, SynchronousValidationRule.isValid r control = Some true) rules →
  forallb (sync_passes control) rules = true
  ∧ filter (sync_fails control) rules = []
  ∧ Forall (sync_returns control) rules.
Proof.
  induction 1 as [|r rules Hr _ (IH1 & IH2 & IH3)]; [done|].
  simpl. rewrite (sync_passes_eq _ _ _ Hr), IH1.
  rewrite filter_cons_False by (unfold sync_fails; congruence).
  split_and!; [done..|]. constructor; [|done]. unfold sync_returns. by rewrite Hr.
Qed.

(* ================================================================== *)
(** * Whole passes of [RxDirective.validate] *)
(* ================================================================== *)

(** A pass in which a synchronous rule fails. *)
Lemma Rx_validate_sync_failure order (m : Machine RxDirective.Directive) :
  let d := this m in
  let control := RxDirective.formControl d in
  Forall (sync_returns control) (Rx_syncRules d) →
  Exists (sync_fails control) (Rx_syncRules d) →
  RxDirective.validate order m =
    ({| this := RxDirective.set__valid false
                  (RxDirective.set_feedback
                     (Some (omap SynchronousValidationRule.getFeedback
                              (filter (sync_fails control) (Rx_syncRules d)))) d);
        calls := calls m ++ ((λ r, SyncIsValid r control) <$> Rx_syncRules d);
        now := now m; timers := timers m; emitted := emitted m |},
     Some tt).
Proof.
  intros d control Hret Hfail. unfold RxDirective.validate.
  unfold bind at 1. rewrite Rx_getSyncRules_eq.
  unfold bind at 1. rewrite Rx_getAsyncRules_eq.
  unfold bind at 1, modify at 1. cbn [fst snd].
  unfold bind at 1.
  rewrite (Rx_sync_stage _ _ _ []) by done.
  cbn [this calls now timers emitted RxDirective.formControl RxDirective.set_feedback].
  fold d control.
  rewrite (forallb_sync_passes_fails _ _ Hfail). cbn [andb negb app].
  unfold modify. cbn [this calls now timers emitted].
  subst d control. destruct m as [[] ? ? ? ?]; done.
Qed.


Lemma dispatched_length control rules :
  Forall (async_returns control) rules →
  length (dispatched control rules) = length rules.
Proof.
  unfold dispatched. induction 1 as [|r rules [p Hp] _ IH]; [done|].
  cbn [omap list_omap]. rewrite Hp. simpl. by rewrite IH.
Qed.

Lemma async_fulfils_returns control rules :
  Forall (async_fulfils control) rules → Forall (async_returns control) rules.
Proof.
  intros H. eapply Forall_impl; [exact H|].
  intros r [b Hb]. unfold async_returns. by rewrite Hb.
Qed.

(** The state a pass reaches once the synchronous rules have all passed and
    the asynchronous ones were dispatched. *)
Lemma Rx_validate_dispatched order (m : Machine RxDirective.Directive) :
  let d := this m in
  let control := RxDirective.formControl d in
  Forall (λ r, SynchronousValidationRule.isValid r control = Some true) (Rx_syncRules d) →
  Forall (async_returns control) (Rx_asyncRules d) →
  RxDirective.validate order m =
    (match Promise_all order (dispatched control (Rx_asyncRules d)) with
     | AllPending => ret tt
     | AllFulfilled results =>
         try_catch (RxDirective.validate_then (Rx_asyncRules d) true results)
                   RxDirective.validate_catch
     | AllRejected => RxDirective.validate_catch
     end)
      {| this := RxDirective.set_feedback (Some []) d;
         calls := calls m ++ ((λ r, SyncIsValid r control) <$> Rx_syncRules d)
                          ++ ((λ r, AsyncIsValid r control) <$> Rx_asyncRules d);
         now := now m; timers := timers m; emitted := emitted m |}.
Proof.
  intros d control Hsync Hasync.
  destruct (forallb_sync_passes_all _ _ Hsync) as (Hall & Hnil & Hret).
  unfold RxDirective.validate.
  unfold bind at 1. rewrite Rx_getSyncRules_eq.
  unfold bind at 1. rewrite Rx_getAsyncRules_eq.
  unfold bind at 1, modify at 1. cbn [fst snd].
  unfold bind at 1.
  rewrite (Rx_sync_stage _ _ _ []) by done.
  cbn [this calls now timers emitted RxDirective.formControl RxDirective.set_feedback].
  fold d control. rewrite Hall, Hnil. cbn [andb negb app omap list_omap].
  unfold bind at 1. rewrite Rx_dispatch_stage by done.
  cbn [this calls now timers emitted RxDirective.formControl RxDirective.set_feedback app].
  fold d control. rewrite <- app_assoc.
  subst d control. destruct m as [[] ? ? ? ?]; done.
Qed.


(** A pass in which every asynchronous rule settles with a result. *)
Lemma Rx_validate_settled order (m : Machine RxDirective.Directive) :
  let d := this m in
  let control := RxDirective.formControl d in
  Forall (λ r, SynchronousValidationRule.isValid r control = Some true) (Rx_syncRules d) →
  Forall (async_fulfils control) (Rx_asyncRules d) →
  (∀ k, k < length (Rx_asyncRules d) → k ∈ order) →
  RxDirective.validate order m =
    ({| this := RxDirective.set__valid
                  (forallb (sync_passes control) (Rx_syncRules d)
                   && forallb (async_passes control) (Rx_asyncRules d))
                  (RxDirective.set_feedback
                     (Some (omap AsynchronousValidationRule.getFeedback
                              (filter (async_fails control) (Rx_asyncRules d)))) d);
        calls := calls m ++ ((λ r, SyncIsValid r control) <$> Rx_syncRules d)
                         ++ ((λ r, AsyncIsValid r control) <$> Rx_asyncRules d);
        now := now m; timers := timers m; emitted := emitted m |},
     Some tt).
Proof.
  intros d control Hsync Hasync Horder.
  pose proof (async_fulfils_returns _ _ Hasync) as Hret.
  rewrite Rx_validate_dispatched by done. fold d control.
  destruct (dispatched_fulfilled _ _ Hasync) as (bs & Hd & Hlen & Hfb & _ & Hand).
  rewrite (Promise_all_fulfilled _ order bs Hd)
    by (intros k; rewrite dispatched_length by done; apply Horder).
  unfold try_catch. rewrite (Rx_then_stage _ _ _ _ []) by done.
  cbn [this calls now timers emitted app andb]. rewrite Hfb, Hand.
  destruct (forallb_sync_passes_all _ _ Hsync) as (-> & _ & _). cbn [andb].
  subst d control. destruct m as [[] ? ? ? ?]; done.
Qed.

(* ================================================================== *)
(** * Whole passes of [Directive.validate] *)
(* ================================================================== *)

Lemma Dir_sync_stage rules : ∀ valid (m : Machine Directive.Directive) fb,
  Directive.feedback (this m) = Some fb →
  Forall (sync_returns (Directive.validationControl (this m))) rules →
  for_of rules valid Directive.validate_sync m =
    ({| this := Directive.set_feedback
                  (Some (fb ++ (SynchronousValidationRule.getFeedback <$>
                                 filter (sync_fails (Directive.validationControl (this m))) rules)))
                  (this m);
        calls := calls m ++ double_calls (Directive.validationControl (this m)) valid rules;
        now := now m; timers := timers m; emitted := emitted m |},
     Some (valid && forallb (sync_passes (Directive.validationControl (this m))) rules)).
Proof.
  induction rules as [|r rules IH]; intros valid [d cs nw tms em] fb Hfb Hret.
  - simpl in *. destruct d; simpl in *; subst.
    unfold ret. rewrite !app_nil_r, andb_true_r. done.
  - apply Forall_cons in Hret as [[b Hb] Hret]. simpl in Hfb, Hb, Hret.
    cbn [for_of this calls now timers emitted double_calls forallb].
    rewrite (sync_passes_eq _ _ _ Hb).
    unfold Directive.validate_sync, call_sync, Directive.push_feedback. run.
    rewrite Hb. simpl.
    destruct b; simpl.
    + rewrite filter_cons_False by (unfold sync_fails; congruence).
      destruct valid; simpl; rewrite ?Hb; simpl.
      * rewrite (IH _ _ fb) by done. cbn [this calls now timers emitted].
        by rewrite <- !app_assoc.
      * rewrite (IH _ _ fb) by done. cbn [this calls now timers emitted].
        by rewrite <- !app_assoc.
    + rewrite filter_cons_True by done. rewrite Hfb. simpl.
      rewrite andb_false_r.
      destruct valid; simpl; rewrite ?Hb; simpl.
      * rewrite (IH _ _ (fb ++ [SynchronousValidationRule.getFeedback r]))
          by (destruct d; done).
        simpl. destruct d; simpl. by rewrite <- !app_assoc.
      * rewrite (IH _ _ (fb ++ [SynchronousValidationRule.getFeedback r]))
          by (destruct d; done).
        simpl. destruct d; simpl. by rewrite <- !app_assoc.
Qed.

Lemma double_calls_sync control rules : ∀ valid,
  Forall is_sync_call (double_calls control valid rules).
Proof.
  induction rules as [|r rules IH]; intros valid; simpl; [done|].
  constructor; [done|]. apply Forall_app. split; [|done].
  destruct valid; repeat constructor.
Qed.

Lemma Dir_dispatch_stage rules : ∀ promises (m : Machine Directive.Directive),
  Forall (async_returns (Directive.validationControl (this m))) rules →
  for_of rules promises Directive.validate_dispatch m =
    ({| this := this m;
        calls := calls m ++
                 ((λ r, AsyncIsValid r (Directive.validationControl (this m))) <$> rules);
        now := now m; timers := timers m; emitted := emitted m |},
     Some (promises ++ dispatched (Directive.validationControl (this m)) rules)).
Proof.
  induction rules as [|r rules IH]; intros promises [d cs nw tms em] Hret.
  - simpl. unfold ret. by rewrite !app_nil_r.
  - apply Forall_cons in Hret as [[p Hp] Hret]. simpl in *.
    unfold Directive.validate_dispatch, call_async. run.
    rewrite Hp. simpl. rewrite IH by done. cbn [this calls now timers emitted].
    unfold dispatched. by rewrite <- !app_assoc.
Qed.

Lemma Dir_merge_loop rules results n : ∀ i valid (m : Machine Directive.Directive) fb,
  i + n = length results →
  length results = length rules →
  Directive.feedback (this m) = Some fb →
  for_of (seq i n) valid (Directive.validate_merge rules results) m =
    ({| this := Directive.set_feedback
                  (Some (fb ++ merge_descriptions (drop i rules) (drop i results)))
                  (this m);
        calls := calls m; now := now m; timers := timers m; emitted := emitted m |},
     Some (valid && forallb id (drop i results))).
Proof.
  induction n as [|n IH]; intros i valid [d cs nw tms em] fb Hi Hlen Hfb.
  - simpl in *. rewrite !drop_ge by lia. unfold merge_descriptions. simpl.
    unfold ret. rewrite app_nil_r, andb_true_r. destruct d; simpl in *; by subst.
  - cbn [seq for_of]. simpl in Hfb.
    destruct (lookup_lt_is_Some_2 results i) as [b Hb]; [lia|].
    destruct (lookup_lt_is_Some_2 rules i) as [r Hr]; [lia|].
    rewrite (drop_S _ _ _ Hb), (drop_S _ _ _ Hr).
    unfold Directive.validate_merge at 1, Directive.push_feedback. run.
    rewrite Hb. simpl. unfold merge_descriptions.
    cbn [zip zip_with omap list_omap fst snd forallb].
    fold (merge_descriptions (drop (S i) rules) (drop (S i) results)).
    destruct b; simpl.
    + rewrite (IH _ _ _ fb) by (simpl; done || lia). by destruct valid.
    + rewrite Hr. simpl. rewrite Hfb. simpl.
      rewrite (IH _ _ _ (fb ++ [AsynchronousValidationRule.getDescription r]))
        by (destruct d; simpl; done || lia).
      simpl. destruct d; simpl. rewrite <- !app_assoc. by destruct valid.
Qed.

Lemma Dir_then_stage rules results valid (m : Machine Directive.Directive) fb :
  length results = length rules →
  Directive.feedback (this m) = Some fb →
  Directive.validate_then rules valid results m =
    ({| this := Directive.set__valid (valid && forallb id results)
                  (Directive.set_feedback
                     (Some (fb ++ merge_descriptions rules results)) (this m));
        calls := calls m; now := now m; timers := timers m; emitted := emitted m |},
     Some tt).
Proof.
  intros Hlen Hfb. unfold Directive.validate_then, for_in, bind.
  rewrite (Dir_merge_loop rules results _ 0 valid m fb) by done.
  rewrite !drop_0. done.
Qed.

(** A pass in which a synchronous rule fails. *)
Lemma Dir_validate_sync_failure order (m : Machine Directive.Directive) :
  let d := this m in
  let control := Directive.validationControl d in
  Forall (sync_returns control) (Dir_syncRules d) →
  Exists (sync_fails control) (Dir_syncRules d) →
  Directive.validate order m =
    ({| this := Directive.set__valid false
                  (Directive.set_feedback
                     (Some (SynchronousValidationRule.getFeedback <$>
                              filter (sync_fails control) (Dir_syncRules d))) d);
        calls := calls m ++ double_calls control true (Dir_syncRules d);
        now := now m; timers := timers m; emitted := emitted m |},
     Some tt).
Proof.
  intros d control Hret Hfail. unfold Directive.validate.
  unfold bind at 1. rewrite Dir_getSyncRules_eq.
  unfold bind at 1. rewrite Dir_getAsyncRules_eq.
  unfold bind at 1, modify at 1. cbn [fst snd].
  unfold bind at 1.
  rewrite (Dir_sync_stage _ _ _ []) by done.
  cbn [this calls now timers emitted Directive.validationControl Directive.set_feedback].
  fold d control.
  rewrite (forallb_sync_passes_fails _ _ Hfail). cbn [andb negb app].
  unfold modify. cbn [this calls now timers emitted].
  subst d control. destruct m as [[] ? ? ? ?]; done.
Qed.

(** The state a pass reaches once the synchronous rules have all passed and
    the asynchronous ones were dispatched. *)
Lemma Dir_validate_dispatched order (m : Machine Directive.Directive) :
  let d := this m in
  let control := Directive.validationControl d in
  Forall (λ r, SynchronousValidationRule.isValid r control = Some true) (Dir_syncRules d) →
  Forall (async_returns control) (Dir_asyncRules d) →
  Directive.validate order m =
    (match Promise_all order (dispatched control (Dir_asyncRules d)) with
     | AllPending => ret tt
     | AllFulfilled results =>
         try_catch (Directive.validate_then (Dir_asyncRules d) true results)
                   Directive.validate_catch
     | AllRejected => Directive.validate_catch
     end)
      {| this := Directive.set_feedback (Some []) d;
         calls := calls m ++ double_calls control true (Dir_syncRules d)
                          ++ ((λ r, AsyncIsValid r control) <$> Dir_asyncRules d);
         now := now m; timers := timers m; emitted := emitted m |}.
Proof.
  intros d control Hsync Hasync.
  destruct (forallb_sync_passes_all _ _ Hsync) as (Hall & Hnil & Hret).
  unfold Directive.validate.
  unfold bind at 1. rewrite Dir_getSyncRules_eq.
  unfold bind at 1. rewrite Dir_getAsyncRules_eq.
  unfold bind at 1, modify at 1. cbn [fst snd].
  unfold bind at 1.
  rewrite (Dir_sync_stage _ _ _ []) by done.
  cbn [this calls now timers emitted Directive.validationControl Directive.set_feedback].
  fold d control. rewrite Hall, Hnil. cbn [andb negb app fmap list_fmap].
  unfold bind at 1. rewrite Dir_dispatch_stage by done.
  cbn [this calls now timers emitted Directive.validationControl Directive.set_feedback app].
  fold d control. rewrite <- app_assoc.
  subst d control. destruct m as [[] ? ? ? ?]; done.
Qed.


(** A pass in which every asynchronous rule settles with a result: the
    directive pushes the descriptions of the failing rules. *)
Lemma Dir_validate_settled order (m : Machine Directive.Directive) :
  let d := this m in
  let control := Directive.validationControl d in
  Forall (λ r, SynchronousValidationRule.isValid r control = Some true) (Dir_syncRules d) →
  Forall (async_fulfils control) (Dir_asyncRules d) →
  (∀ k, k < length (Dir_asyncRules d) → k ∈ order) →
  Directive.validate order m =
    ({| this := Directive.set__valid
                  (forallb (sync_passes control) (Dir_syncRules d)
                   && forallb (async_passes control) (Dir_asyncRules d))
                  (Directive.set_feedback
                     (Some (AsynchronousValidationRule.getDescription <$>
                              filter (async_fails control) (Dir_asyncRules d))) d);
        calls := calls m ++ double_calls control true (Dir_syncRules d)
                         ++ ((λ r, AsyncIsValid r control) <$> Dir_asyncRules d);
        now := now m; timers := timers m; emitted := emitted m |},
     Some tt).
Proof.
  intros d control Hsync Hasync Horder.
  pose proof (async_fulfils_returns _ _ Hasync) as Hret.
  rewrite Dir_validate_dispatched by done. fold d control.
  destruct (dispatched_fulfilled _ _ Hasync) as (bs & Hd & Hlen & _ & Hds & Hand).
  rewrite (Promise_all_fulfilled _ order bs Hd)
    by (intros k; rewrite dispatched_length by done; apply Horder).
  unfold try_catch. rewrite (Dir_then_stage _ _ _ _ []) by done.
  cbn [this calls now timers emitted app andb]. rewrite Hds, Hand.
  destruct (forallb_sync_passes_all _ _ Hsync) as (-> & _ & _). cbn [andb].
  subst d control. destruct m as [[] ? ? ? ?]; done.
Qed.

(* ================================================================== *)
(** * What a computation leaves alone *)
(* ================================================================== *)

Section Frame.

Context {D : Type} (F : D → D → Prop).
Hypothesis F_refl : ∀ d, F d d.
Hypothesis F_trans : ∀ d1 d2 d3, F d1 d2 → F d2 d3 → F d1 d3.

Lemma machine_frame_refl (m : Machine D) : machine_frame F m m.
Proof using F_refl. by split_and!. Qed.

Lemma machine_frame_trans (m1 m2 m3 : Machine D) :
  machine_frame F m1 m2 → machine_frame F m2 m3 → machine_frame F m1 m3.
Proof using F_trans.
  intros (? & ? & ? & ?) (? & ? & ? & ?). split_and!; [by eapply F_trans|congruence..].
Qed.

Lemma preserves_ret {A} (a : A) : preserves F (ret a).
Proof using F_refl. intros m. apply machine_frame_refl. Qed.

Lemma preserves_lift {A} (c : Completion A) : preserves F (lift c).
Proof using F_refl. intros m. apply machine_frame_refl. Qed.

Lemma preserves_gets {A} (f : D → A) : preserves F (gets f).
Proof using F_refl. intros m. apply machine_frame_refl. Qed.

Lemma preserves_log (c : Call) : preserves F (log c).
Proof using F_refl. intros m. by split_and!. Qed.

Lemma preserves_modify (f : D → D) : (∀ d, F d (f d)) → preserves F (modify f).
Proof. intros Hf m. by split_and!. Qed.

Lemma preserves_bind {A B} (c : M D A) (f : A → M D B) :
  preserves F c → (∀ a, preserves F (f a)) → preserves F (bind c f).
Proof using F_refl F_trans.
  intros Hc Hf m. unfold bind. specialize (Hc m).
  destruct (c m) as [m' [a|]]; simpl in *; [|done].
  eapply machine_frame_trans; [done|apply Hf].
Qed.

Lemma preserves_try_catch {A} (c h : M D A) :
  preserves F c → preserves F h → preserves F (try_catch c h).
Proof using F_refl F_trans.
  intros Hc Hh m. unfold try_catch. specialize (Hc m).
  destruct (c m) as [m' [a|]]; simpl in *; [done|].
  eapply machine_frame_trans; [done|apply Hh].
Qed.

Lemma preserves_for_of {A S} (xs : list A) (body : A → S → M D S) :
  (∀ x s, preserves F (body x s)) → ∀ s, preserves F (for_of xs s body).
Proof using F_refl F_trans.
  intros Hbody. induction xs as [|x xs IH]; intros s; simpl.
  - apply preserves_ret.
  - apply preserves_bind; [apply Hbody|apply IH].
Qed.

Lemma preserves_call_sync rule control : preserves F (call_sync rule control).
Proof using F_refl F_trans.
  apply preserves_bind; [apply preserves_log|intros _; apply preserves_lift].
Qed.

Lemma preserves_call_async rule control : preserves F (call_async rule control).
Proof using F_refl F_trans.
  apply preserves_bind; [apply preserves_log|intros _; apply preserves_lift].
Qed.

End Frame.

Lemma Rx_frame_refl d : Rx_frame d d.
Proof. by repeat split. Qed.

Lemma Rx_frame_trans d1 d2 d3 : Rx_frame d1 d2 → Rx_frame d2 d3 → Rx_frame d1 d3.
Proof. unfold Rx_frame. intros H1 H2. destruct_and!. split_and!; congruence. Qed.

Lemma Dir_frame_refl d : Dir_frame d d.
Proof. by repeat split. Qed.

Lemma Dir_frame_trans d1 d2 d3 : Dir_frame d1 d2 → Dir_frame d2 d3 → Dir_frame d1 d3.
Proof. unfold Dir_frame. intros H1 H2. destruct_and!. split_and!; congruence. Qed.

Ltac frame_auto refl trans :=
  repeat (first
    [ apply (preserves_ret _ refl)
    | apply (preserves_lift _ refl)
    | apply (preserves_gets _ refl)
    | apply (preserves_log _ refl)
    | apply (preserves_call_sync _ refl trans)
    | apply (preserves_call_async _ refl trans)
    | apply preserves_modify; intros []; by repeat split
    | apply (preserves_bind _ refl trans); [|intros ?]
    | apply (preserves_try_catch _ refl trans)
    | apply (preserves_for_of _ refl trans); intros ? ?
    | match goal with
      | |- preserves _ (match ?x with _ => _ end) => destruct x
      end ]).

Lemma Rx_validate_preserves order : preserves Rx_frame (RxDirective.validate order).
Proof.
  unfold RxDirective.validate, RxDirective.getSyncRules, RxDirective.getAsyncRules,
    RxDirective.validate_sync, RxDirective.validate_dispatch,
    RxDirective.validate_then, RxDirective.validate_catch, for_in,
    RxDirective.validate_merge, RxDirective.push_feedback.
  frame_auto Rx_frame_refl Rx_frame_trans.
Qed.

Lemma Dir_validate_preserves order : preserves Dir_frame (Directive.validate order).
Proof.
  unfold Directive.validate, Directive.getSyncRules, Directive.getAsyncRules,
    Directive.validate_sync, Directive.validate_dispatch,
    Directive.validate_then, Directive.validate_catch, for_in,
    Directive.validate_merge, Directive.push_feedback.
  frame_auto Dir_frame_refl Dir_frame_trans.
Qed.

(* ================================================================== *)
(** * Debouncing *)
(* ================================================================== *)

Lemma is_pending_close tm : is_pending (close tm) = false.
Proof. unfold close, is_pending. by destruct (state tm) eqn:H; simpl; rewrite ?H. Qed.

Lemma close_not_pending tm : is_pending tm = false → close tm = tm.
Proof. unfold close, is_pending. by destruct (state tm). Qed.

Lemma is_due_pending t tm : is_due t tm = true → is_pending tm = true.
Proof. unfold is_due. by intros [? _]%andb_prop. Qed.

Lemma is_pending_state tm : is_pending tm = true ↔ state tm = Pending.
Proof. unfold is_pending. by destruct (state tm). Qed.

Lemma fire_timers t tms : ∀ i h,
  (fire t i tms).1 !! h = (λ tm, if is_due t tm then emit tm else tm) <$> (tms !! h).
Proof.
  induction tms as [|tm tms IH]; intros i h; simpl; [done|].
  specialize (IH (S i)). destruct (fire t (S i) tms) as [rest out]. simpl in IH.
  destruct h as [|h]; destruct (is_due t tm) eqn:Hdue; simpl;
    rewrite ?Hdue; try done; apply IH.
Qed.

Lemma fire_out t tms : ∀ i h cb,
  (h, cb) ∈ (fire t i tms).2 ↔
  ∃ j tm, h = i + j ∧ tms !! j = Some tm ∧ is_due t tm = true ∧ next tm = cb.
Proof.
  induction tms as [|tm tms IH]; intros i h cb; simpl.
  - split; [by intros ?%elem_of_nil|]. by intros (j & tm & _ & ? & _).
  - specialize (IH (S i) h cb). destruct (fire t (S i) tms) as [rest out]. simpl in IH.
    destruct (is_due t tm) eqn:Hdue; simpl.
    + rewrite elem_of_cons, IH. split.
      * intros [[= -> ->]|(j & tm' & -> & Hj & Hd & Hcb)].
        -- exists 0, tm. split_and!; [lia|done..].
        -- exists (S j), tm'. split_and!; [lia|done..].
      * intros ([|j] & tm' & -> & Hj & Hd & Hcb); simpl in Hj.
        -- left. simplify_eq. f_equal. lia.
        -- right. exists j, tm'. split_and!; [lia|done..].
    + rewrite IH. split.
      * intros (j & tm' & -> & Hj & Hd & Hcb).
        exists (S j), tm'. split_and!; [lia|done..].
      * intros ([|j] & tm' & -> & Hj & Hd & Hcb); simpl in Hj.
        -- simplify_eq. congruence.
        -- exists j, tm'. split_and!; [lia|done..].
Qed.

Lemma fire_out_nodup t tms : ∀ i, NoDup (fire t i tms).2.*1.
Proof.
  induction tms as [|tm tms IH]; intros i; simpl; [constructor|].
  pose proof (fire_out t tms (S i)) as Hout. specialize (IH (S i)).
  destruct (fire t (S i) tms) as [rest out]. simpl in *.
  destruct (is_due t tm); simpl; [|done].
  constructor; [|done].
  intros ([h cb] & Hh & Hin)%list_elem_of_fmap. simpl in Hh. subst h.
  apply Hout in Hin as (j & _ & Hj & _). lia.
Qed.

Lemma waitForInputFinish_eq callback (m : Machine RxDirective.Directive) :
  RxDirective.waitForInputFinish callback m =
    ({| this := RxDirective.set__typingTimer (Some (length (timers m))) (this m);
        calls := calls m; now := now m;
        timers := unsubscribed_table m ++
                  [{| due := (now m + RxDirective._validationDelay (this m))%N;
                      next := callback; state := Pending |}];
        emitted := emitted m |},
     Some tt).
Proof.
  unfold RxDirective.waitForInputFinish, RxDirective.getValidationDelay,
    unsubscribed_table, unsubscribe, timer_subscribe. run.
  destruct (RxDirective._typingTimer (this m)); simpl; [|done].
  by rewrite length_alter.
Qed.

Lemma unsubscribeTypingTimer_eq (m : Machine RxDirective.Directive) :
  RxDirective.unsubscribeTypingTimer m =
    ({| this := this m; calls := calls m; now := now m;
        timers := unsubscribed_table m; emitted := emitted m |},
     Some tt).
Proof.
  unfold RxDirective.unsubscribeTypingTimer, unsubscribed_table, unsubscribe. run.
  destruct (RxDirective._typingTimer (this m)); simpl; [done|]. by destruct m.
Qed.

Lemma unsubscribed_table_length m : length (unsubscribed_table m) = length (timers m).
Proof.
  unfold unsubscribed_table. destruct (RxDirective._typingTimer (this m)); [|done].
  apply length_alter.
Qed.

(** Under the invariant nothing is outstanding in the table once
    [_typingTimer] is unsubscribed, and the timers that were not outstanding
    are as they were. *)
Lemma unsubscribed_table_lookup m h tm :
  timer_inv m →
  unsubscribed_table m !! h = Some tm →
  is_pending tm = false
  ∧ ∃ tm0, timers m !! h = Some tm0 ∧ due tm = due tm0 ∧ next tm = next tm0
           ∧ (is_pending tm0 = false → tm = tm0)
           ∧ (is_pending tm0 = true → state tm = Unsubscribed).
Proof.
  intros Hinv. unfold unsubscribed_table.
  destruct (RxDirective._typingTimer (this m)) as [sub|] eqn:Hsub.
  - destruct (decide (sub = h)) as [->|Hne].
    + rewrite list_lookup_alter_eq. destruct (timers m !! h) as [tm0|] eqn:Hh; [|done].
      intros [= <-]. split; [apply is_pending_close|].
      exists tm0. split; [done|]. unfold close, is_pending.
      destruct (state tm0) eqn:Hst; simpl; by rewrite ?Hst.
    + rewrite list_lookup_alter_ne by done. intros Hh.
      destruct (is_pending tm) eqn:Hp.
      * exfalso. pose proof (inv_pending _ Hinv h (ex_intro _ tm (conj Hh Hp))). congruence.
      * split; [done|]. exists tm. by rewrite Hp.
  - intros Hh. destruct (is_pending tm) eqn:Hp.
    + exfalso. pose proof (inv_pending _ Hinv h (ex_intro _ tm (conj Hh Hp))). congruence.
    + split; [done|]. exists tm. by rewrite Hp.
Qed.

Lemma unsubscribed_table_emitted m h tm :
  timers m !! h = Some tm → state tm = Emitted → unsubscribed_table m !! h = Some tm.
Proof.
  intros Hh Hst. unfold unsubscribed_table.
  destruct (RxDirective._typingTimer (this m)) as [sub|]; [|done].
  destruct (decide (sub = h)) as [->|Hne].
  - rewrite list_lookup_alter_eq, Hh. simpl. f_equal. apply close_not_pending.
    unfold is_pending. by rewrite Hst.
  - by rewrite list_lookup_alter_ne.
Qed.

Lemma boot_timer_inv d : RxDirective._typingTimer d = None → timer_inv (boot d).
Proof.
  intros Hd. split; simpl.
  - by intros h (tm & ? & _).
  - by intros h cb ?%elem_of_nil.
  - constructor.
Qed.

Lemma step_timer_inv a m : timer_inv m → timer_inv (step a m).
Proof.
  intros Hinv. destruct a as [callback| |dt|order]; simpl.
  - rewrite waitForInputFinish_eq. unfold outstanding.
    split; cbn [this timers emitted fst RxDirective._typingTimer RxDirective.set__typingTimer].
    + intros h (tm & Hh & Hp). f_equal. cbn [timers] in Hh.
      destruct (decide (h < length (unsubscribed_table m))) as [Hlt|Hge].
      * rewrite lookup_app_l in Hh by done.
        apply (unsubscribed_table_lookup _ _ _ Hinv) in Hh as [Hnp _]. congruence.
      * apply lookup_lt_Some in Hh. rewrite length_app in Hh. simpl in Hh.
        rewrite unsubscribed_table_length in *. lia.
    + intros h cb Hin. destruct (inv_emitted _ Hinv h cb Hin) as (tm & Hh & Hst & Hcb).
      exists tm. split_and!; [|done..].
      apply lookup_app_l_Some. by apply unsubscribed_table_emitted.
    + apply (inv_nodup _ Hinv).
  - rewrite unsubscribeTypingTimer_eq. unfold outstanding.
    split; cbn [this timers emitted fst].
    + intros h (tm & Hh & Hp). cbn [timers] in Hh.
      apply (unsubscribed_table_lookup _ _ _ Hinv) in Hh as [Hnp _]. congruence.
    + intros h cb Hin. destruct (inv_emitted _ Hinv h cb Hin) as (tm & Hh & Hst & Hcb).
      exists tm. split_and!; [|done..]. by apply unsubscribed_table_emitted.
    + apply (inv_nodup _ Hinv).
  - unfold elapse.
    pose proof (fire_timers (now m + dt) (timers m) 0) as Htm.
    pose proof (fire_out (now m + dt) (timers m) 0) as Hout.
    pose proof (fire_out_nodup (now m + dt) (timers m) 0) as Hnd.
    destruct (fire (now m + dt) 0 (timers m)) as [tms out]. simpl in *.
    split; simpl.
    + intros h (tm & Hh & Hp). rewrite Htm in Hh.
      apply fmap_Some in Hh as (tm0 & Hh0 & ->).
      apply (inv_pending _ Hinv). exists tm0. split; [done|].
      destruct (is_due (now m + dt) tm0) eqn:Hd; [by apply is_due_pending in Hd|done].
    + intros h cb [Hin|Hin]%elem_of_app.
      * destruct (inv_emitted _ Hinv h cb Hin) as (tm & Hh & Hst & Hcb).
        exists tm. split_and!; [|done..]. rewrite Htm, Hh. simpl.
        destruct (is_due (now m + dt) tm) eqn:Hd; [|done].
        apply is_due_pending, is_pending_state in Hd. congruence.
      * apply Hout in Hin as (j & tm & -> & Hj & Hd & Hcb). simpl.
        exists (emit tm). rewrite Htm, Hj. simpl. by rewrite Hd.
    + rewrite fmap_app. apply NoDup_app. split_and!; [apply (inv_nodup _ Hinv)| |done].
      intros h ([h1 cb1] & -> & Hin1)%list_elem_of_fmap ([h2 cb2] & Heq & Hin2)%list_elem_of_fmap.
      simpl in *. subst h2.
      destruct (inv_emitted _ Hinv _ _ Hin1) as (tm & Hh & Hst & _).
      apply Hout in Hin2 as (j & tm' & -> & Hj & Hd & _). simpl in Hh.
      simplify_eq. apply is_due_pending, is_pending_state in Hd. congruence.
  - pose proof (Rx_validate_preserves order m) as (HF & _ & Htm & Hem).
    destruct (RxDirective.validate order m) as [m' r]. simpl in *.
    destruct HF as (_ & _ & _ & _ & Htt & _).
    split.
    + intros h (tm & Hh & Hp). rewrite Htt. apply (inv_pending _ Hinv).
      exists tm. by rewrite <- Htm.
    + intros h cb Hin. rewrite Hem in Hin. rewrite Htm. by apply (inv_emitted _ Hinv).
    + rewrite Hem. apply (inv_nodup _ Hinv).
Qed.

Lemma run_actions_timer_inv acts : ∀ m, timer_inv m → timer_inv (run_actions acts m).
Proof.
  induction acts as [|a acts IH]; intros m Hinv; simpl; [done|].
  by apply IH, step_timer_inv.
Qed.

(** An unsubscribed timer stays unsubscribed. *)
Lemma step_cancelled a m h : timer_inv m → cancelled m h → cancelled (step a m) h.
Proof.
  intros Hinv (tm & Hh & Hst). unfold cancelled.
  assert (is_pending tm = false) as Hnp by (unfold is_pending; by rewrite Hst).
  assert (unsubscribed_table m !! h = Some tm) as Hun.
  { unfold unsubscribed_table.
    destruct (RxDirective._typingTimer (this m)) as [sub|]; [|done].
    destruct (decide (sub = h)) as [->|Hne].
    - rewrite list_lookup_alter_eq, Hh. simpl. f_equal. by apply close_not_pending.
    - by rewrite list_lookup_alter_ne. }
  destruct a as [callback| |dt|order]; simpl.
  - rewrite waitForInputFinish_eq. cbn [fst timers].
    exists tm. split; [|done]. by apply lookup_app_l_Some.
  - rewrite unsubscribeTypingTimer_eq. cbn [fst timers]. eauto.
  - unfold elapse. pose proof (fire_timers (now m + dt) (timers m) 0 h) as Htm.
    destruct (fire (now m + dt) 0 (timers m)) as [tms out]. simpl in *.
    exists tm. split; [|done]. rewrite Htm, Hh. simpl.
    unfold is_due. by rewrite Hnp.
  - pose proof (Rx_validate_preserves order m) as (_ & _ & Htm & _).
    rewrite Htm. eauto.
Qed.

Lemma run_actions_cancelled acts : ∀ m h,
  timer_inv m → cancelled m h → cancelled (run_actions acts m) h.
Proof.
  induction acts as [|a acts IH]; intros m h Hinv Hc; simpl; [done|].
  apply IH; [by apply step_timer_inv|by apply step_cancelled].
Qed.

Lemma times_fired_le_1 m h : timer_inv m → (times_fired m h ≤ 1)%nat.
Proof.
  intros Hinv. unfold times_fired. pose proof (inv_nodup _ Hinv) as Hnd.
  induction (emitted m) as [|[h' cb] es IH]; [simpl; lia|].
  rewrite fmap_cons in Hnd. apply NoDup_cons in Hnd as [Hnotin Hnd].
  destruct (decide (h' = h)) as [->|Hne].
  - rewrite filter_cons_True by done.
    destruct (filter (λ e : nat * nat, e.1 = h) es) as [|[h2 cb2] es'] eqn:Hf;
      [simpl; lia|].
    exfalso. assert ((h2, cb2) ∈ filter (λ e : nat * nat, e.1 = h) es) as Hin
      by (rewrite Hf; left).
    apply list_elem_of_filter in Hin as [Heq Hin]. simpl in Heq. subst h2.
    apply Hnotin. apply list_elem_of_fmap. by exists (h, cb2).
  - rewrite filter_cons_False by done. by apply IH.
Qed.

Lemma times_fired_pos m h cb : (h, cb) ∈ emitted m → 0 < times_fired m h.
Proof.
  intros Hin. unfold times_fired.
  assert ((h, cb) ∈ filter (λ e : nat * nat, e.1 = h) (emitted m)) as Hf
    by (by apply list_elem_of_filter).
  destruct (filter _ _); [by apply elem_of_nil in Hf|simpl; lia].
Qed.

Lemma times_fired_zero m h : (∀ cb, (h, cb) ∉ emitted m) → times_fired m h = 0.
Proof.
  intros Hnot. unfold times_fired.
  destruct (filter _ _) as [|[h' cb] es] eqn:Hf; [done|].
  assert ((h', cb) ∈ filter (λ e : nat * nat, e.1 = h) (emitted m)) as Hin
    by (rewrite Hf; left).
  apply list_elem_of_filter in Hin as [Heq Hin]. simpl in Heq. subst h'.
  by apply Hnot in Hin.
Qed.

Lemma step_delay a m :
  RxDirective._validationDelay (this (step a m)) = RxDirective._validationDelay (this m).
Proof.
  destruct a as [callback| |dt|order]; simpl.
  - by rewrite waitForInputFinish_eq.
  - by rewrite unsubscribeTypingTimer_eq.
  - unfold elapse. by destruct (fire _ _ _).
  - by pose proof (Rx_validate_preserves order m) as ((_ & _ & _ & _ & _ & H & _) & _).
Qed.

Lemma run_actions_delay acts : ∀ m,
  RxDirective._validationDelay (this (run_actions acts m))
  = RxDirective._validationDelay (this m).
Proof.
  induction acts as [|a acts IH]; intros m; simpl; [done|].
  by rewrite IH, step_delay.
Qed.

Lemma cancelled_not_fired m h : timer_inv m → cancelled m h → times_fired m h = 0.
Proof.
  intros Hinv (tm & Hh & Hst). apply times_fired_zero. intros cb Hin.
  destruct (inv_emitted _ Hinv _ _ Hin) as (tm' & Hh' & Hst' & _).
  simplify_eq. congruence.
Qed.

Lemma outstanding_not_fired m h : timer_inv m → outstanding m h → times_fired m h = 0.
Proof.
  intros Hinv (tm & Hh & Hp). apply times_fired_zero. intros cb Hin.
  destruct (inv_emitted _ Hinv _ _ Hin) as (tm' & Hh' & Hst' & _).
  simplify_eq. apply is_pending_state in Hp. congruence.
Qed.

Lemma schedule_cancels m callback h :
  timer_inv m → outstanding m h → cancelled (step (Schedule callback) m) h.
Proof.
  intros Hinv (tm0 & Hh & Hp). unfold cancelled. simpl.
  rewrite waitForInputFinish_eq. cbn [fst timers].
  destruct (lookup_lt_is_Some_2 (unsubscribed_table m) h) as [tm Htm].
  { rewrite unsubscribed_table_length. by eapply lookup_lt_Some. }
  exists tm. split; [by apply lookup_app_l_Some|].
  apply (unsubscribed_table_lookup _ _ _ Hinv) in Htm as (_ & tm0' & Hh' & _ & _ & _ & Hst).
  simplify_eq. by apply Hst.
Qed.

Lemma cancel_cancels m h :
  timer_inv m → outstanding m h → cancelled (step Cancel m) h.
Proof.
  intros Hinv (tm0 & Hh & Hp). unfold cancelled. simpl.
  rewrite unsubscribeTypingTimer_eq. cbn [fst timers].
  destruct (lookup_lt_is_Some_2 (unsubscribed_table m) h) as [tm Htm].
  { rewrite unsubscribed_table_length. by eapply lookup_lt_Some. }
  exists tm. split; [done|].
  apply (unsubscribed_table_lookup _ _ _ Hinv) in Htm as (_ & tm0' & Hh' & _ & _ & _ & Hst).
  simplify_eq. by apply Hst.
Qed.

Lemma cancel_nothing m : (∀ h, ¬ outstanding m h) → step Cancel m = m.
Proof.
  intros Hnone. simpl. rewrite unsubscribeTypingTimer_eq. cbn [fst].
  assert (unsubscribed_table m = timers m) as ->; [|by destruct m].
  unfold unsubscribed_table.
  destruct (RxDirective._typingTimer (this m)) as [sub|]; [|done].
  apply list_eq. intros j. destruct (decide (sub = j)) as [->|Hne].
  - rewrite list_lookup_alter_eq. destruct (timers m !! j) as [tm|] eqn:Hj; [|done].
    simpl. f_equal. apply close_not_pending.
    destruct (is_pending tm) eqn:Hp; [|done].
    exfalso. apply (Hnone j). by exists tm.
  - by rewrite list_lookup_alter_ne.
Qed.

Lemma schedule_outstanding m callback h :
  timer_inv m →
  outstanding (step (Schedule callback) m) h ↔ h = length (timers m).
Proof.
  intros Hinv. split.
  - intros Hout.
    pose proof (inv_pending _ (step_timer_inv (Schedule callback) m Hinv) h Hout) as Ht.
    simpl in Ht. rewrite waitForInputFinish_eq in Ht. simpl in Ht. congruence.
  - intros ->. unfold outstanding. simpl. rewrite waitForInputFinish_eq. cbn [fst timers].
    exists {| due := (now m + RxDirective._validationDelay (this m))%N;
              next := callback; state := Pending |}.
    split; [|done].
    rewrite lookup_app_r by (rewrite unsubscribed_table_length; lia).
    rewrite unsubscribed_table_length, Nat.sub_diag. done.
Qed.

Lemma elapse_due m h tm dt :
  timer_inv m → timers m !! h = Some tm → is_pending tm = true →
  (due tm ≤ now m + dt)%N →
  (h, next tm) ∈ emitted (step (Elapse dt) m)
  ∧ times_fired (step (Elapse dt) m) h = 1.
Proof.
  intros Hinv Hh Hp Hdue.
  assert ((h, next tm) ∈ emitted (step (Elapse dt) m)) as Hin.
  { simpl. unfold elapse. pose proof (fire_out (now m + dt) (timers m) 0 h (next tm)) as Hout.
    destruct (fire (now m + dt) 0 (timers m)) as [tms out]. simpl in *.
    apply elem_of_app. right. apply Hout. exists h, tm. split_and!; [done..| |done].
    unfold is_due. rewrite Hp. simpl. by apply N.leb_le. }
  split; [done|].
  pose proof (times_fired_le_1 _ h (step_timer_inv (Elapse dt) m Hinv)).
  pose proof (times_fired_pos _ _ _ Hin). lia.
Qed.

Lemma elapse_early m h tm dt :
  timer_inv m → timers m !! h = Some tm → is_pending tm = true →
  (now m + dt < due tm)%N →
  outstanding (step (Elapse dt) m) h
  ∧ times_fired (step (Elapse dt) m) h = 0.
Proof.
  intros Hinv Hh Hp Hdue.
  assert (outstanding (step (Elapse dt) m) h) as Hout.
  { unfold outstanding. simpl. unfold elapse.
    pose proof (fire_timers (now m + dt) (timers m) 0 h) as Htm.
    destruct (fire (now m + dt) 0 (timers m)) as [tms out]. simpl in *.
    exists tm. split; [|done]. rewrite Htm, Hh. simpl.
    unfold is_due. rewrite Hp. simpl.
    by destruct (N.leb_spec (due tm) (now m + dt)); [lia|]. }
  split; [done|].
  apply outstanding_not_fired; [by apply step_timer_inv|done].
Qed.

Lemma timer_inv_contract d m :
  timer_inv m →
  RxDirective._validationDelay (this m) = RxDirective._validationDelay d →
  debounce_contract d m.
Proof.
  intros Hinv Hdelay. unfold debounce_contract. split_and!.
  - intros h1 h2 H1%(inv_pending _ Hinv) H2%(inv_pending _ Hinv). congruence.
  - intros callback. split_and!.
    + intros h. by apply schedule_cancels.
    + intros h. by apply schedule_outstanding.
    + simpl. rewrite waitForInputFinish_eq. cbn [fst timers].
      rewrite lookup_app_r by (rewrite unsubscribed_table_length; lia).
      rewrite unsubscribed_table_length, Nat.sub_diag, Hdelay. done.
    + simpl. by rewrite waitForInputFinish_eq.
  - intros h tm dt Hh Hp. split_and!.
    + apply outstanding_not_fired; [done|]. by exists tm.
    + by apply elapse_early.
    + by apply elapse_due.
  - intros h. by apply times_fired_le_1.
  - intros h. by apply cancel_cancels.
  - apply cancel_nothing.
  - intros h Hc acts. apply cancelled_not_fired.
    + by apply run_actions_timer_inv.
    + by apply run_actions_cancelled.
  - done.
  - done.
Qed.

(* ================================================================== *)
(** * The e-mail pattern *)
(* ================================================================== *)

Lemma append_nil_l s : "" +:+ s = s.
Proof. reflexivity. Qed.

Lemma append_cons a s1 s2 : String a s1 +:+ s2 = String a (s1 +:+ s2).
Proof. reflexivity. Qed.

Lemma append_nil_inv s1 s2 : s1 +:+ s2 = "" → s1 = "" ∧ s2 = "".
Proof. destruct s1; simpl; [done|discriminate]. Qed.

Lemma append_cons_inv s1 s2 a s :
  s1 +:+ s2 = String a s →
  (s1 = "" ∧ s2 = String a s) ∨ (∃ s1', s1 = String a s1' ∧ s = s1' +:+ s2).
Proof.
  destruct s1 as [|b s1]; simpl; [by left|].
  intros [= -> <-]. right. eauto.
Qed.

Lemma nullable_Matches r : nullable r = true ↔ Matches r "".
Proof.
  split.
  - induction r as [| |p|r1 IH1 r2 IH2|r1 IH1 r2 IH2|r IH]; simpl; try done.
    + intros _. constructor.
    + intros [H1 H2]%andb_prop. apply (MCat r1 r2 "" ""); auto.
    + intros [H1|H2]%orb_prop; [apply MAltL|apply MAltR]; auto.
    + intros _. constructor.
  - intros H. remember "" as s eqn:Hs.
    induction H as [|p a Hp|r1 r2 s1 s2 _ IH1 _ IH2|r1 r2 s _ IH|r1 r2 s _ IH
                    |r|r s1 s2 _ _ _ _]; simpl; try done.
    + apply append_nil_inv in Hs as [-> ->]. by rewrite IH1, IH2.
    + by rewrite IH.
    + rewrite IH by done. by rewrite orb_true_r.
Qed.

Lemma deriv_Matches a r : ∀ s, Matches (deriv a r) s ↔ Matches r (String a s).
Proof.
  intros s. split.
  - revert s.
    induction r as [| |p|r1 IH1 r2 IH2|r1 IH1 r2 IH2|r IH]; intros s; simpl.
    + inversion 1.
    + inversion 1.
    + destruct (p a) eqn:Hp; inversion 1; subst. by constructor.
    + destruct (nullable r1) eqn:Hn.
      * inversion 1 as [| | | ? ? ? H1 | ? ? ? H2 | |]; subst.
        -- inversion H1; subst. apply (MCat r1 r2 (String a _) _); auto.
        -- apply (MCat r1 r2 "" (String a s)); [by apply nullable_Matches|auto].
      * inversion 1; subst. apply (MCat r1 r2 (String a _) _); auto.
    + inversion 1; subst; [apply MAltL|apply MAltR]; auto.
    + inversion 1; subst. apply (MStarCons r (String a _) _); auto.
  - intros H. remember (String a s) as s' eqn:Hs. revert s Hs.
    induction H as [|p b Hp|r1 r2 s1 s2 H1 IH1 H2 IH2|r1 r2 s0 _ IH|r1 r2 s0 _ IH
                    |r|r s1 s2 H1 IH1 H2 IH2]; intros s Hs; simpl; try done.
    + injection Hs as -> <-. rewrite Hp. constructor.
    + apply append_cons_inv in Hs as [[-> ->]|(s1' & -> & ->)].
      * apply nullable_Matches in H1. rewrite H1. apply MAltR. by apply IH2.
      * destruct (nullable r1).
        -- apply MAltL. constructor; [by apply IH1|done].
        -- constructor; [by apply IH1|done].
    + apply MAltL. by apply IH.
    + apply MAltR. by apply IH.
    + apply append_cons_inv in Hs as [[-> ->]|(s1' & -> & ->)].
      * by apply IH2.
      * constructor; [by apply IH1|done].
Qed.

(** The matcher decides the language of the pattern. *)
Lemma matches_Matches s : ∀ r, matches r s = true ↔ Matches r s.
Proof.
  induction s as [|a s IH]; intros r; simpl.
  - apply nullable_Matches.
  - rewrite IH. apply deriv_Matches.
Qed.

Lemma Matches_Cat_inv r1 r2 s :
  Matches (Cat r1 r2) s ↔ ∃ s1 s2, s = s1 +:+ s2 ∧ Matches r1 s1 ∧ Matches r2 s2.
Proof.
  split.
  - inversion 1; subst. eauto.
  - intros (s1 & s2 & -> & H1 & H2). by constructor.
Qed.

Lemma Matches_Class_inv p s :
  Matches (Class p) s ↔ ∃ a, s = String a "" ∧ p a = true.
Proof.
  split.
  - inversion 1; subst. eauto.
  - intros (a & -> & Hp). by constructor.
Qed.

Lemma Matches_char c s : Matches (Class (is_char c)) s ↔ s = String c "".
Proof.
  rewrite Matches_Class_inv. unfold is_char. split.
  - intros (a & -> & Ha). by apply bool_decide_eq_true in Ha as ->.
  - intros ->. exists c. by rewrite bool_decide_eq_true_2.
Qed.

Lemma Matches_Star_Class p s :
  Matches (Star (Class p)) s ↔ string_forall p s = true.
Proof.
  split.
  - intros H. remember (Star (Class p)) as r eqn:Hr.
    induction H as [| | | | |r|r s1 s2 H1 _ H2 IH2]; try done.
    injection Hr as ->. inversion H1 as [|? a Ha| | | | |]; subst.
    rewrite append_cons, append_nil_l. simpl.
    rewrite IH2 by done. by rewrite Ha.
  - induction s as [|a s IH]; simpl; [constructor|].
    intros [Ha Hs]%andb_prop.
    apply (MStarCons (Class p) (String a "") s); [by constructor|auto].
Qed.

Lemma Matches_Plus_Class p s :
  Matches (Plus (Class p)) s ↔ s ≠ "" ∧ string_forall p s = true.
Proof.
  unfold Plus. rewrite Matches_Cat_inv. split.
  - intros (s1 & s2 & -> & (a & -> & Ha)%Matches_Class_inv & H2%Matches_Star_Class).
    rewrite append_cons, append_nil_l. simpl. by rewrite Ha, H2.
  - intros [Hne Hs]. destruct s as [|a s]; [done|]. simpl in Hs.
    apply andb_prop in Hs as [Ha Hs].
    exists (String a ""), s. split_and!; [done|by constructor|by apply Matches_Star_Class].
Qed.

Lemma Matches_AtLeast2_Class p s :
  Matches (AtLeast 2 (Class p)) s ↔ (2 ≤ String.length s)%nat ∧ string_forall p s = true.
Proof.
  simpl. rewrite Matches_Cat_inv. split.
  - intros (s1 & s2 & -> & (a & -> & Ha)%Matches_Class_inv
            & (s3 & s4 & -> & (b & -> & Hb)%Matches_Class_inv
               & H4%Matches_Star_Class)%Matches_Cat_inv).
    rewrite !append_cons, !append_nil_l. simpl. rewrite Ha, Hb, H4. split; [lia|done].
  - intros [Hlen Hs]. destruct s as [|a [|b s]]; simpl in Hlen; try lia.
    simpl in Hs. apply andb_prop in Hs as [Ha [Hb Hs]%andb_prop].
    exists (String a ""), (String b s). split_and!; [done|by constructor|].
    apply Matches_Cat_inv. exists (String b ""), s.
    split_and!; [done|by constructor|by apply Matches_Star_Class].
Qed.

(** The pattern of the rule is the shape read off by hand. *)
Lemma matches_EMAIL_PATTERN s : matches EMAIL_PATTERN s = true ↔ email_shape s.
Proof.
  rewrite matches_Matches. unfold EMAIL_PATTERN, email_shape.
  rewrite Matches_Cat_inv. split.
  - intros (local & s1 & -> & [Hl1 Hl2]%Matches_Plus_Class
            & (at_ & s2 & -> & ->%Matches_char
               & (domain & s3 & -> & [Hd1 Hd2]%Matches_Plus_Class
                  & (dot & tld & -> & ->%Matches_char
                     & [Ht1 Ht2]%Matches_AtLeast2_Class)%Matches_Cat_inv
                 )%Matches_Cat_inv)%Matches_Cat_inv).
    exists local, domain, tld. split_and!; done.
  - intros (local & domain & tld & -> & Hl1 & Hl2 & Hd1 & Hd2 & Ht1 & Ht2).
    exists local, ("@" +:+ domain +:+ "." +:+ tld).
    split_and!; [done|by apply Matches_Plus_Class|].
    apply Matches_Cat_inv. exists "@", (domain +:+ "." +:+ tld).
    split_and!; [done|by apply Matches_char|].
    apply Matches_Cat_inv. exists domain, ("." +:+ tld).
    split_and!; [done|by apply Matches_Plus_Class|].
    apply Matches_Cat_inv. exists ".", tld.
    split_and!; [done|by apply Matches_char|by apply Matches_AtLeast2_Class].
Qed.

(* ================================================================== *)
(** * The specification, statement by statement *)
(* ================================================================== *)

(** C1.  When every synchronous predicate returns, as a function of the
    control, and one of them answers false, the pass ends with
    [_valid = false] and with
    exactly the feedback collected from the failing synchronous rules;
    the only predicates invoked are synchronous ones, whatever the
    asynchronous rules and the settlement order are.  Both directives. *)
Theorem sync_failure_short_circuits :
  (∀ order (m : Machine RxDirective.Directive),
     let d := this m in
     let control := RxDirective.formControl d in
     Forall (sync_returns control) (Rx_syncRules d) →
     Exists (sync_fails control) (Rx_syncRules d) →
     ∃ m', RxDirective.validate order m = (m', Some tt)
       ∧ RxDirective._valid (this m') = false
       ∧ RxDirective.feedback (this m')
         = Some (omap SynchronousValidationRule.getFeedback
                   (filter (sync_fails control) (Rx_syncRules d)))
       ∧ ∃ cs, calls m' = calls m ++ cs ∧ Forall is_sync_call cs)
  ∧ (∀ order (m : Machine Directive.Directive),
     let d := this m in
     let control := Directive.validationControl d in
     Forall (sync_returns control) (Dir_syncRules d) →
     Exists (sync_fails control) (Dir_syncRules d) →
     ∃ m', Directive.validate order m = (m', Some tt)
       ∧ Directive._valid (this m') = false
       ∧ Directive.feedback (this m')
         = Some (SynchronousValidationRule.getFeedback <$>
                   filter (sync_fails control) (Dir_syncRules d))
       ∧ ∃ cs, calls m' = calls m ++ cs ∧ Forall is_sync_call cs).
Proof.
  split; intros order m d control Hret Hfail.
  - eexists. split; [by apply Rx_validate_sync_failure|]. cbn [this calls].
    split_and!; [done..|].
    eexists. split; [done|]. apply Forall_fmap, Forall_forall. by intros.
  - eexists. split; [by apply Dir_validate_sync_failure|]. cbn [this calls].
    split_and!; [done..|].
    eexists. split; [done|]. apply double_calls_sync.
Qed.

Lemma sync_failure_short_circuits_witness :
  (let m := boot (Rx_configured [RequiredValidationRule.rule] [name_is_free]
                    (sample_control (VString ""))) in
   let control := RxDirective.formControl (this m) in
   Forall (sync_returns control) (Rx_syncRules (this m))
   ∧ Exists (sync_fails control) (Rx_syncRules (this m))
   ∧ ∃ m', RxDirective.validate [0] m = (m', Some tt)
       ∧ RxDirective._valid (this m') = false
       ∧ RxDirective.feedback (this m') = Some ["You have not provided this item"]
       ∧ ∃ cs, calls m' = calls m ++ cs ∧ Forall is_sync_call cs)
  ∧ (let m := boot (Dir_configured [RequiredValidationRule.rule] [name_is_free]
                      (sample_control (VString ""))) in
     let control := Directive.validationControl (this m) in
     Forall (sync_returns control) (Dir_syncRules (this m))
     ∧ Exists (sync_fails control) (Dir_syncRules (this m))
     ∧ ∃ m', Directive.validate [0] m = (m', Some tt)
         ∧ Directive._valid (this m') = false
         ∧ Directive.feedback (this m') = Some [Some "You have not provided this item"]
         ∧ ∃ cs, calls m' = calls m ++ cs ∧ Forall is_sync_call cs).
Proof.
  split; intros m control.
  - assert (Forall (sync_returns control) (Rx_syncRules (this m))) as H1
      by (repeat constructor; by eexists).
    assert (Exists (sync_fails control) (Rx_syncRules (this m))) as H2
      by (by apply Exists_cons_hd).
    split_and!; [done..|].
    exact (proj1 sync_failure_short_circuits [0] m H1 H2).
  - assert (Forall (sync_returns control) (Dir_syncRules (this m))) as H1
      by (repeat constructor; by eexists).
    assert (Exists (sync_fails control) (Dir_syncRules (this m))) as H2
      by (by apply Exists_cons_hd).
    split_and!; [done..|].
    exact (proj2 sync_failure_short_circuits [0] m H1 H2).
Defined.

(** C1 without the proviso that the predicates return: a failing
    synchronous rule followed by one that throws.  The pass throws at the
    second rule, no verdict is returned and [_valid], true before the
    pass, is still true.  Both directives. *)
Lemma sync_failure_then_fault :
  (let m := boot (RxDirective.set__valid true
                    (Rx_configured [RequiredValidationRule.rule; throwing_rule]
                       [name_is_free] (sample_control (VString "")))) in
   let control := RxDirective.formControl (this m) in
   Exists (sync_fails control) (Rx_syncRules (this m))
   ∧ ¬ Forall (sync_returns control) (Rx_syncRules (this m))
   ∧ (RxDirective.validate [0] m).2 = None
   ∧ RxDirective._valid (this (RxDirective.validate [0] m).1) = true
   ∧ ¬ ∃ m', RxDirective.validate [0] m = (m', Some tt)
           ∧ RxDirective._valid (this m') = false)
  ∧ (let m := boot (Directive.set__valid true
                      (Dir_configured [RequiredValidationRule.rule; throwing_rule]
                         [name_is_free] (sample_control (VString "")))) in
     let control := Directive.validationControl (this m) in
     Exists (sync_fails control) (Dir_syncRules (this m))
     ∧ ¬ Forall (sync_returns control) (Dir_syncRules (this m))
     ∧ (Directive.validate [0] m).2 = None
     ∧ Directive._valid (this (Directive.validate [0] m).1) = true
     ∧ ¬ ∃ m', Directive.validate [0] m = (m', Some tt)
             ∧ Directive._valid (this m') = false).
Proof.
  split; intros m control.
  - assert ((RxDirective.validate [0] m).2 = None) as Hthrow
      by (vm_compute; reflexivity).
    split_and!; [by apply Exists_cons_hd| |exact Hthrow|vm_compute; reflexivity|].
    + intros [_ [[b Hb] _]%Forall_cons]%Forall_cons. discriminate Hb.
    + intros (m' & Hrun & _). rewrite Hrun in Hthrow. discriminate Hthrow.
  - assert ((Directive.validate [0] m).2 = None) as Hthrow
      by (vm_compute; reflexivity).
    split_and!; [by apply Exists_cons_hd| |exact Hthrow|vm_compute; reflexivity|].
    + intros [_ [[b Hb] _]%Forall_cons]%Forall_cons. discriminate Hb.
    + intros (m' & Hrun & _). rewrite Hrun in Hthrow. discriminate Hthrow.
Qed.




(** C3 on [informative-validator.directive.ts]: with no synchronous rule
    and one asynchronous rule that settles with [false], the pass ends
    invalid and its feedback is the rule's description, not the rule's
    feedback; on the same configuration the directive of
    [informative-validator-rules.ts] reports the rule's feedback. *)
Theorem Dir_async_failure_reports_description :
  let m := (Directive.validate [0]
              (boot (Dir_configured [] [name_is_free] (sample_control (VString "ada"))))).1 in
  let m2 := (RxDirective.validate [0]
               (boot (Rx_configured [] [name_is_free] (sample_control (VString "ada"))))).1 in
  AsynchronousValidationRule.getFeedback name_is_free = Some "This name is taken"
  ∧ Directive._valid (this m) = false
  ∧ Directive.feedback (this m) = Some [Some "Must be unique"]
  ∧ Directive.feedback (this m) ≠ Some [Some "This name is taken"]
  ∧ RxDirective._valid (this m2) = false
  ∧ RxDirective.feedback (this m2) = Some ["This name is taken"].
Proof. by split_and!. Qed.

(** C3 on [informative-validator-rules.ts]: when the synchronous rules have all passed and every asynchronous
    promise fulfils and settles, [_valid] is the conjunction of all the
    results and the feedback is that of the failing asynchronous rules in
    rule order, whatever the settlement order. *)
Lemma Rx_async_results_merged order (m : Machine RxDirective.Directive) :
  let d := this m in
  let control := RxDirective.formControl d in
  Forall (λ r, SynchronousValidationRule.isValid r control = Some true) (Rx_syncRules d) →
  Forall (async_fulfils control) (Rx_asyncRules d) →
  (∀ k, k < length (Rx_asyncRules d) → k ∈ order) →
  ∃ m', RxDirective.validate order m = (m', Some tt)
    ∧ RxDirective._valid (this m')
      = forallb (sync_passes control) (Rx_syncRules d)
        && forallb (async_passes control) (Rx_asyncRules d)
    ∧ RxDirective.feedback (this m')
      = Some (omap AsynchronousValidationRule.getFeedback
                (filter (async_fails control) (Rx_asyncRules d))).
Proof.
  intros d control Hsync Hasync Horder.
  eexists. split; [by apply Rx_validate_settled|]. done.
Qed.

(** End-to-end scenario 2: the required rule passes and an asynchronous
    check resolves false; the settlement order does not matter. *)
Lemma Rx_required_then_async_failure :
  let d := Rx_configured [RequiredValidationRule.rule]
             [async_rule None (Some "Checked") (Fulfilled true); name_is_free]
             (sample_control (VString "ada")) in
  let m1 := (RxDirective.validate [0; 1] (boot d)).1 in
  let m2 := (RxDirective.validate [1; 0] (boot d)).1 in
  RxDirective._valid (this m1) = false
  ∧ RxDirective.feedback (this m1) = Some ["This name is taken"]
  ∧ this m2 = this m1.
Proof. by split_and!. Qed.

(** ... and the other directive, under the same conditions, pushes the
    descriptions of the failing rules. *)
Lemma Dir_async_results_merged order (m : Machine Directive.Directive) :
  let d := this m in
  let control := Directive.validationControl d in
  Forall (λ r, SynchronousValidationRule.isValid r control = Some true) (Dir_syncRules d) →
  Forall (async_fulfils control) (Dir_asyncRules d) →
  (∀ k, k < length (Dir_asyncRules d) → k ∈ order) →
  ∃ m', Directive.validate order m = (m', Some tt)
    ∧ Directive._valid (this m')
      = forallb (sync_passes control) (Dir_syncRules d)
        && forallb (async_passes control) (Dir_asyncRules d)
    ∧ Directive.feedback (this m')
      = Some (AsynchronousValidationRule.getDescription <$>
                filter (async_fails control) (Dir_asyncRules d)).
Proof.
  intros d control Hsync Hasync Horder.
  eexists. split; [by apply Dir_validate_settled|]. done.
Qed.

(** C4.  Each of the four getters returns the rules of the set followed by
    the rules of the list, an absent set or list counting as empty, and
    leaves the machine as it was: the rules of the set keep their
    positions, those of the list follow in their order, and with both
    absent the result is empty. *)
Theorem aggregation_set_then_list :
  (∀ (m : Machine RxDirective.Directive),
     RxDirective.getSyncRules m
     = (m, Some (rules_of_set (RxDirective.syncRuleSet (this m))
                 ++ default [] (RxDirective.syncRules (this m))))
     ∧ RxDirective.getAsyncRules m
       = (m, Some (async_rules_of_set (RxDirective.asyncRuleSet (this m))
                   ++ default [] (RxDirective.asyncRules (this m)))))
  ∧ (∀ (m : Machine Directive.Directive),
     Directive.getSyncRules m
     = (m, Some (rules_of_set (Directive.syncRuleSet (this m))
                 ++ default [] (Directive.syncRules (this m))))
     ∧ Directive.getAsyncRules m
       = (m, Some (async_rules_of_set (Directive.asyncRuleSet (this m))
                   ++ default [] (Directive.asyncRules (this m)))))
  ∧ (∀ set list i j (r : SynchronousValidationRule.t),
       (rules_of_set set !! i = Some r →
        (rules_of_set set ++ default [] list) !! i = Some r)
       ∧ (default [] list !! j = Some r →
          (rules_of_set set ++ default [] list) !! (length (rules_of_set set) + j) = Some r))
  ∧ (∀ set list i j (r : AsynchronousValidationRule.t),
       (async_rules_of_set set !! i = Some r →
        (async_rules_of_set set ++ default [] list) !! i = Some r)
       ∧ (default [] list !! j = Some r →
          (async_rules_of_set set ++ default [] list)
            !! (length (async_rules_of_set set) + j) = Some r))
  ∧ (∀ set, rules_of_set (Some set) = SynchronousValidationRuleSet.getRuleSet set)
  ∧ (∀ set, async_rules_of_set (Some set) = AsynchronousValidationRuleSet.getRuleSet set)
  ∧ rules_of_set None ++ default [] (None : option (list SynchronousValidationRule.t)) = []
  ∧ async_rules_of_set None ++ default [] (None : option (list AsynchronousValidationRule.t)) = [].
Proof.
  split_and!; try done.
  - intros set list i j r. split; intros H.
    + by apply lookup_app_l_Some.
    + by rewrite lookup_app_r, Nat.add_comm, Nat.add_sub by lia.
  - intros set list i j r. split; intros H.
    + by apply lookup_app_l_Some.
    + by rewrite lookup_app_r, Nat.add_comm, Nat.add_sub by lia.
Qed.

Lemma aggregation_set_then_list_witness :
  let set := Some {| SynchronousValidationRuleSet.getRuleSet := [RequiredValidationRule.rule] |} in
  let list := Some [EmailStructureValidationRule.rule; silent_rule] in
  (rules_of_set set !! 0 = Some RequiredValidationRule.rule
   ∧ (rules_of_set set ++ default [] list) !! 0 = Some RequiredValidationRule.rule)
  ∧ (default [] list !! 1 = Some silent_rule
     ∧ (rules_of_set set ++ default [] list) !! (length (rules_of_set set) + 1)
       = Some silent_rule).
Proof.
  intros set list.
  pose proof (proj1 (proj2 (proj2 aggregation_set_then_list)) set list 0 1) as H.
  split.
  - split; [reflexivity|]. exact (proj1 (H RequiredValidationRule.rule) eq_refl).
  - split; [reflexivity|]. exact (proj2 (H silent_rule) eq_refl).
Defined.

(** C5 on [informative-validator.directive.ts]: a failing synchronous rule
    whose feedback is [null] has that [null] collected, and its predicate
    is invoked twice in the pass; on the same configuration the directive
    of [informative-validator-rules.ts] collects nothing and invokes the
    predicate once. *)
Theorem Dir_null_feedback_collected :
  let control := sample_control (VString "ada") in
  let m := (Directive.validate [] (boot (Dir_configured [silent_rule] [] control))).1 in
  let m2 := (RxDirective.validate [] (boot (Rx_configured [silent_rule] [] control))).1 in
  SynchronousValidationRule.getFeedback silent_rule = None
  ∧ Directive.feedback (this m) = Some [None]
  ∧ calls m = [SyncIsValid silent_rule (Some control); SyncIsValid silent_rule (Some control)]
  ∧ RxDirective.feedback (this m2) = Some []
  ∧ calls m2 = [SyncIsValid silent_rule (Some control)].
Proof. by split_and!. Qed.

(** C5 on [informative-validator-rules.ts]: as long as the predicates return, a pass returns, and it has invoked
    the predicate of every synchronous rule once, in rule order, on the
    control the directive is bound to, and after them, if they all passed,
    the asynchronous rules. *)
Lemma Rx_validate_calls order (m : Machine RxDirective.Directive) :
  let d := this m in
  let control := RxDirective.formControl d in
  Forall (sync_returns control) (Rx_syncRules d) →
  Forall (async_returns control) (Rx_asyncRules d) →
  ∃ m', RxDirective.validate order m = (m', Some tt)
    ∧ calls m'
      = calls m ++ ((λ r, SyncIsValid r control) <$> Rx_syncRules d)
                ++ (if forallb (sync_passes control) (Rx_syncRules d)
                    then (λ r, AsyncIsValid r control) <$> Rx_asyncRules d
                    else []).
Proof.
  intros d control Hsync Hasync.
  destruct (forallb (sync_passes control) (Rx_syncRules d)) eqn:Hall.
  - apply forallb_sync_passes_true in Hall.
    rewrite Rx_validate_dispatched by done. fold d control.
    destruct (Promise_all order (dispatched control (Rx_asyncRules d)))
      as [|results|] eqn:Hres.
    + eexists. split; [done|]. cbn [calls]. by rewrite app_assoc.
    + apply Promise_all_fulfilled_length in Hres.
      rewrite dispatched_length in Hres by done.
      unfold try_catch. rewrite (Rx_then_stage _ _ _ _ []) by done.
      eexists. split; [done|]. cbn [calls]. by rewrite app_assoc.
    + unfold RxDirective.validate_catch, RxDirective.push_feedback. run.
      eexists. split; [done|]. cbn [calls]. by rewrite app_assoc.
  - apply forallb_sync_passes_false in Hall; [|done].
    rewrite Rx_validate_sync_failure by done. fold d control.
    eexists. split; [done|]. cbn [calls]. by rewrite app_nil_r.
Qed.

(** C6.  Whatever sequence of value changes, cancellations, passing time
    and validation passes a binding has gone through since it was built
    without a timer, it satisfies [debounce_contract]: at most one timer
    is outstanding; scheduling cancels the outstanding one and starts a
    new one, due after the configured delay (1500 ms as built), which
    fires once when it is due and not before; cancelling with nothing
    outstanding changes nothing; a cancelled timer never fires. *)
Theorem debounce_single_timer (d : RxDirective.Directive) (acts : list Action) :
  RxDirective._typingTimer d = None →
  debounce_contract d (run_actions acts (boot d)).
Proof.
  intros Hd. apply timer_inv_contract.
  - by apply run_actions_timer_inv, boot_timer_inv.
  - by rewrite run_actions_delay.
Qed.

Lemma debounce_single_timer_witness :
  RxDirective._typingTimer (RxDirective.constructor sample_element) = None
  ∧ debounce_contract (RxDirective.constructor sample_element)
      (run_actions [Schedule 1; Elapse 400; Schedule 2; Elapse 1500; Cancel;
                    Schedule 3; Validate []; Cancel; Elapse 2000]
         (boot (RxDirective.constructor sample_element))).
Proof.
  split; [reflexivity|].
  apply (debounce_single_timer (RxDirective.constructor sample_element)).
  reflexivity.
Defined.

(** Five value changes within the delay, then a pause: the callback of the
    last change runs, once, and no other. *)
Lemma debounce_coalesces :
  emitted (run_actions [Schedule 1; Elapse 100; Schedule 2; Elapse 100; Schedule 3;
                        Elapse 100; Schedule 4; Elapse 100; Schedule 5; Elapse 1500]
             (boot (RxDirective.constructor sample_element)))
  = [(4, 5)].
Proof. vm_compute. reflexivity. Qed.

(** C7.  [shouldDisplayFeedback] of [informative-validator.directive.ts]
    lacks two of the six guards.  Bound to a disabled control that was
    touched and found invalid, it answers [true] although the control is
    disabled; with no control bound, it throws on the read of [untouched]
    instead of answering [false].  On the same two states the directive
    of [informative-validator-rules.ts] answers [false]. *)
Theorem Dir_shouldDisplayFeedback_missing_guards :
  (Dir_suppressed Dir_disabled
   ∧ Directive.shouldDisplayFeedback Dir_disabled = Some true
   ∧ Directive.shouldDisplayFeedback Dir_disabled ≠ Some false)
  ∧ (Dir_suppressed Dir_unbound
     ∧ Directive.shouldDisplayFeedback Dir_unbound = None
     ∧ Directive.shouldDisplayFeedback Dir_unbound ≠ Some false)
  ∧ (Rx_suppressed Rx_disabled
     ∧ RxDirective.shouldDisplayFeedback Rx_disabled = false)
  ∧ (Rx_suppressed Rx_unbound
     ∧ RxDirective.shouldDisplayFeedback Rx_unbound = false).
Proof.
  split_and!.
  - unfold Dir_suppressed. do 4 right. left. eexists. split; reflexivity.
  - vm_compute. reflexivity.
  - vm_compute. discriminate.
  - unfold Dir_suppressed. do 2 right. left. reflexivity.
  - vm_compute. reflexivity.
  - vm_compute. discriminate.
  - unfold Rx_suppressed. do 4 right. left. eexists. split; reflexivity.
  - vm_compute. reflexivity.
  - unfold Rx_suppressed. do 2 right. left. reflexivity.
  - vm_compute. reflexivity.
Qed.

(** C7 on [informative-validator-rules.ts]: [shouldDisplayFeedback]
    answers [false] exactly when no feedback was computed, feedback is hidden, no
    control is bound, the control is untouched, the control is disabled,
    or the last verdict was valid.  What the guards of
    [informative-validator.directive.ts] test instead, for a bound control:
    no feedback computed, not initialised, feedback hidden, control
    untouched, last verdict valid. *)
Theorem shouldDisplayFeedback_iff :
  (∀ d, RxDirective.shouldDisplayFeedback d = false ↔ Rx_suppressed d)
  ∧ (∀ d, RxDirective.shouldDisplayFeedback d = true ↔ ¬ Rx_suppressed d)
  ∧ (∀ d c, Directive.validationControl d = Some c →
       ∃ b, Directive.shouldDisplayFeedback d = Some b
         ∧ (b = false ↔
              Directive.feedback d = None
              ∨ Directive._initialised d = false
              ∨ Directive.hideFeedback d = true
              ∨ untouched c = true
              ∨ Directive._valid d = true)).
Proof.
  assert (∀ d, RxDirective.shouldDisplayFeedback d = false ↔ Rx_suppressed d) as Hrx.
  { intros d. unfold RxDirective.shouldDisplayFeedback, Rx_suppressed.
    rewrite negb_false_iff, !orb_true_iff, bool_decide_eq_true.
    destruct (RxDirective.formControl d) as [c|] eqn:Hc.
    - rewrite orb_true_iff, bool_decide_eq_true. split.
      + intros [[[H|H]|[H|H]]|H].
        * by left.
        * by right; left.
        * do 3 right. left. by exists c.
        * do 4 right. left. by exists c.
        * by do 5 right.
      + intros [H|[H|[H|[(c' & Hc' & H)|[(c' & Hc' & H)|H]]]]].
        * by left; left; left.
        * by left; left; right.
        * discriminate H.
        * injection Hc' as <-. by left; right; left.
        * injection Hc' as <-. by left; right; right.
        * by right.
    - split.
      + intros _. by right; right; left.
      + intros _. by left; right. }
  split_and!; [exact Hrx| |].
  - intros d. rewrite <- Hrx. destruct (RxDirective.shouldDisplayFeedback d).
    + split; [intros _ H; discriminate H|reflexivity].
    + split; [intros H; discriminate H|]. intros H. by destruct H.
  - intros d c Hc. unfold Directive.shouldDisplayFeedback. rewrite Hc.
    cbn [mbind option_bind].
    case_bool_decide as Hfb.
    { exists false. split; [reflexivity|]. split; [by left|reflexivity]. }
    destruct (Directive._initialised d) eqn:Hi; cbn [negb].
    2: { exists false. split; [reflexivity|]. split; [by right; left|reflexivity]. }
    destruct (Directive.hideFeedback d) eqn:Hh.
    { exists false. split; [reflexivity|]. split; [by right; right; left|reflexivity]. }
    destruct (untouched c) eqn:Hu.
    { exists false. split; [reflexivity|]. split; [by right; right; right; left|reflexivity]. }
    destruct (Directive._valid d) eqn:Hv.
    { exists false. split; [reflexivity|]. split; [by right; right; right; right|reflexivity]. }
    exists true. split; [reflexivity|]. split; [intros H; discriminate H|].
    intros [?|[?|[?|[?|?]]]]; congruence.
Qed.

Lemma shouldDisplayFeedback_iff_witness :
  Directive.validationControl Dir_disabled
  = Some {| value := VString ""; untouched := false; status := "DISABLED"; errors := None |}
  ∧ ∃ b, Directive.shouldDisplayFeedback Dir_disabled = Some b
      ∧ (b = false ↔
           Directive.feedback Dir_disabled = None
           ∨ Directive._initialised Dir_disabled = false
           ∨ Directive.hideFeedback Dir_disabled = true
           ∨ false = true
           ∨ Directive._valid Dir_disabled = true).
Proof.
  split; [reflexivity|].
  exact (proj2 (proj2 shouldDisplayFeedback_iff) Dir_disabled _ eq_refl).
Defined.

(** End-to-end scenario 4: hidden feedback is not displayed although the
    control is touched and the verdict invalid. *)
Lemma Rx_hidden_feedback_not_displayed d :
  RxDirective.hideFeedback d = true → RxDirective.shouldDisplayFeedback d = false.
Proof.
  intros Hh. unfold RxDirective.shouldDisplayFeedback. rewrite Hh.
  by rewrite orb_true_r.
Qed.

(** C8.  A directive whose aggregated synchronous rules are the built-in
    required rule alone, bound to a control holding the empty string,
    ends its pass with [_valid = false] and the single message of that
    rule, whatever the settlement order (no asynchronous rule is reached).
    Both directives. *)
Theorem required_rule_rejects_empty_string :
  (∀ order (m : Machine RxDirective.Directive) c,
     Rx_syncRules (this m) = [RequiredValidationRule.rule] →
     RxDirective.formControl (this m) = Some c →
     value c = VString "" →
     ∃ m', RxDirective.validate order m = (m', Some tt)
       ∧ RxDirective._valid (this m') = false
       ∧ RxDirective.feedback (this m') = Some ["You have not provided this item"])
  ∧ (∀ order (m : Machine Directive.Directive) c,
     Dir_syncRules (this m) = [RequiredValidationRule.rule] →
     Directive.validationControl (this m) = Some c →
     value c = VString "" →
     ∃ m', Directive.validate order m = (m', Some tt)
       ∧ Directive._valid (this m') = false
       ∧ Directive.feedback (this m') = Some [Some "You have not provided this item"]).
Proof.
  split; intros order m c Hrules Hc Hv.
  - assert (SynchronousValidationRule.isValid RequiredValidationRule.rule
              (RxDirective.formControl (this m)) = Some false) as Hfalse.
    { rewrite Hc. simpl. unfold RequiredValidationRule.isValid. simpl. by rewrite Hv. }
    eexists. split.
    + apply Rx_validate_sync_failure; rewrite Hrules.
      * constructor; [|done]. unfold sync_returns. by rewrite Hfalse.
      * by apply Exists_cons_hd.
    + cbn [this]. split; [done|]. rewrite Hrules.
      rewrite filter_cons_True by done. done.
  - assert (SynchronousValidationRule.isValid RequiredValidationRule.rule
              (Directive.validationControl (this m)) = Some false) as Hfalse.
    { rewrite Hc. simpl. unfold RequiredValidationRule.isValid. simpl. by rewrite Hv. }
    eexists. split.
    + apply Dir_validate_sync_failure; rewrite Hrules.
      * constructor; [|done]. unfold sync_returns. by rewrite Hfalse.
      * by apply Exists_cons_hd.
    + cbn [this]. split; [done|]. rewrite Hrules.
      rewrite filter_cons_True by done. done.
Qed.

Lemma required_rule_rejects_empty_string_witness :
  (let m := boot (Rx_configured [RequiredValidationRule.rule] [] (sample_control (VString ""))) in
   Rx_syncRules (this m) = [RequiredValidationRule.rule]
   ∧ RxDirective.formControl (this m) = Some (sample_control (VString ""))
   ∧ value (sample_control (VString "")) = VString ""
   ∧ ∃ m', RxDirective.validate [] m = (m', Some tt)
       ∧ RxDirective._valid (this m') = false
       ∧ RxDirective.feedback (this m') = Some ["You have not provided this item"])
  ∧ (let m := boot (Dir_configured [RequiredValidationRule.rule] [] (sample_control (VString ""))) in
     Dir_syncRules (this m) = [RequiredValidationRule.rule]
     ∧ Directive.validationControl (this m) = Some (sample_control (VString ""))
     ∧ value (sample_control (VString "")) = VString ""
     ∧ ∃ m', Directive.validate [] m = (m', Some tt)
         ∧ Directive._valid (this m') = false
         ∧ Directive.feedback (this m') = Some [Some "You have not provided this item"]).
Proof.
  split; intros m.
  - split_and!; [reflexivity..|].
    exact (proj1 required_rule_rejects_empty_string [] m _ eq_refl eq_refl eq_refl).
  - split_and!; [reflexivity..|].
    exact (proj2 required_rule_rejects_empty_string [] m _ eq_refl eq_refl eq_refl).
Defined.

(** C9.  A validation pass, whether it returns or throws, leaves every
    field of the directive other than [_valid] and [feedback] as it was —
    the bound control with its error state, the rendered elements, the
    rule sources, the flags, the pending timer — and leaves the clock, the
    timer table and the callbacks run as they were.  Both directives. *)
Theorem validate_frame :
  (∀ order (m : Machine RxDirective.Directive),
     machine_frame Rx_frame m (RxDirective.validate order m).1)
  ∧ (∀ order (m : Machine Directive.Directive),
     machine_frame Dir_frame m (Directive.validate order m).1).
Proof.
  split; intros order m.
  - apply Rx_validate_preserves.
  - apply Dir_validate_preserves.
Qed.

(** The error state of the control is written by [setErrors], which the
    callers of [validate] run after it. *)
Lemma Rx_setErrors_writes_sink (m : Machine RxDirective.Directive) c :
  RxDirective.formControl (this m) = Some c →
  RxDirective.formControl (this (RxDirective.setErrors m).1)
  = Some (setErrors_control
            (if RxDirective._valid (this m) then None else Some CUSTOM_ERRORS) c).
Proof. intros Hc. unfold RxDirective.setErrors. run. by rewrite Hc. Qed.

(** C10 fails on values that are not strings: on a control holding the
    number 5, whose string form is ["5"], the e-mail rule does not return. *)
Lemma EmailStructureValidationRule_number :
  let c := sample_control (VNumber 5) in
  eq_null (value c) = false
  ∧ toString (value c) = Some "5"
  ∧ EmailStructureValidationRule.isValid (Some c) = None
  ∧ ¬ (∃ b, EmailStructureValidationRule.isValid (Some c) = Some b
          ∧ (b = true ↔ matches EMAIL_PATTERN "5" = true)).
Proof.
  split_and!; [reflexivity..|]. intros (b & H & _). discriminate H.
Qed.

(** C10.  The e-mail rule answers [true] on a control whose value
    is [null] or [undefined]; on a control whose value is a string it
    answers [true] exactly when the string has the shape of the pattern. *)
Theorem EmailStructureValidationRule_isValid (c : AbstractControl) :
  (eq_null (value c) = true →
   EmailStructureValidationRule.isValid (Some c) = Some true)
  ∧ (∀ s, value c = VString s →
       ∃ b, EmailStructureValidationRule.isValid (Some c) = Some b
         ∧ (b = true ↔ email_shape s)).
Proof.
  unfold EmailStructureValidationRule.isValid. cbn [mbind option_bind]. split.
  - by intros ->.
  - intros s ->. cbn [eq_null match_ mbind option_bind].
    destruct (matches EMAIL_PATTERN s) eqn:Hm.
    + exists true. split; [by rewrite bool_decide_eq_true_2|].
      split; [intros _; by apply matches_EMAIL_PATTERN|done].
    + exists false. split; [by rewrite bool_decide_eq_false_2 by (intros H; by apply H)|].
      split; [intros H; discriminate H|].
      intros H%matches_EMAIL_PATTERN. congruence.
Qed.

Lemma EmailStructureValidationRule_isValid_witness :
  (eq_null (value (sample_control VNull)) = true
   ∧ EmailStructureValidationRule.isValid (Some (sample_control VNull)) = Some true)
  ∧ (value (sample_control (VString "a@b.co")) = VString "a@b.co"
     ∧ ∃ b, EmailStructureValidationRule.isValid (Some (sample_control (VString "a@b.co")))
            = Some b
          ∧ (b = true ↔ email_shape "a@b.co")).
Proof.
  split.
  - split; [reflexivity|].
    exact (proj1 (EmailStructureValidationRule_isValid (sample_control VNull)) eq_refl).
  - split; [reflexivity|].
    exact (proj2 (EmailStructureValidationRule_isValid (sample_control (VString "a@b.co")))
             "a@b.co" eq_refl).
Defined.

(** End-to-end scenario 3. *)
Lemma EmailStructureValidationRule_examples :
  EmailStructureValidationRule.isValid (Some (sample_control (VString "not-an-email")))
  = Some false
  ∧ EmailStructureValidationRule.isValid (Some (sample_control (VString "a@b.co")))
    = Some true.
Proof. split; vm_compute; reflexivity. Qed.

(* ================================================================== *)
(** * Further properties: the verdict of a pass *)
(* ================================================================== *)

Lemma for_of_app {D A S} (xs ys : list A) (body : A → S → M D S) : ∀ s m,
  for_of (xs ++ ys) s body m
  = bind (for_of xs s body) (λ s', for_of ys s' body) m.
Proof.
  induction xs as [|x xs IH]; intros s m; simpl; [done|].
  unfold bind. destruct (body x s m) as [m' [s'|]]; [|done].
  rewrite IH. done.
Qed.

(** The first rule of a list that does not return. *)
Lemma first_sync_throw control rules :
  ¬ Forall (sync_returns control) rules →
  ∃ pre r post, rules = pre ++ r :: post
    ∧ Forall (sync_returns control) pre ∧ sync_throws control r.
Proof.
  induction rules as [|r rules IH]; intros Hnot; [by destruct Hnot|].
  destruct (SynchronousValidationRule.isValid r control) as [b|] eqn:Hr.
  - destruct IH as (pre & r' & post & -> & Hpre & Hr').
    { intros Hall. apply Hnot. constructor; [|done]. unfold sync_returns. by rewrite Hr. }
    exists (r :: pre), r', post. split_and!; [done| |done].
    constructor; [|done]. unfold sync_returns. by rewrite Hr.
  - by exists [], r, rules.
Qed.

Lemma first_async_throw control rules :
  ¬ Forall (async_returns control) rules →
  ∃ pre r post, rules = pre ++ r :: post
    ∧ Forall (async_returns control) pre ∧ async_throws control r.
Proof.
  induction rules as [|r rules IH]; intros Hnot; [by destruct Hnot|].
  destruct (AsynchronousValidationRule.isValid r control) as [b|] eqn:Hr.
  - destruct IH as (pre & r' & post & -> & Hpre & Hr').
    { intros Hall. apply Hnot. constructor; [|done]. unfold async_returns. by rewrite Hr. }
    exists (r :: pre), r', post. split_and!; [done| |done].
    constructor; [|done]. unfold async_returns. by rewrite Hr.
  - by exists [], r, rules.
Qed.

Lemma Rx_sync_stage_throw pre r post valid (m : Machine RxDirective.Directive) fb :
  let control := RxDirective.formControl (this m) in
  RxDirective.feedback (this m) = Some fb →
  Forall (sync_returns control) pre →
  sync_throws control r →
  for_of (pre ++ r :: post) valid RxDirective.validate_sync m =
    ({| this := RxDirective.set_feedback
                  (Some (fb ++ omap SynchronousValidationRule.getFeedback
                                 (filter (sync_fails control) pre)))
                  (this m);
        calls := calls m ++ ((λ r, SyncIsValid r control) <$> pre)
                         ++ [SyncIsValid r control];
        now := now m; timers := timers m; emitted := emitted m |},
     None).
Proof.
  intros control Hfb Hpre Hr. rewrite for_of_app. unfold bind at 1.
  rewrite (Rx_sync_stage _ _ _ fb) by done. fold control.
  cbn [for_of]. unfold bind at 1, RxDirective.validate_sync, call_sync. run.
  destruct m as [d cs nw tms em]; simpl in *. subst control. simpl.
  unfold sync_throws in Hr. rewrite Hr. simpl. by rewrite <- app_assoc.
Qed.

Lemma Dir_sync_stage_throw pre r post valid (m : Machine Directive.Directive) fb :
  let control := Directive.validationControl (this m) in
  Directive.feedback (this m) = Some fb →
  Forall (sync_returns control) pre →
  sync_throws control r →
  for_of (pre ++ r :: post) valid Directive.validate_sync m =
    ({| this := Directive.set_feedback
                  (Some (fb ++ (SynchronousValidationRule.getFeedback <$>
                                 filter (sync_fails control) pre)))
                  (this m);
        calls := calls m ++ double_calls control valid pre
                         ++ [SyncIsValid r control];
        now := now m; timers := timers m; emitted := emitted m |},
     None).
Proof.
  intros control Hfb Hpre Hr. rewrite for_of_app. unfold bind at 1.
  rewrite (Dir_sync_stage _ _ _ fb) by done. fold control.
  cbn [for_of]. unfold bind at 1, Directive.validate_sync, call_sync. run.
  destruct m as [d cs nw tms em]; simpl in *. subst control. simpl.
  unfold sync_throws in Hr. rewrite Hr. simpl. by rewrite <- app_assoc.
Qed.

Lemma Rx_dispatch_stage_throw pre r post promises (m : Machine RxDirective.Directive) :
  let control := RxDirective.formControl (this m) in
  Forall (async_returns control) pre →
  async_throws control r →
  for_of (pre ++ r :: post) promises RxDirective.validate_dispatch m =
    ({| this := this m;
        calls := calls m ++ ((λ r, AsyncIsValid r control) <$> pre)
                         ++ [AsyncIsValid r control];
        now := now m; timers := timers m; emitted := emitted m |},
     None).
Proof.
  intros control Hpre Hr. rewrite for_of_app. unfold bind at 1.
  rewrite Rx_dispatch_stage by done. fold control.
  cbn [for_of]. unfold bind at 1, RxDirective.validate_dispatch, call_async. run.
  destruct m as [d cs nw tms em]; simpl in *. subst control. simpl.
  unfold async_throws in Hr. rewrite Hr. simpl. by rewrite <- app_assoc.
Qed.

Lemma Dir_dispatch_stage_throw pre r post promises (m : Machine Directive.Directive) :
  let control := Directive.validationControl (this m) in
  Forall (async_returns control) pre →
  async_throws control r →
  for_of (pre ++ r :: post) promises Directive.validate_dispatch m =
    ({| this := this m;
        calls := calls m ++ ((λ r, AsyncIsValid r control) <$> pre)
                         ++ [AsyncIsValid r control];
        now := now m; timers := timers m; emitted := emitted m |},
     None).
Proof.
  intros control Hpre Hr. rewrite for_of_app. unfold bind at 1.
  rewrite Dir_dispatch_stage by done. fold control.
  cbn [for_of]. unfold bind at 1, Directive.validate_dispatch, call_async. run.
  destruct m as [d cs nw tms em]; simpl in *. subst control. simpl.
  unfold async_throws in Hr. rewrite Hr. simpl. by rewrite <- app_assoc.
Qed.

Lemma Rx_validate_verdict order (m : Machine RxDirective.Directive) :
  let d := this m in
  let control := RxDirective.formControl d in
  Forall (sync_returns control) (Rx_syncRules d) →
  (forallb (sync_passes control) (Rx_syncRules d) = true →
   Forall (async_returns control) (Rx_asyncRules d)) →
  RxDirective.validate order m =
    ({| this := Rx_verdict order d;
        calls := calls m ++ ((λ r, SyncIsValid r control) <$> Rx_syncRules d)
                         ++ (if forallb (sync_passes control) (Rx_syncRules d)
                             then (λ r, AsyncIsValid r control) <$> Rx_asyncRules d
                             else []);
        now := now m; timers := timers m; emitted := emitted m |},
     Some tt).
Proof.
  intros d control Hsync Hasync. unfold Rx_verdict. fold control.
  destruct (forallb (sync_passes control) (Rx_syncRules d)) eqn:Hall.
  - specialize (Hasync eq_refl). apply forallb_sync_passes_true in Hall.
    rewrite Rx_validate_dispatched by done. fold d control.
    destruct (Promise_all order (dispatched control (Rx_asyncRules d)))
      as [|results|] eqn:Hres.
    + unfold ret. by rewrite app_assoc.
    + apply Promise_all_fulfilled_length in Hres.
      rewrite dispatched_length in Hres by done.
      unfold try_catch. rewrite (Rx_then_stage _ _ _ _ []) by done.
      cbn [this calls now timers emitted app andb]. rewrite app_assoc.
      subst d control. by destruct m as [[] ? ? ? ?].
    + unfold RxDirective.validate_catch, RxDirective.push_feedback. run.
      rewrite app_assoc. subst d control. by destruct m as [[] ? ? ? ?].
  - apply forallb_sync_passes_false in Hall; [|done].
    rewrite Rx_validate_sync_failure by done. fold d control.
    by rewrite app_nil_r.
Qed.


Lemma Dir_validate_verdict order (m : Machine Directive.Directive) :
  let d := this m in
  let control := Directive.validationControl d in
  Forall (sync_returns control) (Dir_syncRules d) →
  (forallb (sync_passes control) (Dir_syncRules d) = true →
   Forall (async_returns control) (Dir_asyncRules d)) →
  Directive.validate order m =
    ({| this := Dir_verdict order d;
        calls := calls m ++ double_calls control true (Dir_syncRules d)
                         ++ (if forallb (sync_passes control) (Dir_syncRules d)
                             then (λ r, AsyncIsValid r control) <$> Dir_asyncRules d
                             else []);
        now := now m; timers := timers m; emitted := emitted m |},
     Some tt).
Proof.
  intros d control Hsync Hasync. unfold Dir_verdict. fold control.
  destruct (forallb (sync_passes control) (Dir_syncRules d)) eqn:Hall.
  - specialize (Hasync eq_refl). apply forallb_sync_passes_true in Hall.
    rewrite Dir_validate_dispatched by done. fold d control.
    destruct (Promise_all order (dispatched control (Dir_asyncRules d)))
      as [|results|] eqn:Hres.
    + unfold ret. by rewrite app_assoc.
    + apply Promise_all_fulfilled_length in Hres.
      rewrite dispatched_length in Hres by done.
      unfold try_catch. rewrite (Dir_then_stage _ _ _ _ []) by done.
      cbn [this calls now timers emitted app andb]. rewrite app_assoc.
      subst d control. by destruct m as [[] ? ? ? ?].
    + unfold Directive.validate_catch, Directive.push_feedback. run.
      rewrite app_assoc. subst d control. by destruct m as [[] ? ? ? ?].
  - apply forallb_sync_passes_false in Hall; [|done].
    rewrite Dir_validate_sync_failure by done. fold d control.
    by rewrite app_nil_r.
Qed.


Lemma Rx_validate_sync_throw order (m : Machine RxDirective.Directive) pre r post :
  let d := this m in
  let control := RxDirective.formControl d in
  Rx_syncRules d = pre ++ r :: post →
  Forall (sync_returns control) pre →
  sync_throws control r →
  RxDirective.validate order m =
    ({| this := RxDirective.set_feedback
                  (Some (omap SynchronousValidationRule.getFeedback
                           (filter (sync_fails control) pre))) d;
        calls := calls m ++ ((λ r, SyncIsValid r control) <$> pre)
                         ++ [SyncIsValid r control];
        now := now m; timers := timers m; emitted := emitted m |},
     None).
Proof.
  intros d control Hrules Hpre Hr. unfold RxDirective.validate.
  unfold bind at 1. rewrite Rx_getSyncRules_eq.
  unfold bind at 1. rewrite Rx_getAsyncRules_eq.
  unfold bind at 1, modify at 1. cbn [fst snd].
  unfold bind at 1. fold d. rewrite Hrules.
  rewrite (Rx_sync_stage_throw _ _ _ _ _ []) by done.
  cbn [this calls now timers emitted RxDirective.formControl RxDirective.set_feedback app].
  subst d control. by destruct m as [[] ? ? ? ?].
Qed.

Lemma Dir_validate_sync_throw order (m : Machine Directive.Directive) pre r post :
  let d := this m in
  let control := Directive.validationControl d in
  Dir_syncRules d = pre ++ r :: post →
  Forall (sync_returns control) pre →
  sync_throws control r →
  Directive.validate order m =
    ({| this := Directive.set_feedback
                  (Some (SynchronousValidationRule.getFeedback <$>
                           filter (sync_fails control) pre)) d;
        calls := calls m ++ double_calls control true pre
                         ++ [SyncIsValid r control];
        now := now m; timers := timers m; emitted := emitted m |},
     None).
Proof.
  intros d control Hrules Hpre Hr. unfold Directive.validate.
  unfold bind at 1. rewrite Dir_getSyncRules_eq.
  unfold bind at 1. rewrite Dir_getAsyncRules_eq.
  unfold bind at 1, modify at 1. cbn [fst snd].
  unfold bind at 1. fold d. rewrite Hrules.
  rewrite (Dir_sync_stage_throw _ _ _ _ _ []) by done.
  cbn [this calls now timers emitted Directive.validationControl Directive.set_feedback app].
  subst d control. by destruct m as [[] ? ? ? ?].
Qed.

Lemma Rx_validate_async_throw order (m : Machine RxDirective.Directive) pre r post :
  let d := this m in
  let control := RxDirective.formControl d in
  Forall (λ r, SynchronousValidationRule.isValid r control = Some true) (Rx_syncRules d) →
  Rx_asyncRules d = pre ++ r :: post →
  Forall (async_returns control) pre →
  async_throws control r →
  RxDirective.validate order m =
    ({| this := RxDirective.set_feedback (Some []) d;
        calls := calls m ++ ((λ r, SyncIsValid r control) <$> Rx_syncRules d)
                         ++ ((λ r, AsyncIsValid r control) <$> pre)
                         ++ [AsyncIsValid r control];
        now := now m; timers := timers m; emitted := emitted m |},
     None).
Proof.
  intros d control Hsync Hrules Hpre Hr.
  destruct (forallb_sync_passes_all _ _ Hsync) as (Hall & Hnil & Hret).
  unfold RxDirective.validate.
  unfold bind at 1. rewrite Rx_getSyncRules_eq.
  unfold bind at 1. rewrite Rx_getAsyncRules_eq.
  unfold bind at 1, modify at 1. cbn [fst snd].
  unfold bind at 1.
  rewrite (Rx_sync_stage _ _ _ []) by done.
  cbn [this calls now timers emitted RxDirective.formControl RxDirective.set_feedback].
  fold d control. rewrite Hall, Hnil. cbn [andb negb app omap list_omap].
  unfold bind at 1. rewrite Hrules. rewrite Rx_dispatch_stage_throw by done.
  cbn [this calls now timers emitted RxDirective.formControl RxDirective.set_feedback app].
  fold d control. rewrite <- !app_assoc.
  subst d control. by destruct m as [[] ? ? ? ?].
Qed.

Lemma Dir_validate_async_throw order (m : Machine Directive.Directive) pre r post :
  let d := this m in
  let control := Directive.validationControl d in
  Forall (λ r, SynchronousValidationRule.isValid r control = Some true) (Dir_syncRules d) →
  Dir_asyncRules d = pre ++ r :: post →
  Forall (async_returns control) pre →
  async_throws control r →
  Directive.validate order m =
    ({| this := Directive.set_feedback (Some []) d;
        calls := calls m ++ double_calls control true (Dir_syncRules d)
                         ++ ((λ r, AsyncIsValid r control) <$> pre)
                         ++ [AsyncIsValid r control];
        now := now m; timers := timers m; emitted := emitted m |},
     None).
Proof.
  intros d control Hsync Hrules Hpre Hr.
  destruct (forallb_sync_passes_all _ _ Hsync) as (Hall & Hnil & Hret).
  unfold Directive.validate.
  unfold bind at 1. rewrite Dir_getSyncRules_eq.
  unfold bind at 1. rewrite Dir_getAsyncRules_eq.
  unfold bind at 1, modify at 1. cbn [fst snd].
  unfold bind at 1.
  rewrite (Dir_sync_stage _ _ _ []) by done.
  cbn [this calls now timers emitted Directive.validationControl Directive.set_feedback].
  fold d control. rewrite Hall, Hnil. cbn [andb negb app fmap list_fmap].
  unfold bind at 1. rewrite Hrules. rewrite Dir_dispatch_stage_throw by done.
  cbn [this calls now timers emitted Directive.validationControl Directive.set_feedback app].
  fold d control. rewrite <- !app_assoc.
  subst d control. by destruct m as [[] ? ? ? ?].
Qed.

(** X3.  A synchronous predicate that throws is not caught: the pass
    throws at the first such rule; the rules after it and the
    asynchronous rules are never invoked, [_valid] keeps the value it
    had, and [feedback] holds what the failing rules before it gave.
    Both directives. *)
Theorem sync_predicate_fault_propagates :
  (∀ order (m : Machine RxDirective.Directive) pre r post,
     let d := this m in
     let control := RxDirective.formControl d in
     Rx_syncRules d = pre ++ r :: post →
     Forall (sync_returns control) pre →
     sync_throws control r →
     ∃ m', RxDirective.validate order m = (m', None)
       ∧ RxDirective._valid (this m') = RxDirective._valid d
       ∧ RxDirective.feedback (this m')
         = Some (omap SynchronousValidationRule.getFeedback
                   (filter (sync_fails control) pre))
       ∧ calls m' = calls m ++ ((λ r, SyncIsValid r control) <$> pre)
                            ++ [SyncIsValid r control])
  ∧ (∀ order (m : Machine Directive.Directive) pre r post,
     let d := this m in
     let control := Directive.validationControl d in
     Dir_syncRules d = pre ++ r :: post →
     Forall (sync_returns control) pre →
     sync_throws control r →
     ∃ m', Directive.validate order m = (m', None)
       ∧ Directive._valid (this m') = Directive._valid d
       ∧ Directive.feedback (this m')
         = Some (SynchronousValidationRule.getFeedback <$>
                   filter (sync_fails control) pre)
       ∧ calls m' = calls m ++ double_calls control true pre
                            ++ [SyncIsValid r control]).
Proof.
  split; intros order m pre r post d control Hrules Hpre Hr.
  - eexists. split; [by apply (Rx_validate_sync_throw order m pre r post)|]. done.
  - eexists. split; [by apply (Dir_validate_sync_throw order m pre r post)|]. done.
Qed.

(** The library's required rule on a directive that has no control bound:
    reading [control.value] throws. *)
Lemma sync_predicate_fault_propagates_witness :
  (let m := boot (RxDirective.set_formControl None
                    (Rx_configured [silent_rule; RequiredValidationRule.rule;
                                    EmailStructureValidationRule.rule]
                       [name_is_free] (sample_control VNull))) in
   let control := RxDirective.formControl (this m) in
   Rx_syncRules (this m)
   = [silent_rule] ++ RequiredValidationRule.rule :: [EmailStructureValidationRule.rule]
   ∧ Forall (sync_returns control) [silent_rule]
   ∧ sync_throws control RequiredValidationRule.rule
   ∧ ∃ m', RxDirective.validate [0] m = (m', None)
       ∧ RxDirective._valid (this m') = false
       ∧ RxDirective.feedback (this m') = Some []
       ∧ calls m' = [SyncIsValid silent_rule None;
                     SyncIsValid RequiredValidationRule.rule None])
  ∧ (let m := boot (Dir_configured [silent_rule; throwing_rule; RequiredValidationRule.rule]
                      [name_is_free] (sample_control VNull)) in
     let control := Directive.validationControl (this m) in
     Dir_syncRules (this m) = [silent_rule] ++ throwing_rule :: [RequiredValidationRule.rule]
     ∧ Forall (sync_returns control) [silent_rule]
     ∧ sync_throws control throwing_rule
     ∧ ∃ m', Directive.validate [0] m = (m', None)
         ∧ Directive._valid (this m') = false
         ∧ Directive.feedback (this m') = Some [None]
         ∧ calls m' = [SyncIsValid silent_rule control;
                       SyncIsValid silent_rule control;
                       SyncIsValid throwing_rule control]).
Proof.
  split.
  - intros m control.
    assert (Forall (sync_returns control) [silent_rule]) as H1
      by (repeat constructor; by eexists).
    split_and!; [reflexivity|exact H1|reflexivity|].
    exact (proj1 sync_predicate_fault_propagates [0] m
             [silent_rule] RequiredValidationRule.rule
             [EmailStructureValidationRule.rule] eq_refl H1 eq_refl).
  - intros m control.
    assert (Forall (sync_returns control) [silent_rule]) as H1
      by (repeat constructor; by eexists).
    split_and!; [reflexivity|exact H1|reflexivity|].
    exact (proj2 sync_predicate_fault_propagates [0] m
             [silent_rule] throwing_rule
             [RequiredValidationRule.rule] eq_refl H1 eq_refl).
Defined.

(** X4.  An asynchronous rule whose call throws before it hands back a
    promise is not caught either: the [catch] handler hangs on the
    combined promise, which is never built.  The pass throws, the rules
    after it are not invoked, [_valid] keeps the value it had and
    [feedback] is left empty; no generic message is written.  Both
    directives. *)
Theorem async_call_fault_propagates :
  (∀ order (m : Machine RxDirective.Directive) pre r post,
     let d := this m in
     let control := RxDirective.formControl d in
     Forall (λ r, SynchronousValidationRule.isValid r control = Some true) (Rx_syncRules d) →
     Rx_asyncRules d = pre ++ r :: post →
     Forall (async_returns control) pre →
     async_throws control r →
     ∃ m', RxDirective.validate order m = (m', None)
       ∧ RxDirective._valid (this m') = RxDirective._valid d
       ∧ RxDirective.feedback (this m') = Some []
       ∧ calls m' = calls m ++ ((λ r, SyncIsValid r control) <$> Rx_syncRules d)
                            ++ ((λ r, AsyncIsValid r control) <$> pre)
                            ++ [AsyncIsValid r control])
  ∧ (∀ order (m : Machine Directive.Directive) pre r post,
     let d := this m in
     let control := Directive.validationControl d in
     Forall (λ r, SynchronousValidationRule.isValid r control = Some true) (Dir_syncRules d) →
     Dir_asyncRules d = pre ++ r :: post →
     Forall (async_returns control) pre →
     async_throws control r →
     ∃ m', Directive.validate order m = (m', None)
       ∧ Directive._valid (this m') = Directive._valid d
       ∧ Directive.feedback (this m') = Some []
       ∧ calls m' = calls m ++ double_calls control true (Dir_syncRules d)
                            ++ ((λ r, AsyncIsValid r control) <$> pre)
                            ++ [AsyncIsValid r control]).
Proof.
  split; intros order m pre r post d control Hsync Hrules Hpre Hr.
  - eexists. split; [by apply (Rx_validate_async_throw order m pre r post)|]. done.
  - eexists. split; [by apply (Dir_validate_async_throw order m pre r post)|]. done.
Qed.

Lemma async_call_fault_propagates_witness :
  (let m := boot (Rx_configured [RequiredValidationRule.rule]
                    [name_is_free; throwing_async_rule; lookup_breaks]
                    (sample_control (VString "ada"))) in
   let control := RxDirective.formControl (this m) in
   Forall (λ r, SynchronousValidationRule.isValid r control = Some true) (Rx_syncRules (this m))
   ∧ Rx_asyncRules (this m) = [name_is_free] ++ throwing_async_rule :: [lookup_breaks]
   ∧ Forall (async_returns control) [name_is_free]
   ∧ async_throws control throwing_async_rule
   ∧ ∃ m', RxDirective.validate [0; 1; 2] m = (m', None)
       ∧ RxDirective._valid (this m') = false
       ∧ RxDirective.feedback (this m') = Some []
       ∧ calls m' = [SyncIsValid RequiredValidationRule.rule control;
                     AsyncIsValid name_is_free control;
                     AsyncIsValid throwing_async_rule control])
  ∧ (let m := boot (Dir_configured [RequiredValidationRule.rule]
                      [name_is_free; throwing_async_rule; lookup_breaks]
                      (sample_control (VString "ada"))) in
     let control := Directive.validationControl (this m) in
     Forall (λ r, SynchronousValidationRule.isValid r control = Some true) (Dir_syncRules (this m))
     ∧ Dir_asyncRules (this m) = [name_is_free] ++ throwing_async_rule :: [lookup_breaks]
     ∧ Forall (async_returns control) [name_is_free]
     ∧ async_throws control throwing_async_rule
     ∧ ∃ m', Directive.validate [0; 1; 2] m = (m', None)
         ∧ Directive._valid (this m') = false
         ∧ Directive.feedback (this m') = Some []
         ∧ calls m' = [SyncIsValid RequiredValidationRule.rule control;
                       SyncIsValid RequiredValidationRule.rule control;
                       AsyncIsValid name_is_free control;
                       AsyncIsValid throwing_async_rule control]).
Proof.
  split; intros m control.
  - assert (Forall (λ r, SynchronousValidationRule.isValid r control = Some true)
              (Rx_syncRules (this m))) as H1 by (by repeat constructor).
    assert (Forall (async_returns control) [name_is_free]) as H2
      by (repeat constructor; by eexists).
    split_and!; [exact H1|reflexivity|exact H2|reflexivity|].
    exact (proj1 async_call_fault_propagates [0; 1; 2] m
             [name_is_free] throwing_async_rule [lookup_breaks] H1 eq_refl H2 eq_refl).
  - assert (Forall (λ r, SynchronousValidationRule.isValid r control = Some true)
              (Dir_syncRules (this m))) as H1 by (by repeat constructor).
    assert (Forall (async_returns control) [name_is_free]) as H2
      by (repeat constructor; by eexists).
    split_and!; [exact H1|reflexivity|exact H2|reflexivity|].
    exact (proj2 async_call_fault_propagates [0; 1; 2] m
             [name_is_free] throwing_async_rule [lookup_breaks] H1 eq_refl H2 eq_refl).
Defined.

Lemma merge_feedback_all_pass rules : ∀ results,
  forallb id results = true → merge_feedback rules results = [].
Proof.
  unfold merge_feedback.
  induction rules as [|r rules IH]; intros [|b results] Hall; try done.
  simpl in Hall. apply andb_prop in Hall as [Hb Hall]. unfold id in Hb. subst b.
  cbn [zip zip_with omap list_omap snd]. by apply IH.
Qed.

Lemma merge_descriptions_all_pass rules : ∀ results,
  forallb id results = true → merge_descriptions rules results = [].
Proof.
  unfold merge_descriptions.
  induction rules as [|r rules IH]; intros [|b results] Hall; try done.
  simpl in Hall. apply andb_prop in Hall as [Hb Hall]. unfold id in Hb. subst b.
  cbn [zip zip_with omap list_omap snd]. by apply IH.
Qed.

Lemma Rx_verdict_valid order d :
  RxDirective._valid (Rx_verdict order d) = true →
  RxDirective.feedback (Rx_verdict order d) = Some []
  ∧ forallb (sync_passes (RxDirective.formControl d)) (Rx_syncRules d) = true.
Proof.
  unfold Rx_verdict.
  destruct (forallb _ (Rx_syncRules d)) eqn:Hall; [|by destruct d].
  destruct (Promise_all _ _) as [|results|]; destruct d; simpl; try done.
  intros H. by rewrite merge_feedback_all_pass.
Qed.

Lemma Dir_verdict_valid order d :
  Directive._valid (Dir_verdict order d) = true →
  Directive.feedback (Dir_verdict order d) = Some []
  ∧ forallb (sync_passes (Directive.validationControl d)) (Dir_syncRules d) = true.
Proof.
  unfold Dir_verdict.
  destruct (forallb _ (Dir_syncRules d)) eqn:Hall; [|by destruct d].
  destruct (Promise_all _ _) as [|results|]; destruct d; simpl; try done.
  intros H. by rewrite merge_descriptions_all_pass.
Qed.

Lemma Rx_validate_throws order (m : Machine RxDirective.Directive) :
  let d := this m in
  let control := RxDirective.formControl d in
  ¬ (Forall (sync_returns control) (Rx_syncRules d)
     ∧ (forallb (sync_passes control) (Rx_syncRules d) = true →
        Forall (async_returns control) (Rx_asyncRules d))) →
  (RxDirective.validate order m).2 = None.
Proof.
  intros d control Hnot.
  destruct (decide (Forall (λ r, is_Some (SynchronousValidationRule.isValid r control))
                      (Rx_syncRules d))) as [Hsync|Hsync].
  - destruct (forallb (sync_passes control) (Rx_syncRules d)) eqn:Hall;
      [|destruct Hnot; by split].
    destruct (decide (Forall (λ r, is_Some (AsynchronousValidationRule.isValid r control))
                        (Rx_asyncRules d))) as [Hasync|Hasync];
      [destruct Hnot; by split|].
    apply first_async_throw in Hasync as (pre & r & post & Hrules & Hpre & Hr).
    apply forallb_sync_passes_true in Hall.
    by rewrite (Rx_validate_async_throw order m pre r post).
  - apply first_sync_throw in Hsync as (pre & r & post & Hrules & Hpre & Hr).
    by rewrite (Rx_validate_sync_throw order m pre r post).
Qed.

Lemma Dir_validate_throws order (m : Machine Directive.Directive) :
  let d := this m in
  let control := Directive.validationControl d in
  ¬ (Forall (sync_returns control) (Dir_syncRules d)
     ∧ (forallb (sync_passes control) (Dir_syncRules d) = true →
        Forall (async_returns control) (Dir_asyncRules d))) →
  (Directive.validate order m).2 = None.
Proof.
  intros d control Hnot.
  destruct (decide (Forall (λ r, is_Some (SynchronousValidationRule.isValid r control))
                      (Dir_syncRules d))) as [Hsync|Hsync].
  - destruct (forallb (sync_passes control) (Dir_syncRules d)) eqn:Hall;
      [|destruct Hnot; by split].
    destruct (decide (Forall (λ r, is_Some (AsynchronousValidationRule.isValid r control))
                        (Dir_asyncRules d))) as [Hasync|Hasync];
      [destruct Hnot; by split|].
    apply first_async_throw in Hasync as (pre & r & post & Hrules & Hpre & Hr).
    apply forallb_sync_passes_true in Hall.
    by rewrite (Dir_validate_async_throw order m pre r post).
  - apply first_sync_throw in Hsync as (pre & r & post & Hrules & Hpre & Hr).
    by rewrite (Dir_validate_sync_throw order m pre r post).
Qed.

Lemma Rx_validate_returned order (m m' : Machine RxDirective.Directive) :
  RxDirective.validate order m = (m', Some tt) →
  this m' = Rx_verdict order (this m).
Proof.
  intros Hrun.
  set (control := RxDirective.formControl (this m)).
  destruct (decide (Forall (λ r, is_Some (SynchronousValidationRule.isValid r control))
                      (Rx_syncRules (this m))
                    ∧ (forallb (sync_passes control) (Rx_syncRules (this m)) = true →
                       Forall (λ r, is_Some (AsynchronousValidationRule.isValid r control))
                         (Rx_asyncRules (this m))))) as [[H1 H2]|Hnot].
  - rewrite (Rx_validate_verdict order m H1 H2) in Hrun. by injection Hrun as <-.
  - apply (Rx_validate_throws order m) in Hnot. by rewrite Hrun in Hnot.
Qed.

Lemma Dir_validate_returned order (m m' : Machine Directive.Directive) :
  Directive.validate order m = (m', Some tt) →
  this m' = Dir_verdict order (this m).
Proof.
  intros Hrun.
  set (control := Directive.validationControl (this m)).
  destruct (decide (Forall (λ r, is_Some (SynchronousValidationRule.isValid r control))
                      (Dir_syncRules (this m))
                    ∧ (forallb (sync_passes control) (Dir_syncRules (this m)) = true →
                       Forall (λ r, is_Some (AsynchronousValidationRule.isValid r control))
                         (Dir_asyncRules (this m))))) as [[H1 H2]|Hnot].
  - rewrite (Dir_validate_verdict order m H1 H2) in Hrun. by injection Hrun as <-.
  - apply (Dir_validate_throws order m) in Hnot. by rewrite Hrun in Hnot.
Qed.

(** X1.  A pass of [validate] in [informative-validator-rules.ts] returns
    exactly when every synchronous predicate returns and, if they all
    pass, every asynchronous rule hands back a promise; otherwise it
    throws.  When it returns it leaves the directive in the state
    [Rx_verdict] computes from the rules, the control and the settlement
    order, and it has invoked every synchronous rule once, in rule order,
    followed, if those all passed, by every asynchronous rule once, in rule
    order. *)
Theorem Rx_validate_computes_verdict order (m : Machine RxDirective.Directive) :
  let d := this m in
  let control := RxDirective.formControl d in
  let returns :=
    Forall (sync_returns control) (Rx_syncRules d)
    ∧ (forallb (sync_passes control) (Rx_syncRules d) = true →
       Forall (async_returns control) (Rx_asyncRules d)) in
  (returns →
   RxDirective.validate order m =
     ({| this := Rx_verdict order d;
         calls := calls m ++ ((λ r, SyncIsValid r control) <$> Rx_syncRules d)
                          ++ (if forallb (sync_passes control) (Rx_syncRules d)
                              then (λ r, AsyncIsValid r control) <$> Rx_asyncRules d
                              else []);
         now := now m; timers := timers m; emitted := emitted m |},
      Some tt))
  ∧ (¬ returns → (RxDirective.validate order m).2 = None).
Proof.
  intros d control returns. split.
  - intros [H1 H2]. by apply Rx_validate_verdict.
  - apply Rx_validate_throws.
Qed.

Lemma Rx_validate_computes_verdict_witness :
  let m := boot (Rx_configured [RequiredValidationRule.rule; EmailStructureValidationRule.rule]
                   [name_is_free] (sample_control (VString "ada@example.org"))) in
  let control := RxDirective.formControl (this m) in
  (Forall (sync_returns control) (Rx_syncRules (this m))
   ∧ (forallb (sync_passes control) (Rx_syncRules (this m)) = true →
      Forall (async_returns control) (Rx_asyncRules (this m))))
  ∧ RxDirective.validate [0] m =
      ({| this := Rx_verdict [0] (this m);
          calls := [SyncIsValid RequiredValidationRule.rule control;
                    SyncIsValid EmailStructureValidationRule.rule control;
                    AsyncIsValid name_is_free control];
          now := 0; timers := []; emitted := [] |},
       Some tt)
  ∧ RxDirective.feedback (Rx_verdict [0] (this m)) = Some ["This name is taken"]
  ∧ RxDirective._valid (Rx_verdict [0] (this m)) = false.
Proof.
  intros m control.
  assert (Forall (sync_returns control) (Rx_syncRules (this m))
          ∧ (forallb (sync_passes control) (Rx_syncRules (this m)) = true →
             Forall (async_returns control) (Rx_asyncRules (this m)))) as H
    by (split; [|intros _]; repeat constructor; by eexists).
  split; [exact H|]. split_and!; [|vm_compute; reflexivity..].
  exact (proj1 (Rx_validate_computes_verdict [0] m) H).
Defined.

(** X2.  The same for [validate] of [informative-validator.directive.ts],
    with [Dir_verdict]: the feedback of failing asynchronous rules is their
    description there, a failing synchronous rule has its feedback
    collected whether [null] or not, and the synchronous predicates are
    invoked as [double_calls] says: once, and once more while no rule
    has failed. *)
Theorem Dir_validate_computes_verdict order (m : Machine Directive.Directive) :
  let d := this m in
  let control := Directive.validationControl d in
  let returns :=
    Forall (sync_returns control) (Dir_syncRules d)
    ∧ (forallb (sync_passes control) (Dir_syncRules d) = true →
       Forall (async_returns control) (Dir_asyncRules d)) in
  (returns →
   Directive.validate order m =
     ({| this := Dir_verdict order d;
         calls := calls m ++ double_calls control true (Dir_syncRules d)
                          ++ (if forallb (sync_passes control) (Dir_syncRules d)
                              then (λ r, AsyncIsValid r control) <$> Dir_asyncRules d
                              else []);
         now := now m; timers := timers m; emitted := emitted m |},
      Some tt))
  ∧ (¬ returns → (Directive.validate order m).2 = None).
Proof.
  intros d control returns. split.
  - intros [H1 H2]. by apply Dir_validate_verdict.
  - apply Dir_validate_throws.
Qed.

Lemma Dir_validate_computes_verdict_witness :
  let m := boot (Dir_configured [RequiredValidationRule.rule; EmailStructureValidationRule.rule]
                   [name_is_free] (sample_control (VString "ada@example.org"))) in
  let control := Directive.validationControl (this m) in
  (Forall (sync_returns control) (Dir_syncRules (this m))
   ∧ (forallb (sync_passes control) (Dir_syncRules (this m)) = true →
      Forall (async_returns control) (Dir_asyncRules (this m))))
  ∧ Directive.validate [0] m =
      ({| this := Dir_verdict [0] (this m);
          calls := [SyncIsValid RequiredValidationRule.rule control;
                    SyncIsValid RequiredValidationRule.rule control;
                    SyncIsValid EmailStructureValidationRule.rule control;
                    SyncIsValid EmailStructureValidationRule.rule control;
                    AsyncIsValid name_is_free control];
          now := 0; timers := []; emitted := [] |},
       Some tt)
  ∧ Directive.feedback (Dir_verdict [0] (this m)) = Some [Some "Must be unique"].
Proof.
  intros m control.
  assert (Forall (sync_returns control) (Dir_syncRules (this m))
          ∧ (forallb (sync_passes control) (Dir_syncRules (this m)) = true →
             Forall (async_returns control) (Dir_asyncRules (this m)))) as H
    by (split; [|intros _]; repeat constructor; by eexists).
  split; [exact H|]. split_and!; [|vm_compute; reflexivity].
  exact (proj1 (Dir_validate_computes_verdict [0] m) H).
Defined.

(** X5.  One pass taken on its own, with predicates that answer as
    functions of the control (the same answer each time they are called
    on it): if the pass returns with [_valid] true, the feedback it
    leaves is empty.  Both directives. *)
Theorem valid_verdict_has_no_feedback :
  (∀ order (m m' : Machine RxDirective.Directive),
     RxDirective.validate order m = (m', Some tt) →
     RxDirective._valid (this m') = true →
     RxDirective.feedback (this m') = Some [])
  ∧ (∀ order (m m' : Machine Directive.Directive),
     Directive.validate order m = (m', Some tt) →
     Directive._valid (this m') = true →
     Directive.feedback (this m') = Some []).
Proof.
  split; intros order m m' Hrun Hvalid.
  - apply Rx_validate_returned in Hrun. rewrite Hrun in *.
    by apply Rx_verdict_valid.
  - apply Dir_validate_returned in Hrun. rewrite Hrun in *.
    by apply Dir_verdict_valid.
Qed.

Lemma valid_verdict_has_no_feedback_witness :
  (let m := boot (Rx_configured [RequiredValidationRule.rule; EmailStructureValidationRule.rule]
                    [async_rule (Some "Must be unique") (Some "This name is taken") (Fulfilled true)]
                    (sample_control (VString "grace@example.org"))) in
   ∃ m', RxDirective.validate [0] m = (m', Some tt)
     ∧ RxDirective._valid (this m') = true
     ∧ RxDirective.feedback (this m') = Some [])
  ∧ (let m := boot (Dir_configured [RequiredValidationRule.rule; EmailStructureValidationRule.rule]
                      [async_rule (Some "Must be unique") (Some "This name is taken") (Fulfilled true)]
                    (sample_control (VString "grace@example.org"))) in
     ∃ m', Directive.validate [0] m = (m', Some tt)
       ∧ Directive._valid (this m') = true
       ∧ Directive.feedback (this m') = Some []).
Proof.
  split; intros m.
  - assert (∃ m', RxDirective.validate [0] m = (m', Some tt)
                  ∧ RxDirective._valid (this m') = true) as (m' & Hrun & Hvalid)
      by (eexists; split; vm_compute; reflexivity).
    exists m'. split_and!; [done..|].
    exact (proj1 valid_verdict_has_no_feedback [0] m m' Hrun Hvalid).
  - assert (∃ m', Directive.validate [0] m = (m', Some tt)
                  ∧ Directive._valid (this m') = true) as (m' & Hrun & Hvalid)
      by (eexists; split; vm_compute; reflexivity).
    exists m'. split_and!; [done..|].
    exact (proj2 valid_verdict_has_no_feedback [0] m m' Hrun Hvalid).
Defined.

Lemma Rx_verdict_inputs order d :
  RxDirective.formControl (Rx_verdict order d) = RxDirective.formControl d
  ∧ Rx_syncRules (Rx_verdict order d) = Rx_syncRules d
  ∧ Rx_asyncRules (Rx_verdict order d) = Rx_asyncRules d.
Proof.
  unfold Rx_verdict.
  destruct (forallb _ (Rx_syncRules d)); [destruct (Promise_all _ _)|];
    by destruct d.
Qed.

Lemma Dir_verdict_inputs order d :
  Directive.validationControl (Dir_verdict order d) = Directive.validationControl d
  ∧ Dir_syncRules (Dir_verdict order d) = Dir_syncRules d
  ∧ Dir_asyncRules (Dir_verdict order d) = Dir_asyncRules d.
Proof.
  unfold Dir_verdict.
  destruct (forallb _ (Dir_syncRules d)); [destruct (Promise_all _ _)|];
    by destruct d.
Qed.

Lemma Rx_verdict_idem order d :
  Rx_verdict order (Rx_verdict order d) = Rx_verdict order d.
Proof.
  destruct (Rx_verdict_inputs order d) as (Hc & Hs & Ha).
  unfold Rx_verdict at 1. rewrite Hc, Hs, Ha. unfold Rx_verdict.
  destruct (forallb _ (Rx_syncRules d)); [destruct (Promise_all _ _)|];
    by destruct d.
Qed.

Lemma Dir_verdict_idem order d :
  Dir_verdict order (Dir_verdict order d) = Dir_verdict order d.
Proof.
  destruct (Dir_verdict_inputs order d) as (Hc & Hs & Ha).
  unfold Dir_verdict at 1. rewrite Hc, Hs, Ha. unfold Dir_verdict.
  destruct (forallb _ (Dir_syncRules d)); [destruct (Promise_all _ _)|];
    by destruct d.
Qed.

Lemma Rx_validate_again order (m m' : Machine RxDirective.Directive) :
  RxDirective.validate order m = (m', Some tt) →
  ∃ m'', RxDirective.validate order m' = (m'', Some tt) ∧ this m'' = this m'.
Proof.
  intros Hrun. pose proof (Rx_validate_returned _ _ _ Hrun) as Hthis.
  set (control := RxDirective.formControl (this m)).
  destruct (decide (Forall (λ r, is_Some (SynchronousValidationRule.isValid r control))
                      (Rx_syncRules (this m))
                    ∧ (forallb (sync_passes control) (Rx_syncRules (this m)) = true →
                       Forall (λ r, is_Some (AsynchronousValidationRule.isValid r control))
                         (Rx_asyncRules (this m))))) as [[H1 H2]|Hnot].
  2: { apply (Rx_validate_throws order m) in Hnot. by rewrite Hrun in Hnot. }
  destruct (Rx_verdict_inputs order (this m)) as (Hc & Hs & Ha).
  eexists. split.
  - apply Rx_validate_verdict; rewrite Hthis, ?Hc, ?Hs, ?Ha; done.
  - cbn [this]. by rewrite Hthis, Rx_verdict_idem.
Qed.

Lemma Dir_validate_again order (m m' : Machine Directive.Directive) :
  Directive.validate order m = (m', Some tt) →
  ∃ m'', Directive.validate order m' = (m'', Some tt) ∧ this m'' = this m'.
Proof.
  intros Hrun. pose proof (Dir_validate_returned _ _ _ Hrun) as Hthis.
  set (control := Directive.validationControl (this m)).
  destruct (decide (Forall (λ r, is_Some (SynchronousValidationRule.isValid r control))
                      (Dir_syncRules (this m))
                    ∧ (forallb (sync_passes control) (Dir_syncRules (this m)) = true →
                       Forall (λ r, is_Some (AsynchronousValidationRule.isValid r control))
                         (Dir_asyncRules (this m))))) as [[H1 H2]|Hnot].
  2: { apply (Dir_validate_throws order m) in Hnot. by rewrite Hrun in Hnot. }
  destruct (Dir_verdict_inputs order (this m)) as (Hc & Hs & Ha).
  eexists. split.
  - apply Dir_validate_verdict; rewrite Hthis, ?Hc, ?Hs, ?Ha; done.
  - cbn [this]. by rewrite Hthis, Dir_verdict_idem.
Qed.

(** X6.  A pass is idempotent on the directive: run again on the state a
    returning pass left, with the promises settling in the same order,
    [validate] returns again and leaves every field of the directive as
    it found it.  The feedback is rebuilt from scratch, not appended to.
    Both directives. *)
Theorem validate_idempotent :
  (∀ order (m m' : Machine RxDirective.Directive),
     RxDirective.validate order m = (m', Some tt) →
     ∃ m'', RxDirective.validate order m' = (m'', Some tt) ∧ this m'' = this m')
  ∧ (∀ order (m m' : Machine Directive.Directive),
     Directive.validate order m = (m', Some tt) →
     ∃ m'', Directive.validate order m' = (m'', Some tt) ∧ this m'' = this m').
Proof.
  split; intros order m m'.
  - apply Rx_validate_again.
  - apply Dir_validate_again.
Qed.

Lemma validate_idempotent_witness :
  (let m := boot (Rx_configured [RequiredValidationRule.rule; EmailStructureValidationRule.rule]
                    [name_is_free] (sample_control (VString "ada@example.org"))) in
   ∃ m', RxDirective.validate [0] m = (m', Some tt)
     ∧ RxDirective.feedback (this m') = Some ["This name is taken"]
     ∧ ∃ m'', RxDirective.validate [0] m' = (m'', Some tt) ∧ this m'' = this m')
  ∧ (let m := boot (Dir_configured [RequiredValidationRule.rule; silent_rule]
                      [name_is_free] (sample_control (VString ""))) in
     ∃ m', Directive.validate [0] m = (m', Some tt)
       ∧ Directive.feedback (this m') = Some [Some "You have not provided this item"; None]
       ∧ ∃ m'', Directive.validate [0] m' = (m'', Some tt) ∧ this m'' = this m').
Proof.
  split; intros m.
  - assert (∃ m', RxDirective.validate [0] m = (m', Some tt)) as [m' Hrun]
      by (eexists; vm_compute; reflexivity).
    exists m'. split_and!; [done| |].
    + vm_compute in Hrun. by injection Hrun as <-.
    + exact (proj1 validate_idempotent [0] m m' Hrun).
  - assert (∃ m', Directive.validate [0] m = (m', Some tt)) as [m' Hrun]
      by (eexists; vm_compute; reflexivity).
    exists m'. split_and!; [done| |].
    + vm_compute in Hrun. by injection Hrun as <-.
    + exact (proj2 validate_idempotent [0] m m' Hrun).
Defined.

(** X7.  After any call of [validate], whether it returns or throws,
    [feedback] holds an array: it is [null] only on a directive no pass
    has yet run on.  Both directives. *)
Theorem validate_feedback_never_null :
  (∀ order (m : Machine RxDirective.Directive),
     is_Some (RxDirective.feedback (this (RxDirective.validate order m).1)))
  ∧ (∀ order (m : Machine Directive.Directive),
     is_Some (Directive.feedback (this (Directive.validate order m).1))).
Proof.
  split; intros order m.
  - set (control := RxDirective.formControl (this m)).
    destruct (decide (Forall (λ r, is_Some (SynchronousValidationRule.isValid r control))
                        (Rx_syncRules (this m)))) as [Hsync|Hsync].
    2: { apply first_sync_throw in Hsync as (pre & r & post & Hrules & Hpre & Hr).
         rewrite (Rx_validate_sync_throw order m pre r post) by done.
         cbn [fst this]. by destruct (this m). }
    destruct (decide (forallb (sync_passes control) (Rx_syncRules (this m)) = true →
                      Forall (λ r, is_Some (AsynchronousValidationRule.isValid r control))
                        (Rx_asyncRules (this m)))) as [Hasync|Hasync].
    + rewrite (Rx_validate_verdict order m Hsync Hasync). cbn [fst this].
      unfold Rx_verdict.
      destruct (forallb _ (Rx_syncRules (this m))); [destruct (Promise_all _ _)|];
        by destruct (this m).
    + destruct (forallb (sync_passes control) (Rx_syncRules (this m))) eqn:Hall;
        [|by destruct Hasync].
      assert (¬ Forall (λ r, is_Some (AsynchronousValidationRule.isValid r control))
                (Rx_asyncRules (this m))) as Hnot by (intros H; by apply Hasync).
      apply first_async_throw in Hnot as (pre & r & post & Hrules & Hpre & Hr).
      apply forallb_sync_passes_true in Hall.
      rewrite (Rx_validate_async_throw order m pre r post) by done.
      cbn [fst this]. by destruct (this m).
  - set (control := Directive.validationControl (this m)).
    destruct (decide (Forall (λ r, is_Some (SynchronousValidationRule.isValid r control))
                        (Dir_syncRules (this m)))) as [Hsync|Hsync].
    2: { apply first_sync_throw in Hsync as (pre & r & post & Hrules & Hpre & Hr).
         rewrite (Dir_validate_sync_throw order m pre r post) by done.
         cbn [fst this]. by destruct (this m). }
    destruct (decide (forallb (sync_passes control) (Dir_syncRules (this m)) = true →
                      Forall (λ r, is_Some (AsynchronousValidationRule.isValid r control))
                        (Dir_asyncRules (this m)))) as [Hasync|Hasync].
    + rewrite (Dir_validate_verdict order m Hsync Hasync). cbn [fst this].
      unfold Dir_verdict.
      destruct (forallb _ (Dir_syncRules (this m))); [destruct (Promise_all _ _)|];
        by destruct (this m).
    + destruct (forallb (sync_passes control) (Dir_syncRules (this m))) eqn:Hall;
        [|by destruct Hasync].
      assert (¬ Forall (λ r, is_Some (AsynchronousValidationRule.isValid r control))
                (Dir_asyncRules (this m))) as Hnot by (intros H; by apply Hasync).
      apply first_async_throw in Hnot as (pre & r & post & Hrules & Hpre & Hr).
      apply forallb_sync_passes_true in Hall.
      rewrite (Dir_validate_async_throw order m pre r post) by done.
      cbn [fst this]. by destruct (this m).
Qed.

(* ================================================================== *)
(** * Further properties: the rules shipped with the library *)
(* ================================================================== *)

Lemma pretty_N_go_nonempty x s : s ≠ "" → pretty_N_go x s ≠ "".
Proof.
  revert s. induction (N.lt_wf_0 x) as [x _ IH]; intros s Hs.
  assert (x = 0 ∨ 0 < x)%N as [->|Hx] by lia.
  - by rewrite pretty_N_go_0.
  - rewrite pretty_N_go_step by done. apply IH; [by apply N.div_lt|done].
Qed.

Lemma pretty_Z_nonempty (z : Z) : pretty z ≠ "".
Proof.
  destruct z as [|p|p]; [done| |done].
  unfold pretty, pretty_Z, pretty, pretty_positive, pretty, pretty_N.
  rewrite decide_False by done.
  rewrite pretty_N_go_step by lia. by apply pretty_N_go_nonempty.
Qed.

(** X8.  [RequiredValidationRule.isValid] on the values that are [null],
    [undefined], a string, an integer or a boolean.  It returns on every
    control holding one of them: [false] on [null], on [undefined] and on
    the empty string, [true] on every other string, on every integer and
    on both booleans ([0] and [false] among them).  Handed no control at
    all, it throws.  Arrays and objects, which [control.value] may hold as
    well, are judged by their [toString()] and are not covered. *)
Theorem RequiredValidationRule_isValid :
  RequiredValidationRule.isValid None = None
  ∧ (∀ c, eq_null (value c) = true →
       RequiredValidationRule.isValid (Some c) = Some false)
  ∧ (∀ c s, value c = VString s →
       RequiredValidationRule.isValid (Some c) = Some (negb (bool_decide (s = ""))))
  ∧ (∀ c z, value c = VNumber z →
       RequiredValidationRule.isValid (Some c) = Some true)
  ∧ (∀ c b, value c = VBoolean b →
       RequiredValidationRule.isValid (Some c) = Some true).
Proof.
  unfold RequiredValidationRule.isValid. cbn [mbind option_bind].
  split_and!; [done|..].
  - intros c Hnull. by rewrite Hnull.
  - intros c s ->. cbn [eq_null toString mbind option_bind]. by destruct s.
  - intros c z ->. cbn [eq_null toString mbind option_bind].
    pose proof (pretty_Z_nonempty z) as Hz. by destruct (pretty z).
  - intros c b ->. by destruct b.
Qed.

Lemma RequiredValidationRule_isValid_witness :
  (eq_null (value (sample_control VUndefined)) = true
   ∧ RequiredValidationRule.isValid (Some (sample_control VUndefined)) = Some false)
  ∧ (value (sample_control (VString "")) = VString ""
     ∧ RequiredValidationRule.isValid (Some (sample_control (VString ""))) = Some false)
  ∧ (value (sample_control (VString " ")) = VString " "
     ∧ RequiredValidationRule.isValid (Some (sample_control (VString " "))) = Some true)
  ∧ (value (sample_control (VNumber 0)) = VNumber 0
     ∧ RequiredValidationRule.isValid (Some (sample_control (VNumber 0))) = Some true)
  ∧ (value (sample_control (VBoolean false)) = VBoolean false
     ∧ RequiredValidationRule.isValid (Some (sample_control (VBoolean false))) = Some true).
Proof.
  split_and!.
  - reflexivity.
  - exact (proj1 (proj2 RequiredValidationRule_isValid)
             (sample_control VUndefined) eq_refl).
  - reflexivity.
  - exact (proj1 (proj2 (proj2 RequiredValidationRule_isValid))
             (sample_control (VString "")) "" eq_refl).
  - reflexivity.
  - exact (proj1 (proj2 (proj2 RequiredValidationRule_isValid))
             (sample_control (VString " ")) " " eq_refl).
  - reflexivity.
  - exact (proj1 (proj2 (proj2 (proj2 RequiredValidationRule_isValid)))
             (sample_control (VNumber 0)) 0%Z eq_refl).
  - reflexivity.
  - exact (proj2 (proj2 (proj2 (proj2 RequiredValidationRule_isValid)))
             (sample_control (VBoolean false)) false eq_refl).
Defined.

Lemma Promise_all_nil order : Promise_all order [] = AllFulfilled [].
Proof.
  unfold Promise_all. generalize (eq_refl : outcome (all_init []) = AllFulfilled []).
  generalize (all_init []). induction order as [|k order IH]; intros st Hst; [done|].
  simpl. apply IH. unfold all_settle. by rewrite Hst.
Qed.

Lemma Rx_library_rules order (m : Machine RxDirective.Directive) (c : AbstractControl) :
  Rx_syncRules (this m) = [RequiredValidationRule.rule; EmailStructureValidationRule.rule] →
  Rx_asyncRules (this m) = [] →
  RxDirective.formControl (this m) = Some c →
  match library_verdict (value c) with
  | Some (valid, feedback) =>
      ∃ m', RxDirective.validate order m = (m', Some tt)
        ∧ RxDirective._valid (this m') = valid
        ∧ RxDirective.feedback (this m') = Some feedback
  | None => (RxDirective.validate order m).2 = None
  end.
Proof.
  intros Hs Ha Hc.
  assert (∀ b1 b2,
    RequiredValidationRule.isValid (Some c) = Some b1 →
    EmailStructureValidationRule.isValid (Some c) = Some b2 →
    ∃ m', RxDirective.validate order m = (m', Some tt)
      ∧ RxDirective._valid (this m') = b1 && b2
      ∧ RxDirective.feedback (this m') =
          Some ((if b1 then [] else ["You have not provided this item"])
                ++ (if b2 then [] else ["This email address is invalid"]))) as Hret.
  { intros b1 b2 H1 H2. eexists. split.
    - apply Rx_validate_verdict; rewrite ?Hs, ?Ha, Hc; [|done].
      repeat constructor; by eexists.
    - cbn [this]. unfold Rx_verdict. rewrite Hs, Ha, Hc.
      change (SynchronousValidationRule.isValid RequiredValidationRule.rule (Some c)
              = Some b1) in H1.
      change (SynchronousValidationRule.isValid EmailStructureValidationRule.rule (Some c)
              = Some b2) in H2.
      cbn [forallb]. rewrite (sync_passes_eq _ _ _ H1), (sync_passes_eq _ _ _ H2).
      change (dispatched (Some c) []) with (@nil Settlement).
      rewrite Promise_all_nil, !filter_cons, filter_nil.
      unfold sync_fails in *. repeat case_decide;
        destruct b1, b2; try congruence; by destruct (this m). }
  unfold library_verdict.
  destruct (value c) as [| |s|z|b] eqn:Hv.
  - apply (Hret false true); unfold RequiredValidationRule.isValid,
      EmailStructureValidationRule.isValid; simpl; by rewrite Hv.
  - apply (Hret false true); unfold RequiredValidationRule.isValid,
      EmailStructureValidationRule.isValid; simpl; by rewrite Hv.
  - assert (EmailStructureValidationRule.isValid (Some c)
            = Some (matches EMAIL_PATTERN s)) as He.
    { unfold EmailStructureValidationRule.isValid. simpl. rewrite Hv. simpl.
      by destruct (matches EMAIL_PATTERN s). }
    assert (RequiredValidationRule.isValid (Some c)
            = Some (negb (bool_decide (s = "")))) as Hr.
    { unfold RequiredValidationRule.isValid. simpl. rewrite Hv. simpl.
      by destruct s. }
    destruct (bool_decide (s = "")) eqn:Hempty.
    + apply bool_decide_eq_true in Hempty. subst s.
      by apply (Hret false false).
    + destruct (matches EMAIL_PATTERN s) eqn:Hm.
      * by apply (Hret true true).
      * by apply (Hret true false).
  - rewrite (Rx_validate_sync_throw order m [RequiredValidationRule.rule]
               EmailStructureValidationRule.rule []); [done|done| |].
    + rewrite Hc. repeat constructor. unfold sync_returns; simpl.
      unfold RequiredValidationRule.isValid. simpl. rewrite Hv. by eexists.
    + rewrite Hc. unfold sync_throws; simpl.
      unfold EmailStructureValidationRule.isValid. simpl. by rewrite Hv.
  - rewrite (Rx_validate_sync_throw order m [RequiredValidationRule.rule]
               EmailStructureValidationRule.rule []); [done|done| |].
    + rewrite Hc. repeat constructor. unfold sync_returns; simpl.
      unfold RequiredValidationRule.isValid. simpl. rewrite Hv. destruct b; by eexists.
    + rewrite Hc. unfold sync_throws; simpl.
      unfold EmailStructureValidationRule.isValid. simpl. by rewrite Hv.
Qed.

Lemma Dir_library_rules order (m : Machine Directive.Directive) (c : AbstractControl) :
  Dir_syncRules (this m) = [RequiredValidationRule.rule; EmailStructureValidationRule.rule] →
  Dir_asyncRules (this m) = [] →
  Directive.validationControl (this m) = Some c →
  match library_verdict (value c) with
  | Some (valid, feedback) =>
      ∃ m', Directive.validate order m = (m', Some tt)
        ∧ Directive._valid (this m') = valid
        ∧ Directive.feedback (this m') = Some (Some <$> feedback)
  | None => (Directive.validate order m).2 = None
  end.
Proof.
  intros Hs Ha Hc.
  assert (∀ b1 b2,
    RequiredValidationRule.isValid (Some c) = Some b1 →
    EmailStructureValidationRule.isValid (Some c) = Some b2 →
    ∃ m', Directive.validate order m = (m', Some tt)
      ∧ Directive._valid (this m') = b1 && b2
      ∧ Directive.feedback (this m') =
          Some (Some <$> ((if b1 then [] else ["You have not provided this item"])
                          ++ (if b2 then [] else ["This email address is invalid"])))) as Hret.
  { intros b1 b2 H1 H2. eexists. split.
    - apply Dir_validate_verdict; rewrite ?Hs, ?Ha, Hc; [|done].
      repeat constructor; by eexists.
    - cbn [this]. unfold Dir_verdict. rewrite Hs, Ha, Hc.
      change (SynchronousValidationRule.isValid RequiredValidationRule.rule (Some c)
              = Some b1) in H1.
      change (SynchronousValidationRule.isValid EmailStructureValidationRule.rule (Some c)
              = Some b2) in H2.
      cbn [forallb]. rewrite (sync_passes_eq _ _ _ H1), (sync_passes_eq _ _ _ H2).
      change (dispatched (Some c) []) with (@nil Settlement).
      rewrite Promise_all_nil, !filter_cons, filter_nil.
      unfold sync_fails in *. repeat case_decide;
        destruct b1, b2; try congruence; by destruct (this m). }
  unfold library_verdict.
  destruct (value c) as [| |s|z|b] eqn:Hv.
  - apply (Hret false true); unfold RequiredValidationRule.isValid,
      EmailStructureValidationRule.isValid; simpl; by rewrite Hv.
  - apply (Hret false true); unfold RequiredValidationRule.isValid,
      EmailStructureValidationRule.isValid; simpl; by rewrite Hv.
  - assert (EmailStructureValidationRule.isValid (Some c)
            = Some (matches EMAIL_PATTERN s)) as He.
    { unfold EmailStructureValidationRule.isValid. simpl. rewrite Hv. simpl.
      by destruct (matches EMAIL_PATTERN s). }
    assert (RequiredValidationRule.isValid (Some c)
            = Some (negb (bool_decide (s = "")))) as Hr.
    { unfold RequiredValidationRule.isValid. simpl. rewrite Hv. simpl.
      by destruct s. }
    destruct (bool_decide (s = "")) eqn:Hempty.
    + apply bool_decide_eq_true in Hempty. subst s.
      by apply (Hret false false).
    + destruct (matches EMAIL_PATTERN s) eqn:Hm.
      * by apply (Hret true true).
      * by apply (Hret true false).
  - rewrite (Dir_validate_sync_throw order m [RequiredValidationRule.rule]
               EmailStructureValidationRule.rule []); [done|done| |].
    + rewrite Hc. repeat constructor. unfold sync_returns; simpl.
      unfold RequiredValidationRule.isValid. simpl. rewrite Hv. by eexists.
    + rewrite Hc. unfold sync_throws; simpl.
      unfold EmailStructureValidationRule.isValid. simpl. by rewrite Hv.
  - rewrite (Dir_validate_sync_throw order m [RequiredValidationRule.rule]
               EmailStructureValidationRule.rule []); [done|done| |].
    + rewrite Hc. repeat constructor. unfold sync_returns; simpl.
      unfold RequiredValidationRule.isValid. simpl. rewrite Hv. destruct b; by eexists.
    + rewrite Hc. unfold sync_throws; simpl.
      unfold EmailStructureValidationRule.isValid. simpl. by rewrite Hv.
Qed.

(** X9.  The two rules of the library together, the required rule first
    and no asynchronous rule: on every bound control a pass gives the
    outcome [library_verdict] reads off the value.  [null] and [undefined]
    fail on the required rule alone, the empty string fails on both rules,
    any other string is judged by the e-mail pattern alone, and a number
    or a boolean makes the pass throw, because the e-mail rule calls
    [match] on it.  Both directives. *)
Theorem library_rules_together :
  (∀ order (m : Machine RxDirective.Directive) (c : AbstractControl),
     Rx_syncRules (this m) = [RequiredValidationRule.rule; EmailStructureValidationRule.rule] →
     Rx_asyncRules (this m) = [] →
     RxDirective.formControl (this m) = Some c →
     match library_verdict (value c) with
     | Some (valid, feedback) =>
         ∃ m', RxDirective.validate order m = (m', Some tt)
           ∧ RxDirective._valid (this m') = valid
           ∧ RxDirective.feedback (this m') = Some feedback
     | None => (RxDirective.validate order m).2 = None
     end)
  ∧ (∀ order (m : Machine Directive.Directive) (c : AbstractControl),
     Dir_syncRules (this m) = [RequiredValidationRule.rule; EmailStructureValidationRule.rule] →
     Dir_asyncRules (this m) = [] →
     Directive.validationControl (this m) = Some c →
     match library_verdict (value c) with
     | Some (valid, feedback) =>
         ∃ m', Directive.validate order m = (m', Some tt)
           ∧ Directive._valid (this m') = valid
           ∧ Directive.feedback (this m') = Some (Some <$> feedback)
     | None => (Directive.validate order m).2 = None
     end).
Proof.
  split; intros order m c.
  - apply Rx_library_rules.
  - apply Dir_library_rules.
Qed.

Lemma library_rules_together_witness :
  (let c := sample_control (VNumber 5) in
   let m := boot (Rx_configured
                    [RequiredValidationRule.rule; EmailStructureValidationRule.rule] [] c) in
   Rx_syncRules (this m) = [RequiredValidationRule.rule; EmailStructureValidationRule.rule]
   ∧ Rx_asyncRules (this m) = []
   ∧ RxDirective.formControl (this m) = Some c
   ∧ (RxDirective.validate [] m).2 = None)
  ∧ (let c := sample_control (VString "") in
     let m := boot (Dir_configured
                      [RequiredValidationRule.rule; EmailStructureValidationRule.rule] [] c) in
     Dir_syncRules (this m) = [RequiredValidationRule.rule; EmailStructureValidationRule.rule]
     ∧ Dir_asyncRules (this m) = []
     ∧ Directive.validationControl (this m) = Some c
     ∧ ∃ m', Directive.validate [] m = (m', Some tt)
         ∧ Directive._valid (this m') = false
         ∧ Directive.feedback (this m') =
             Some [Some "You have not provided this item";
                   Some "This email address is invalid"]).
Proof.
  split; intros c m.
  - split_and!; [reflexivity..|].
    exact (proj1 library_rules_together [] m c eq_refl eq_refl eq_refl).
  - split_and!; [reflexivity..|].
    exact (proj2 library_rules_together [] m c eq_refl eq_refl eq_refl).
Defined.

Lemma to_upper_classes a :
  local_class (to_upper a) = local_class a
  ∧ domain_class (to_upper a) = domain_class a
  ∧ is_letter (to_upper a) = is_letter a
  ∧ is_char "@" (to_upper a) = is_char "@" a
  ∧ is_char "." (to_upper a) = is_char "." a.
Proof. destruct a as [[] [] [] [] [] [] [] []]; vm_compute; done. Qed.

Lemma case_blind_EMAIL_PATTERN : case_blind EMAIL_PATTERN.
Proof.
  unfold EMAIL_PATTERN, Plus. cbn [AtLeast].
  repeat constructor; intros a; apply to_upper_classes.
Qed.

Lemma case_blind_deriv r a :
  case_blind r → case_blind (deriv a r) ∧ deriv (to_upper a) r = deriv a r.
Proof.
  induction 1 as [| |p Hp|r1 r2 H1 [IH1 E1] H2 [IH2 E2]
                 |r1 r2 H1 [IH1 E1] H2 [IH2 E2]|r1 H1 [IH1 E1]];
    cbn [deriv]; rewrite ?E1, ?E2, ?Hp.
  - split; [constructor|done].
  - split; [constructor|done].
  - split; [destruct (p a); constructor|done].
  - split; [|done]. destruct (nullable r1); by repeat constructor.
  - split; [by constructor|done].
  - split; [by repeat constructor|done].
Qed.

Lemma matches_upper s : ∀ r, case_blind r → matches r (upper s) = matches r s.
Proof.
  induction s as [|a s IH]; intros r Hr; [done|].
  cbn [upper matches]. destruct (case_blind_deriv r a Hr) as [Hd ->]. by apply IH.
Qed.

(** X10.  The e-mail rule is blind to case: it gives the same answer on a
    string and on the string with its letters [a]-[z] put in upper case. *)
Theorem EmailStructureValidationRule_case_insensitive (c c' : AbstractControl) s :
  value c = VString s →
  value c' = VString (upper s) →
  EmailStructureValidationRule.isValid (Some c')
  = EmailStructureValidationRule.isValid (Some c).
Proof.
  intros Hc Hc'. unfold EmailStructureValidationRule.isValid.
  cbn [mbind option_bind]. rewrite Hc, Hc'. cbn [eq_null match_ mbind option_bind].
  rewrite matches_upper by apply case_blind_EMAIL_PATTERN. 
  by destruct (matches EMAIL_PATTERN s).
Qed.

Lemma EmailStructureValidationRule_case_insensitive_witness :
  value (sample_control (VString "Ada.Lovelace@example.org")) = VString "Ada.Lovelace@example.org"
  ∧ value (sample_control (VString "ADA.LOVELACE@EXAMPLE.ORG"))
    = VString (upper "Ada.Lovelace@example.org")
  ∧ EmailStructureValidationRule.isValid (Some (sample_control (VString "ADA.LOVELACE@EXAMPLE.ORG")))
    = EmailStructureValidationRule.isValid (Some (sample_control (VString "Ada.Lovelace@example.org")))
  ∧ EmailStructureValidationRule.isValid (Some (sample_control (VString "Ada.Lovelace@example.org")))
    = Some true.
Proof.
  split_and!; [reflexivity| reflexivity | |vm_compute; reflexivity].
  exact (EmailStructureValidationRule_case_insensitive
           (sample_control (VString "Ada.Lovelace@example.org"))
           (sample_control (VString "ADA.LOVELACE@EXAMPLE.ORG"))
           "Ada.Lovelace@example.org" eq_refl eq_refl).
Defined.

(* ================================================================== *)
(** * Further properties: the descriptions *)
(* ================================================================== *)

Lemma Rx_describe_sync_loop rules : ∀ (m : Machine RxDirective.Directive) ds,
  RxDirective.descriptions (this m) = Some ds →
  for_of rules tt RxDirective.describe_sync m =
    ({| this := RxDirective.set_descriptions
                  (Some (ds ++ omap SynchronousValidationRule.getDescription rules)) (this m);
        calls := calls m; now := now m; timers := timers m; emitted := emitted m |},
     Some tt).
Proof.
  induction rules as [|r rules IH]; intros [d cs nw tms em] ds Hds; simpl in *.
  - unfold ret. rewrite app_nil_r. by destruct d; simpl in *; subst.
  - unfold bind at 1, RxDirective.describe_sync.
    destruct (SynchronousValidationRule.getDescription r) as [item|].
    + unfold RxDirective.push_description. run. rewrite Hds. simpl.
      rewrite (IH _ (ds ++ [item])) by done. simpl.
      rewrite <- app_assoc. by destruct d.
    + unfold ret. by rewrite (IH _ ds).
Qed.

Lemma Rx_describe_async_loop rules : ∀ (m : Machine RxDirective.Directive) ds,
  RxDirective.descriptions (this m) = Some ds →
  for_of rules tt RxDirective.describe_async m =
    ({| this := RxDirective.set_descriptions
                  (Some (ds ++ omap AsynchronousValidationRule.getDescription rules)) (this m);
        calls := calls m; now := now m; timers := timers m; emitted := emitted m |},
     Some tt).
Proof.
  induction rules as [|r rules IH]; intros [d cs nw tms em] ds Hds; simpl in *.
  - unfold ret. rewrite app_nil_r. by destruct d; simpl in *; subst.
  - unfold bind at 1, RxDirective.describe_async.
    destruct (AsynchronousValidationRule.getDescription r) as [item|].
    + unfold RxDirective.push_description. run. rewrite Hds. simpl.
      rewrite (IH _ (ds ++ [item])) by done. simpl.
      rewrite <- app_assoc. by destruct d.
    + unfold ret. by rewrite (IH _ ds).
Qed.

Lemma Dir_describe_sync_loop rules : ∀ (m : Machine Directive.Directive) ds,
  Directive.descriptions (this m) = Some ds →
  for_of rules tt Directive.describe_sync m =
    ({| this := Directive.set_descriptions
                  (Some (ds ++ (SynchronousValidationRule.getDescription <$> rules))) (this m);
        calls := calls m; now := now m; timers := timers m; emitted := emitted m |},
     Some tt).
Proof.
  induction rules as [|r rules IH]; intros [d cs nw tms em] ds Hds; simpl in *.
  - unfold ret. rewrite app_nil_r. by destruct d; simpl in *; subst.
  - unfold bind at 1, Directive.describe_sync, Directive.push_description. run.
    rewrite Hds. simpl.
    rewrite (IH _ (ds ++ [SynchronousValidationRule.getDescription r])) by done. simpl.
    rewrite <- app_assoc. by destruct d.
Qed.

Lemma Dir_describe_async_loop rules : ∀ (m : Machine Directive.Directive) ds,
  Directive.descriptions (this m) = Some ds →
  for_of rules tt Directive.describe_async m =
    ({| this := Directive.set_descriptions
                  (Some (ds ++ (AsynchronousValidationRule.getDescription <$> rules))) (this m);
        calls := calls m; now := now m; timers := timers m; emitted := emitted m |},
     Some tt).
Proof.
  induction rules as [|r rules IH]; intros [d cs nw tms em] ds Hds; simpl in *.
  - unfold ret. rewrite app_nil_r. by destruct d; simpl in *; subst.
  - unfold bind at 1, Directive.describe_async, Directive.push_description. run.
    rewrite Hds. simpl.
    rewrite (IH _ (ds ++ [AsynchronousValidationRule.getDescription r])) by done. simpl.
    rewrite <- app_assoc. by destruct d.
Qed.

(** X11.  [buildDescriptions] of [informative-validator-rules.ts] never
    throws and invokes no predicate.  It replaces [descriptions], whatever
    it held, by the descriptions of the synchronous rules followed by those
    of the asynchronous rules, each in rule order, leaving out the rules
    whose description is [null]; nothing else changes. *)
Theorem Rx_buildDescriptions (m : Machine RxDirective.Directive) :
  RxDirective.buildDescriptions m =
    ({| this := RxDirective.set_descriptions
                  (Some (omap SynchronousValidationRule.getDescription (Rx_syncRules (this m))
                         ++ omap AsynchronousValidationRule.getDescription
                              (Rx_asyncRules (this m))))
                  (this m);
        calls := calls m; now := now m; timers := timers m; emitted := emitted m |},
     Some tt).
Proof.
  unfold RxDirective.buildDescriptions.
  unfold bind at 1. rewrite Rx_getSyncRules_eq.
  unfold bind at 1. rewrite Rx_getAsyncRules_eq.
  unfold bind at 1, modify at 1. cbn [fst snd].
  unfold bind at 1. rewrite (Rx_describe_sync_loop _ _ []) by (by destruct m as [[] ? ? ? ?]).
  rewrite (Rx_describe_async_loop _ _
             (omap SynchronousValidationRule.getDescription (Rx_syncRules (this m))))
    by (by destruct m as [[] ? ? ? ?]).
  by destruct m as [[] ? ? ? ?].
Qed.

(** X12.  [buildDescriptions] of [informative-validator.directive.ts]
    does the same without the test against [null]: [descriptions] gets one
    entry per rule, the synchronous rules first, and a rule without a
    description contributes a [null] entry. *)
Theorem Dir_buildDescriptions (m : Machine Directive.Directive) :
  Directive.buildDescriptions m =
    ({| this := Directive.set_descriptions
                  (Some ((SynchronousValidationRule.getDescription <$> Dir_syncRules (this m))
                         ++ (AsynchronousValidationRule.getDescription
                               <$> Dir_asyncRules (this m))))
                  (this m);
        calls := calls m; now := now m; timers := timers m; emitted := emitted m |},
     Some tt).
Proof.
  unfold Directive.buildDescriptions.
  unfold bind at 1. rewrite Dir_getSyncRules_eq.
  unfold bind at 1. rewrite Dir_getAsyncRules_eq.
  unfold bind at 1, modify at 1. cbn [fst snd].
  unfold bind at 1. rewrite (Dir_describe_sync_loop _ _ []) by (by destruct m as [[] ? ? ? ?]).
  rewrite (Dir_describe_async_loop _ _
             (SynchronousValidationRule.getDescription <$> Dir_syncRules (this m)))
    by (by destruct m as [[] ? ? ? ?]).
  by destruct m as [[] ? ? ? ?].
Qed.

(* ================================================================== *)
(** * Further properties: a burst of changes *)
(* ================================================================== *)

Lemma fire_app t tms1 tms2 i :
  fire t i (tms1 ++ tms2) =
    ((fire t i tms1).1 ++ (fire t (i + length tms1) tms2).1,
     (fire t i tms1).2 ++ (fire t (i + length tms1) tms2).2).
Proof.
  revert i. induction tms1 as [|tm tms1 IH]; intros i; simpl.
  - rewrite Nat.add_0_r. by destruct (fire t i tms2).
  - rewrite IH. replace (S i + length tms1) with (i + S (length tms1)) by lia.
    destruct (fire t (S i) tms1) as [rest1 out1].
    destruct (fire t (i + S (length tms1)) tms2) as [rest2 out2]. simpl.
    by destruct (is_due t tm).
Qed.

Lemma fire_none_pending t tms i :
  Forall (λ tm, is_pending tm = false) tms → fire t i tms = (tms, []).
Proof.
  intros Hall. revert i. induction Hall as [|tm tms Hp _ IH]; intros i; simpl; [done|].
  rewrite IH. unfold is_due. by rewrite Hp.
Qed.

Lemma unsubscribed_table_none_pending m :
  timer_inv m → Forall (λ tm, is_pending tm = false) (unsubscribed_table m).
Proof.
  intros Hinv. apply Forall_lookup. intros h tm Hh.
  by destruct (unsubscribed_table_lookup m h tm Hinv Hh).
Qed.

(** One change and the time up to the next one. *)
Lemma schedule_then_elapse m callback dt :
  timer_inv m →
  let m' := step (Elapse dt) (step (Schedule callback) m) in
  timer_inv m'
  ∧ length (timers m') = S (length (timers m))
  ∧ emitted m' = emitted m ++
      (if (RxDirective._validationDelay (this m) <=? dt)%N
       then [(length (timers m), callback)] else []).
Proof.
  intros Hinv m'. split; [by do 2 apply step_timer_inv|].
  subst m'. cbn [step]. rewrite waitForInputFinish_eq. cbn [fst].
  unfold elapse. cbn [this calls now timers emitted].
  rewrite fire_app, (fire_none_pending _ (unsubscribed_table m))
    by (by apply unsubscribed_table_none_pending).
  cbn [fst snd fire app is_due is_pending state due next andb].
  rewrite unsubscribed_table_length, Nat.add_0_l.
  assert ((now m + RxDirective._validationDelay (this m) <=? now m + dt)%N
          = (RxDirective._validationDelay (this m) <=? dt)%N) as ->.
  { destruct (N.leb_spec (RxDirective._validationDelay (this m)) dt);
      [apply N.leb_le|apply N.leb_gt]; lia. }
  destruct (_ <=? dt)%N; cbn [this calls now timers emitted];
    rewrite length_app, unsubscribed_table_length; simpl; split; (lia || done).
Qed.

Lemma burst_silent changes : ∀ m,
  timer_inv m →
  Forall (λ change : nat * N, (change.2 < RxDirective._validationDelay (this m))%N) changes →
  let m' := run_actions (burst changes) m in
  timer_inv m'
  ∧ length (timers m') = length (timers m) + length changes
  ∧ emitted m' = emitted m.
Proof.
  induction changes as [|[callback dt] changes IH]; intros m Hinv Hall m'.
  - subst m'. simpl. split_and!; [done|lia|done].
  - apply Forall_cons in Hall as [Hdt Hall]. simpl in Hdt.
    destruct (schedule_then_elapse m callback dt Hinv) as (Hinv1 & Hlen1 & Hem1).
    apply N.leb_gt in Hdt. rewrite Hdt, app_nil_r in Hem1.
    subst m'. cbn [burst flat_map app run_actions foldl fst snd].
    fold (burst changes). fold (run_actions (burst changes)
      (step (Elapse dt) (step (Schedule callback) m))).
    destruct (IH (step (Elapse dt) (step (Schedule callback) m)) Hinv1)
      as (Hinv2 & Hlen2 & Hem2).
    { by rewrite !step_delay. }
    split_and!; [done|rewrite Hlen2, Hlen1; simpl; lia|by rewrite Hem2].
Qed.

(** X13.  A burst of value changes that follow each other more closely
    than the validation delay fires nothing while it lasts; once the last
    change is followed by a pause of at least the delay, its callback runs,
    and it is the only one of the burst to run: one revalidation per
    burst, however long the burst and whatever timers came before. *)
Theorem debounce_burst (m : Machine RxDirective.Directive) changes callback dt :
  timer_inv m →
  Forall (λ change : nat * N, (change.2 < RxDirective._validationDelay (this m))%N) changes →
  (RxDirective._validationDelay (this m) ≤ dt)%N →
  emitted (run_actions (burst changes) m) = emitted m
  ∧ emitted (run_actions (burst changes ++ [Schedule callback; Elapse dt]) m)
    = emitted m ++ [(length (timers m) + length changes, callback)].
Proof.
  intros Hinv Hall Hdt.
  destruct (burst_silent changes m Hinv Hall) as (Hinv1 & Hlen1 & Hem1).
  split; [done|].
  unfold run_actions. rewrite foldl_app. fold (run_actions (burst changes) m).
  cbn [foldl].
  destruct (schedule_then_elapse (run_actions (burst changes) m) callback dt Hinv1)
    as (_ & _ & Hem2).
  rewrite Hem2, run_actions_delay, Hem1, Hlen1.
  apply N.leb_le in Hdt. by rewrite Hdt.
Qed.

Lemma debounce_burst_witness :
  let m := boot (RxDirective.constructor sample_element) in
  let changes := [(1, 100%N); (2, 250%N); (3, 1499%N); (4, 0%N)] in
  timer_inv m
  ∧ Forall (λ change : nat * N, (change.2 < RxDirective._validationDelay (this m))%N) changes
  ∧ (RxDirective._validationDelay (this m) ≤ 1500)%N
  ∧ emitted (run_actions (burst changes) m) = []
  ∧ emitted (run_actions (burst changes ++ [Schedule 5; Elapse 1500]) m) = [(4, 5)].
Proof.
  intros m changes.
  assert (timer_inv m) as H1 by (by apply boot_timer_inv).
  assert (Forall (λ change : nat * N,
            (change.2 < RxDirective._validationDelay (this m))%N) changes) as H2
    by (repeat constructor).
  assert (RxDirective._validationDelay (this m) ≤ 1500)%N as H3 by (simpl; lia).
  split_and!; [exact H1|exact H2|exact H3|..].
  - exact (proj1 (debounce_burst m changes 5 1500%N H1 H2 H3)).
  - exact (proj2 (debounce_burst m changes 5 1500%N H1 H2 H3)).
Defined.

(* ================================================================== *)
(** * Further properties: the race between the promises *)
(* ================================================================== *)

Lemma all_fulfil_or_one_rejects (ps : list Settlement) :
  (∃ k, ps !! k = Some Rejected) ∨ (∃ bs, ps = Fulfilled <$> bs).
Proof.
  induction ps as [|[b|] ps [[k Hk]|[bs ->]]].
  - right. by exists [].
  - left. by exists (S k).
  - right. by exists (b :: bs).
  - left. by exists 0.
  - left. by exists 0.
Qed.

Lemma Promise_all_complete ps order order' :
  (∀ k, k < length ps → k ∈ order) →
  (∀ k, k < length ps → k ∈ order') →
  Promise_all order ps = Promise_all order' ps.
Proof.
  intros Ho Ho'. destruct (all_fulfil_or_one_rejects ps) as [[k Hk]|[bs Hbs]].
  - pose proof (lookup_lt_Some _ _ _ Hk) as Hlt.
    rewrite (Promise_all_rejected ps order k), (Promise_all_rejected ps order' k); auto.
  - by rewrite (Promise_all_fulfilled ps order bs), (Promise_all_fulfilled ps order' bs).
Qed.

Lemma Rx_verdict_complete order order' d :
  (∀ k, k < length (Rx_asyncRules d) → k ∈ order) →
  (∀ k, k < length (Rx_asyncRules d) → k ∈ order') →
  Forall (async_returns (RxDirective.formControl d)) (Rx_asyncRules d) →
  Rx_verdict order d = Rx_verdict order' d.
Proof.
  intros Ho Ho' Hret. unfold Rx_verdict.
  rewrite (Promise_all_complete _ order order');
    rewrite ?dispatched_length by done; done.
Qed.

Lemma Dir_verdict_complete order order' d :
  (∀ k, k < length (Dir_asyncRules d) → k ∈ order) →
  (∀ k, k < length (Dir_asyncRules d) → k ∈ order') →
  Forall (async_returns (Directive.validationControl d)) (Dir_asyncRules d) →
  Dir_verdict order d = Dir_verdict order' d.
Proof.
  intros Ho Ho' Hret. unfold Dir_verdict.
  rewrite (Promise_all_complete _ order order');
    rewrite ?dispatched_length by done; done.
Qed.

Lemma Rx_validate_complete order order' (m : Machine RxDirective.Directive) :
  (∀ k, k < length (Rx_asyncRules (this m)) → k ∈ order) →
  (∀ k, k < length (Rx_asyncRules (this m)) → k ∈ order') →
  RxDirective.validate order m = RxDirective.validate order' m.
Proof.
  intros Ho Ho'. set (control := RxDirective.formControl (this m)).
  destruct (decide (Forall (λ r, is_Some (SynchronousValidationRule.isValid r control))
                      (Rx_syncRules (this m)))) as [Hsync|Hsync].
  2: { apply first_sync_throw in Hsync as (pre & r & post & Hrules & Hpre & Hr).
       by rewrite !(Rx_validate_sync_throw _ m pre r post). }
  destruct (forallb (sync_passes control) (Rx_syncRules (this m))) eqn:Hall.
  - destruct (decide (Forall (λ r, is_Some (AsynchronousValidationRule.isValid r control))
                        (Rx_asyncRules (this m)))) as [Hasync|Hasync].
    + rewrite !Rx_validate_verdict by done.
      by rewrite (Rx_verdict_complete order order').
    + apply first_async_throw in Hasync as (pre & r & post & Hrules & Hpre & Hr).
      apply forallb_sync_passes_true in Hall.
      by rewrite !(Rx_validate_async_throw _ m pre r post).
  - apply forallb_sync_passes_false in Hall; [|done].
    by rewrite !Rx_validate_sync_failure.
Qed.

Lemma Dir_validate_complete order order' (m : Machine Directive.Directive) :
  (∀ k, k < length (Dir_asyncRules (this m)) → k ∈ order) →
  (∀ k, k < length (Dir_asyncRules (this m)) → k ∈ order') →
  Directive.validate order m = Directive.validate order' m.
Proof.
  intros Ho Ho'. set (control := Directive.validationControl (this m)).
  destruct (decide (Forall (λ r, is_Some (SynchronousValidationRule.isValid r control))
                      (Dir_syncRules (this m)))) as [Hsync|Hsync].
  2: { apply first_sync_throw in Hsync as (pre & r & post & Hrules & Hpre & Hr).
       by rewrite !(Dir_validate_sync_throw _ m pre r post). }
  destruct (forallb (sync_passes control) (Dir_syncRules (this m))) eqn:Hall.
  - destruct (decide (Forall (λ r, is_Some (AsynchronousValidationRule.isValid r control))
                        (Dir_asyncRules (this m)))) as [Hasync|Hasync].
    + rewrite !Dir_validate_verdict by done.
      by rewrite (Dir_verdict_complete order order').
    + apply first_async_throw in Hasync as (pre & r & post & Hrules & Hpre & Hr).
      apply forallb_sync_passes_true in Hall.
      by rewrite !(Dir_validate_async_throw _ m pre r post).
  - apply forallb_sync_passes_false in Hall; [|done].
    by rewrite !Dir_validate_sync_failure.
Qed.

(** X14.  The race between the promises does not show: two passes from
    the same state in which every promise settles end in the same state
    and with the same result, whatever the two settlement orders, whether
    promises reject or not, and whether the pass returns or throws.  Both
    directives. *)
Theorem settlement_order_irrelevant :
  (∀ order order' (m : Machine RxDirective.Directive),
     (∀ k, k < length (Rx_asyncRules (this m)) → k ∈ order) →
     (∀ k, k < length (Rx_asyncRules (this m)) → k ∈ order') →
     RxDirective.validate order m = RxDirective.validate order' m)
  ∧ (∀ order order' (m : Machine Directive.Directive),
     (∀ k, k < length (Dir_asyncRules (this m)) → k ∈ order) →
     (∀ k, k < length (Dir_asyncRules (this m)) → k ∈ order') →
     Directive.validate order m = Directive.validate order' m).
Proof.
  split; intros order order' m.
  - apply Rx_validate_complete.
  - apply Dir_validate_complete.
Qed.

Lemma settlement_order_irrelevant_witness :
  (let m := boot (Rx_configured [RequiredValidationRule.rule]
                    [name_is_free; lookup_breaks;
                     async_rule None (Some "Checked") (Fulfilled true)]
                    (sample_control (VString "ada"))) in
   (∀ k, k < length (Rx_asyncRules (this m)) → k ∈ [0; 1; 2])
   ∧ (∀ k, k < length (Rx_asyncRules (this m)) → k ∈ [2; 0; 2; 1; 0])
   ∧ RxDirective.validate [0; 1; 2] m = RxDirective.validate [2; 0; 2; 1; 0] m)
  ∧ (let m := boot (Dir_configured [RequiredValidationRule.rule]
                      [name_is_free; async_rule None (Some "Checked") (Fulfilled true)]
                      (sample_control (VString "ada"))) in
     (∀ k, k < length (Dir_asyncRules (this m)) → k ∈ [0; 1])
     ∧ (∀ k, k < length (Dir_asyncRules (this m)) → k ∈ [1; 1; 0])
     ∧ Directive.validate [0; 1] m = Directive.validate [1; 1; 0] m).
Proof.
  split; intros m.
  - assert (∀ k, k < length (Rx_asyncRules (this m)) → k ∈ [0; 1; 2]) as H1.
    { intros k Hk. simpl in Hk. rewrite !elem_of_cons. lia. }
    assert (∀ k, k < length (Rx_asyncRules (this m)) → k ∈ [2; 0; 2; 1; 0]) as H2.
    { intros k Hk. simpl in Hk. rewrite !elem_of_cons. lia. }
    split_and!; [exact H1|exact H2|].
    exact (proj1 settlement_order_irrelevant [0; 1; 2] [2; 0; 2; 1; 0] m H1 H2).
  - assert (∀ k, k < length (Dir_asyncRules (this m)) → k ∈ [0; 1]) as H1.
    { intros k Hk. simpl in Hk. rewrite !elem_of_cons. lia. }
    assert (∀ k, k < length (Dir_asyncRules (this m)) → k ∈ [1; 1; 0]) as H2.
    { intros k Hk. simpl in Hk. rewrite !elem_of_cons. lia. }
    split_and!; [exact H1|exact H2|].
    exact (proj2 settlement_order_irrelevant [0; 1] [1; 1; 0] m H1 H2).
Defined.

(* ================================================================== *)
(** * Further properties: the document *)
(* ================================================================== *)

Lemma after_app n pre post : n ∉ pre → after n (pre ++ n :: post) = head post.
Proof.
  induction pre as [|x pre IH]; intros Hn; simpl.
  - by rewrite decide_True.
  - apply not_elem_of_cons in Hn as [Hx Hn]. rewrite decide_False by done. by apply IH.
Qed.

Lemma before_app node r pre post :
  r ∉ pre → before node r (pre ++ r :: post) = pre ++ node :: r :: post.
Proof.
  induction pre as [|x pre IH]; intros Hr; simpl.
  - by rewrite decide_True.
  - apply not_elem_of_cons in Hr as [Hx Hr]. rewrite decide_False by done.
    by rewrite IH.
Qed.

Lemma elem_of_before node r l x : x ∈ before node r l ↔ x = node ∨ x ∈ l.
Proof.
  induction l as [|y l IH]; simpl.
  - rewrite list_elem_of_singleton, elem_of_nil. tauto.
  - destruct (decide (y = r)); rewrite !elem_of_cons, ?IH; tauto.
Qed.

Lemma NoDup_before node r l : node ∉ l → NoDup l → NoDup (before node r l).
Proof.
  induction l as [|y l IH]; intros Hn Hl; simpl.
  - apply NoDup_singleton.
  - apply not_elem_of_cons in Hn as [Hy Hn]. apply NoDup_cons in Hl as [Hyl Hl].
    destruct (decide (y = r)).
    + apply NoDup_cons. split; [|by apply NoDup_cons].
      rewrite elem_of_cons. tauto.
    + apply NoDup_cons. split; [|by apply IH].
      rewrite elem_of_before. intros [->|?]; done.
Qed.

Lemma filter_ne_notin f (l : list nat) : f ∉ l → filter (λ x, x ≠ f) l = l.
Proof.
  induction l as [|y l IH]; intros Hf; [done|].
  apply not_elem_of_cons in Hf as [Hy Hf].
  rewrite filter_cons_True by done. by rewrite IH.
Qed.

Lemma filter_ne_app f (pre post : list nat) :
  NoDup (pre ++ f :: post) → filter (λ x, x ≠ f) (pre ++ f :: post) = pre ++ post.
Proof.
  intros Hnd. apply NoDup_app in Hnd as (_ & Hpre & [Hpost _]%NoDup_cons).
  rewrite filter_app, filter_cons_False by (intros H; by apply H).
  rewrite !filter_ne_notin; [done..|].
  intros Hf. apply (Hpre f); [done|]. by left.
Qed.

(** Where a node put after [x] lands. *)
Lemma place_after a x pre post :
  NoDup (pre ++ x :: post) →
  match head post with
  | Some c => before a c (pre ++ x :: post)
  | None => (pre ++ x :: post) ++ [a]
  end = pre ++ x :: a :: post.
Proof.
  intros Hnd. destruct post as [|r post]; simpl.
  - by rewrite <- app_assoc.
  - replace (pre ++ x :: r :: post) with ((pre ++ [x]) ++ r :: post)
      by (by rewrite <- app_assoc).
    rewrite before_app; [by rewrite <- app_assoc|].
    replace (pre ++ x :: r :: post) with ((pre ++ [x]) ++ r :: post) in Hnd
      by (by rewrite <- app_assoc).
    apply NoDup_app in Hnd as (_ & Hd & _). intros Hr. apply (Hd r Hr). by left.
Qed.

Lemma parentNode_lookup t n dn : t !! n = Some dn → parentNode t n = parent dn.
Proof. unfold parentNode. by intros ->. Qed.

Lemma parentNode_Some t n p :
  parentNode t n = Some p → ∃ dn, t !! n = Some dn ∧ parent dn = Some p.
Proof.
  unfold parentNode. destruct (t !! n) as [dn|]; [|done]. simpl. by exists dn.
Qed.

Lemma parentNode_lt t n p : parentNode t n = Some p → n < length t.
Proof. intros (dn & Hn & _)%parentNode_Some. by eapply lookup_lt_Some. Qed.

(** A node without children is above no other node. *)
Lemma leaf_not_ancestor fuel t a :
  wf_tree t →
  (∀ da, t !! a = Some da → children da = []) →
  ∀ n, a ≠ n → inclusive_ancestor fuel t a n = false.
Proof.
  intros Hwf Ha. induction fuel as [|fuel IH]; intros n Hne; simpl.
  - by rewrite bool_decide_eq_false_2.
  - rewrite bool_decide_eq_false_2 by done. simpl.
    destruct (parentNode t n) as [p|] eqn:Hp; [|done].
    apply IH. intros ->. apply Hwf in Hp as (dp & Hdp & Hin).
    rewrite (Ha _ Hdp) in Hin. by apply elem_of_nil in Hin.
Qed.

(** A fresh node. *)
Lemma siblings_createElement t p kids :
  siblings t p kids →
  let t' := t ++ [{| isElement := true; parent := None; children := [] |}] in
  siblings t' p kids
  ∧ detached_leaf t' (length t)
  ∧ (∀ n, n < length t → t' !! n = t !! n)
  ∧ (∀ n, n < length t → parentNode t' n = parentNode t n).
Proof.
  intros (Hwf & Hp & Hnd & Hkids & dp & Hdp & Hel & Hch) t'.
  assert (∀ n, n < length t → t' !! n = t !! n) as Hsame.
  { intros n Hn. subst t'. by rewrite lookup_app_l. }
  assert (∀ n, n < length t → parentNode t' n = parentNode t n) as Hpar.
  { intros n Hn. unfold parentNode. by rewrite Hsame. }
  assert (t' !! length t
          = Some {| isElement := true; parent := None; children := [] |}) as Hnew.
  { subst t'. rewrite lookup_app_r by lia. by rewrite Nat.sub_diag. }
  split_and!; [split_and!| | |]; try done.
  - intros n q Hq. destruct (decide (n < length t)) as [Hn|Hn].
    + rewrite Hpar in Hq by done. apply Hwf in Hq as (dq & Hdq & Hin).
      exists dq. split; [|done]. rewrite Hsame; [done|]. by eapply lookup_lt_Some.
    + apply parentNode_Some in Hq as (dn & Hdn & Hq).
      assert (n = length t) as ->.
      { apply lookup_lt_Some in Hdn. subst t'. rewrite length_app in Hdn. simpl in Hdn. lia. }
      rewrite Hnew in Hdn. by simplify_eq.
  - intros x Hx. rewrite Hpar; [by apply Hkids|].
    eapply parentNode_lt. by apply Hkids.
  - exists dp. split_and!; [|done..]. rewrite Hsame; [done|]. by eapply lookup_lt_Some.
  - by eexists.
Qed.

(** A detached node without children, inserted among the children of [p]. *)
Lemma siblings_insert t p kids a child :
  siblings t p kids →
  detached_leaf t a →
  a ≠ p →
  (∀ r, child = Some r → r ∈ kids) →
  let kids' := match child with
               | Some r => before a r kids
               | None => kids ++ [a]
               end in
  let t' := attach p a child t in
  pre_insert p a child t = Some t'
  ∧ siblings t' p kids'
  ∧ length t' = length t
  ∧ (∀ n, n ≠ p → n ≠ a → t' !! n = t !! n)
  ∧ (∃ da, t' !! a = Some da ∧ children da = []).
Proof.
  intros (Hwf & Hp & Hnd & Hkids & dp & Hdp & Hel & Hch)
         (da & Hda & Hpa & Hca) Hap Hchild kids' t'. subst t'.
  assert (a ∉ kids) as Hak.
  { intros Hin. apply Hkids in Hin. rewrite (parentNode_lookup _ _ _ Hda) in Hin. congruence. }
  assert (parentNode t a = None) as Hpn by (by rewrite (parentNode_lookup _ _ _ Hda)).
  assert (NoDup kids') as Hnd'.
  { subst kids'. destruct child as [r|]; [by apply NoDup_before|].
    apply NoDup_app. split_and!; [done| |apply NoDup_singleton].
    intros x Hx ->%list_elem_of_singleton. done. }
  assert (∀ x, x ∈ kids' ↔ x = a ∨ x ∈ kids) as Hin'.
  { intros x. subst kids'. destruct child as [r|]; [apply elem_of_before|].
    rewrite elem_of_app, list_elem_of_singleton. tauto. }
  assert (pre_insert p a child t = Some (attach p a child t)) as Hins.
  { unfold pre_insert.
    rewrite leaf_not_ancestor; [|done| |done].
    2: { intros da' Hda'. by simplify_eq. }
    assert (match child with
            | Some c => bool_decide (parentNode t c = Some p)
            | None => true
            end = true) as ->.
    { destruct child as [r|]; [|done]. apply bool_decide_eq_true. apply Hkids. by apply Hchild. }
    rewrite bool_decide_eq_false_2.
    2: { intros ->. apply Hak. by apply Hchild. }
    unfold detach. by rewrite Hpn. }
  set (g := λ dp0 : DomNode,
              set_children (match child with
                            | Some c => before a c (children dp0)
                            | None => children dp0 ++ [a]
                            end) dp0).
  assert (attach p a child t !! a = Some (set_parent (Some p) da)) as Hta.
  { unfold attach. rewrite list_lookup_alter_eq, list_lookup_alter_ne by done.
    by rewrite Hda. }
  assert (attach p a child t !! p = Some (set_children kids' dp)) as Htp.
  { unfold attach. rewrite list_lookup_alter_ne by done.
    rewrite list_lookup_alter_eq, Hdp. simpl. by rewrite Hch. }
  assert (∀ n, n ≠ p → n ≠ a → attach p a child t !! n = t !! n) as Hother.
  { intros n Hn1 Hn2. unfold attach. by rewrite !list_lookup_alter_ne. }
  assert (∀ n, n ≠ a → parentNode (attach p a child t) n = parentNode t n) as Hpar.
  { intros n Hn. unfold parentNode. destruct (decide (n = p)) as [->|Hnp].
    - by rewrite Htp, Hdp.
    - by rewrite Hother. }
  split_and!; [done|split_and!| |done|].
  - intros n q Hq. destruct (decide (n = a)) as [->|Hna].
    + rewrite (parentNode_lookup _ _ _ Hta) in Hq. simpl in Hq. simplify_eq.
      eexists. split; [done|]. simpl. apply Hin'. by left.
    + rewrite Hpar in Hq by done. apply Hwf in Hq as (dq & Hdq & Hin).
      destruct (decide (q = a)) as [->|Hqa].
      { simplify_eq. rewrite Hca in Hin. by apply elem_of_nil in Hin. }
      destruct (decide (q = p)) as [->|Hqp].
      { simplify_eq. eexists. split; [done|]. simpl. apply Hin'. by right. }
      exists dq. by rewrite Hother.
  - rewrite Hin'. intros [->|?]; done.
  - done.
  - intros x [->|Hx]%Hin'.
    + by rewrite (parentNode_lookup _ _ _ Hta).
    + rewrite Hpar; [by apply Hkids|]. intros ->. done.
  - eexists. split_and!; [done..|]. done.
  - unfold attach. by rewrite !length_alter.
  - eexists. split; [done|]. done.
Qed.

(** A child of [p] removed. *)
Lemma siblings_remove t p kids f :
  siblings t p kids →
  f ∈ kids →
  let t' := detach f t in
  pre_remove p f t = Some t'
  ∧ parentElement t f = Some p
  ∧ siblings t' p (filter (λ x, x ≠ f) kids)
  ∧ length t' = length t
  ∧ parentNode t' f = None
  ∧ (∀ n, n ≠ p → n ≠ f → t' !! n = t !! n)
  ∧ (∀ df, t !! f = Some df → t' !! f = Some (set_parent None df)).
Proof.
  intros (Hwf & Hp & Hnd & Hkids & dp & Hdp & Hel & Hch) Hf t'. subst t'.
  pose proof (Hkids _ Hf) as Hpf.
  assert (f ≠ p) as Hfp by (intros ->; done).
  destruct (parentNode_Some _ _ _ Hpf) as (df & Hdf & Hparent).
  assert (detach f t !! f = Some (set_parent None df)) as Htf.
  { unfold detach. rewrite Hpf, list_lookup_alter_eq, list_lookup_alter_ne by done.
    by rewrite Hdf. }
  assert (detach f t !! p
          = Some (set_children (filter (λ x, x ≠ f) kids) dp)) as Htp.
  { unfold detach. rewrite Hpf, list_lookup_alter_ne by done.
    rewrite list_lookup_alter_eq, Hdp. simpl. by rewrite Hch. }
  assert (∀ n, n ≠ p → n ≠ f → detach f t !! n = t !! n) as Hother.
  { intros n Hn1 Hn2. unfold detach. rewrite Hpf. by rewrite !list_lookup_alter_ne. }
  assert (∀ n, n ≠ f → parentNode (detach f t) n = parentNode t n) as Hpar.
  { intros n Hn. unfold parentNode. destruct (decide (n = p)) as [->|Hnp].
    - by rewrite Htp, Hdp.
    - by rewrite Hother. }
  split_and!.
  - unfold pre_remove. by rewrite bool_decide_eq_true_2.
  - unfold parentElement. rewrite Hpf. simpl. rewrite Hdp. simpl. by rewrite Hel.
  - split_and!.
    + intros n q Hq. destruct (decide (n = f)) as [->|Hnf].
      { by rewrite (parentNode_lookup _ _ _ Htf) in Hq. }
      rewrite Hpar in Hq by done. pose proof Hq as Hq'.
      apply Hwf in Hq as (dq & Hdq & Hin).
      destruct (decide (q = p)) as [->|Hqp].
      { simplify_eq. eexists. split; [done|]. simpl.
        apply list_elem_of_filter. by split. }
      destruct (decide (q = f)) as [->|Hqf].
      { simplify_eq. eexists. split; [done|]. done. }
      exists dq. by rewrite Hother.
    + rewrite list_elem_of_filter. tauto.
    + by apply NoDup_filter.
    + intros x [Hx1 Hx2]%list_elem_of_filter. rewrite Hpar by done. by apply Hkids.
    + eexists. split_and!; [done..|]. done.
  - unfold detach. rewrite Hpf. by rewrite !length_alter.
  - by rewrite (parentNode_lookup _ _ _ Htf).
  - done.
  - intros df' Hdf'. by simplify_eq.
Qed.

Lemma string_append_nil_r s : s +:+ "" = s.
Proof. induction s as [|a s IH]; [done|]. by rewrite append_cons, IH. Qed.

Lemma string_append_assoc s1 s2 s3 : (s1 +:+ s2) +:+ s3 = s1 +:+ (s2 +:+ s3).
Proof.
  induction s1 as [|a s1 IH]; [by rewrite !append_nil_l|].
  by rewrite !append_cons, IH.
Qed.

Lemma nextSibling_siblings t p pre x post :
  siblings t p (pre ++ x :: post) → nextSibling t x = head post.
Proof.
  intros (Hwf & Hp & Hnd & Hkids & dp & Hdp & Hel & Hch).
  unfold nextSibling. rewrite (Hkids x) by (apply elem_of_app; right; by left).
  simpl. rewrite Hdp. simpl. rewrite Hch. apply after_app.
  apply NoDup_app in Hnd as (_ & Hd & _). intros Hx. apply (Hd x Hx). by left.
Qed.

Arguments pre_insert : simpl never.
Arguments pre_remove : simpl never.
Arguments parentNode : simpl never.
Arguments parentElement : simpl never.
Arguments nextSibling : simpl never.

(** ** The methods, step by step *)

Lemma Rx_add_item_loop items : ∀ html (m : Machine (Page RxDirective.Directive)),
  for_of items html RxDirective.add_item m = (m, Some (html +:+ items_html items)).
Proof.
  induction items as [|item items IH]; intros html m; simpl.
  - unfold ret. by rewrite string_append_nil_r.
  - unfold bind, RxDirective.add_item, ret. rewrite IH.
    by rewrite !string_append_assoc.
Qed.

Lemma Dir_add_item_loop items : ∀ html (m : Machine (Page Directive.Directive)),
  for_of items html Directive.add_item m
  = (m, Some (html +:+ items_html (default "null" <$> items))).
Proof.
  induction items as [|item items IH]; intros html m; simpl.
  - unfold ret. by rewrite string_append_nil_r.
  - unfold bind, Directive.add_item, ret. rewrite IH.
    by rewrite !string_append_assoc.
Qed.

Lemma Rx_run_displayDescriptions (m : Machine (Page RxDirective.Directive)) items :
  let page := this m in
  RxDirective.hideDescriptions (directive page) = false →
  RxDirective.descriptions (directive page) = Some items →
  let node := length (tree page) in
  let t1 := tree page ++ [{| isElement := true; parent := None; children := [] |}] in
  let page1 :=
    {| directive :=
         RxDirective.set__descriptionElement
           (Some {| className := "informative-validator-descriptions";
                    innerHTML := list_html items |})
           (directive page);
       tree := t1; inputNode := inputNode page;
       descriptionNode := Some node; feedbackNode := feedbackNode page |} in
  RxDirective.displayDescriptions m =
    match parentNode t1 (inputNode page) with
    | None => (with_this page1 m, None)
    | Some p =>
        match pre_insert p node (nextSibling t1 (inputNode page)) t1 with
        | None => (with_this page1 m, None)
        | Some t2 => (with_this (set_tree t2 page1) m, Some tt)
        end
    end.
Proof.
  destruct m as [[d t i dn fn] cs nw tms em]. simpl. intros Hhide Hitems.
  unfold RxDirective.displayDescriptions. unfold bind at 1, gets at 1. simpl.
  rewrite Hhide. unfold bind at 1, gets at 1. simpl. rewrite Hitems.
  unfold bind at 1, lift at 1. unfold bind at 1. rewrite Rx_add_item_loop.
  unfold createElement, RxDirective.assign__descriptionElement,
    RxDirective.write__descriptionElement, insertBefore. run.
  unfold list_html, with_this. rewrite string_append_assoc.
  destruct (parentNode _ i) as [p|]; [|by destruct d].
  simpl. destruct (pre_insert _ _ _ _); by destruct d.
Qed.

Ltac proj := cbv beta iota delta [this calls now timers emitted directive tree
                                  inputNode descriptionNode feedbackNode fst snd].

Lemma Rx_run_clearFeedback (m : Machine (Page RxDirective.Directive)) :
  let page := this m in
  RxDirective.clearFeedback m =
    match feedbackNode page with
    | None => (m, Some tt)
    | Some f =>
        match parentElement (tree page) f with
        | None => (m, None)
        | Some q =>
            match pre_remove q f (tree page) with
            | None => (m, None)
            | Some t' =>
                (with_this
                   {| directive := RxDirective.set__feedbackElement None (directive page);
                      tree := t'; inputNode := inputNode page;
                      descriptionNode := descriptionNode page;
                      feedbackNode := None |} m,
                 Some tt)
            end
        end
    end.
Proof.
  destruct m as [[d t i dn fn] cs nw tms em]. simpl.
  unfold RxDirective.clearFeedback, removeChild, RxDirective.assign__feedbackElement. run. proj.
  destruct fn as [f|]; [|done].
  destruct (parentElement t f) as [q|]; [|done]. simpl. proj.
  by destruct (pre_remove q f t).
Qed.

Lemma Rx_run_clearDescriptions (m : Machine (Page RxDirective.Directive)) :
  let page := this m in
  RxDirective.clearDescriptions m =
    match descriptionNode page with
    | None => (m, Some tt)
    | Some f =>
        match parentElement (tree page) f with
        | None => (m, None)
        | Some q =>
            match pre_remove q f (tree page) with
            | None => (m, None)
            | Some t' =>
                (with_this
                   {| directive := RxDirective.set__descriptionElement None (directive page);
                      tree := t'; inputNode := inputNode page;
                      descriptionNode := None;
                      feedbackNode := feedbackNode page |} m,
                 Some tt)
            end
        end
    end.
Proof.
  destruct m as [[d t i dn fn] cs nw tms em]. simpl.
  unfold RxDirective.clearDescriptions, removeChild,
    RxDirective.assign__descriptionElement. run. proj.
  destruct dn as [f|]; [|done].
  destruct (parentElement t f) as [q|]; [|done]. simpl. proj.
  by destruct (pre_remove q f t).
Qed.

Lemma Rx_run_displayFeedback (m m1 : Machine (Page RxDirective.Directive)) items :
  RxDirective._initialised (directive (this m)) = true →
  RxDirective.clearFeedback m = (m1, Some tt) →
  let page := this m1 in
  RxDirective.feedback (directive page) = Some items →
  let node := length (tree page) in
  let t1 := tree page ++ [{| isElement := true; parent := None; children := [] |}] in
  let page1 :=
    {| directive :=
         RxDirective.set__feedbackElement
           (Some {| className := "informative-validator-feedback";
                    innerHTML := list_html items |})
           (directive page);
       tree := t1; inputNode := inputNode page;
       descriptionNode := descriptionNode page; feedbackNode := Some node |} in
  RxDirective.displayFeedback m =
    match parentNode t1 (inputNode page) with
    | None => (with_this page1 m1, None)
    | Some p =>
        match descriptionNode page with
        | None => (with_this page1 m1, None)
        | Some d =>
            match pre_insert p node (nextSibling t1 d) t1 with
            | None => (with_this page1 m1, None)
            | Some t2 => (with_this (set_tree t2 page1) m1, Some tt)
            end
        end
    end.
Proof.
  intros Hinit Hclear. destruct m1 as [[d t i dn fn] cs nw tms em]. simpl.
  intros Hitems.
  unfold RxDirective.displayFeedback. unfold bind at 1, gets at 1. cbn [fst snd].
  rewrite Hinit. cbn [negb]. unfold bind at 1. rewrite Hclear.
  unfold bind at 1, gets at 1. simpl. rewrite Hitems.
  unfold bind at 1, lift at 1. unfold bind at 1. rewrite Rx_add_item_loop.
  unfold createElement, RxDirective.assign__feedbackElement,
    RxDirective.write__feedbackElement, insertBefore. run.
  unfold list_html, with_this. rewrite string_append_assoc.
  destruct (parentNode _ i) as [p|]; [|by destruct d].
  simpl. destruct dn as [dn|]; [|by destruct d]. simpl.
  destruct (pre_insert _ _ _ _); by destruct d.
Qed.

Lemma Rx_rethrow_displayFeedback (m m1 : Machine (Page RxDirective.Directive)) :
  RxDirective._initialised (directive (this m)) = true →
  RxDirective.clearFeedback m = (m1, None) →
  RxDirective.displayFeedback m = (m1, None).
Proof.
  intros Hinit Hclear.
  unfold RxDirective.displayFeedback. unfold bind at 1, gets at 1. cbn [fst snd].
  rewrite Hinit. cbn [negb]. unfold bind at 1. by rewrite Hclear.
Qed.

(** X15.  [displayDescriptions] of [informative-validator-rules.ts].  With
    [hideDescriptions] set it does nothing.  Otherwise, without
    [descriptions] ([buildDescriptions] has not run) it throws before it
    touches anything; with them, and the input among the children of an
    element, it puts a new [div] right after the input, of class
    [informative-validator-descriptions] and holding the descriptions as
    list items, in order; the other children keep their places and no
    other node is touched. *)
Theorem Rx_displayDescriptions_inserts (m : Machine (Page RxDirective.Directive)) :
  let page := this m in
  (RxDirective.hideDescriptions (directive page) = true →
   RxDirective.displayDescriptions m = (m, Some tt))
  ∧ (RxDirective.hideDescriptions (directive page) = false →
     RxDirective.descriptions (directive page) = None →
     RxDirective.displayDescriptions m = (m, None))
  ∧ (∀ p pre post items,
       RxDirective.hideDescriptions (directive page) = false →
       RxDirective.descriptions (directive page) = Some items →
       siblings (tree page) p (pre ++ inputNode page :: post) →
       ∃ t',
         RxDirective.displayDescriptions m =
           (with_this
              {| directive :=
                   RxDirective.set__descriptionElement
                     (Some {| className := "informative-validator-descriptions";
                              innerHTML := list_html items |})
                     (directive page);
                 tree := t'; inputNode := inputNode page;
                 descriptionNode := Some (length (tree page));
                 feedbackNode := feedbackNode page |} m,
            Some tt)
         ∧ siblings t' p (pre ++ inputNode page :: length (tree page) :: post)
         ∧ (∀ n, n ≠ p → n < length (tree page) → t' !! n = tree page !! n)).
Proof.
  intros page. split_and!.
  - intros Hhide. unfold RxDirective.displayDescriptions, bind, gets.
    fold page. rewrite Hhide. by destruct m.
  - intros Hhide Hnone. unfold RxDirective.displayDescriptions.
    unfold bind at 1, gets at 1. fold page. cbn [fst snd]. rewrite Hhide.
    unfold bind at 1, gets at 1. cbn [fst snd]. fold page. rewrite Hnone.
    unfold bind, lift. by destruct m.
  - intros p pre post items Hhide Hitems Hsib.
    rewrite (Rx_run_displayDescriptions m items) by done. fold page.
    destruct (siblings_createElement _ _ _ Hsib) as (Hsib1 & Hleaf & Hsame & Hpar).
    set (t1 := tree page ++ _) in *.
    assert (inputNode page ∈ pre ++ inputNode page :: post) as Hin
      by (apply elem_of_app; right; by left).
    pose proof Hsib1 as (_ & Hp1 & Hnd1 & Hkids1 & _).
    rewrite (Hkids1 _ Hin), (nextSibling_siblings _ _ _ _ _ Hsib1).
    destruct (siblings_insert t1 p _ (length (tree page)) (head post) Hsib1 Hleaf)
      as (-> & Hsib2 & Hlen2 & Hother & _).
    { intros Heq. destruct Hsib as (_ & _ & _ & _ & dp & Hdp & _).
      apply lookup_lt_Some in Hdp. lia. }
    { intros r Hr. apply elem_of_app. right. right.
      destruct post; simplify_eq/=. by left. }
    eexists. split_and!; [done| |].
    + by rewrite place_after in Hsib2.
    + intros n Hn1 Hn2. rewrite Hother by (done || lia). by apply Hsame.
Qed.

Lemma without_app old (l1 l2 : list nat) :
  without old (l1 ++ l2) = without old l1 ++ without old l2.
Proof. destruct old; simpl; [apply filter_app|done]. Qed.

Lemma elem_of_without old (l : list nat) x :
  x ∈ without old l ↔ x ∈ l ∧ old ≠ Some x.
Proof.
  destruct old as [f|]; simpl.
  - rewrite list_elem_of_filter. split; intros [? ?]; split; congruence.
  - split; [by intros ?|by intros [? _]].
Qed.

(** [clearFeedback] on a page whose feedback element, if there is one,
    is a child of [p]. *)
Lemma Rx_clearFeedback_siblings (m : Machine (Page RxDirective.Directive)) p kids :
  let page := this m in
  siblings (tree page) p kids →
  (∀ f, feedbackNode page = Some f → f ∈ kids) →
  ∃ d' t',
    RxDirective.clearFeedback m =
      (with_this {| directive := d'; tree := t'; inputNode := inputNode page;
                    descriptionNode := descriptionNode page;
                    feedbackNode := None |} m, Some tt)
    ∧ (∀ e, RxDirective.set__feedbackElement e d'
            = RxDirective.set__feedbackElement e (directive page))
    ∧ siblings t' p (without (feedbackNode page) kids)
    ∧ length t' = length (tree page)
    ∧ (∀ f, feedbackNode page = Some f → parentNode t' f = None)
    ∧ (∀ n, n ≠ p → feedbackNode page ≠ Some n → t' !! n = tree page !! n).
Proof.
  intros page Hsib Hold. rewrite Rx_run_clearFeedback. fold page.
  destruct (feedbackNode page) as [f|] eqn:Hf.
  - destruct (siblings_remove _ _ _ f Hsib (Hold f eq_refl))
      as (Hrem & Hpe & Hsib' & Hlen & Hpar & Hother & _).
    rewrite Hpe, Hrem. eexists _, _. split_and!; [done| |done|done| |].
    + intros e. by destruct (directive page).
    + by intros ? [= <-].
    + intros n Hn1 Hn2. apply Hother; [done|congruence].
  - exists (directive page), (tree page). split_and!; try done.
    unfold with_this. subst page. clear Hsib Hold.
    destruct m as [[d t i dn fn] cs nw tms em]. simpl in *. by subst.
Qed.

(** X16.  [displayFeedback] of [informative-validator-rules.ts] on an
    initialised directive whose description element is a child of the
    input's parent: the feedback element shown before, if any, leaves the
    document, and a new [div] of class [informative-validator-feedback],
    holding the feedback as list items, is put right after the description
    element.  The other children keep their order: however often feedback
    is displayed, the parent holds one feedback element, at that place. *)
Theorem Rx_displayFeedback_replaces (m : Machine (Page RxDirective.Directive)) p pre post d items :
  let page := this m in
  let old := feedbackNode page in
  RxDirective._initialised (directive page) = true →
  RxDirective.feedback (directive page) = Some items →
  descriptionNode page = Some d →
  siblings (tree page) p (pre ++ d :: post) →
  inputNode page ∈ pre ++ d :: post →
  (∀ f, old = Some f → f ∈ pre ++ post ∧ f ≠ inputNode page) →
  ∃ t',
    RxDirective.displayFeedback m =
      (with_this
         {| directive :=
              RxDirective.set__feedbackElement
                (Some {| className := "informative-validator-feedback";
                         innerHTML := list_html items |})
                (directive page);
            tree := t'; inputNode := inputNode page;
            descriptionNode := Some d;
            feedbackNode := Some (length (tree page)) |} m,
       Some tt)
    ∧ siblings t' p (without old pre ++ d :: length (tree page) :: without old post)
    ∧ (∀ f, old = Some f → parentNode t' f = None).
Proof.
  intros page old Hinit Hitems Hd Hsib Hinput Hold.
  assert (old ≠ Some d) as Hod.
  { intros Hf. destruct (Hold _ Hf) as [Hin _].
    destruct Hsib as (_ & _ & Hnd & _).
    apply NoDup_app in Hnd as (_ & Hpre & [Hpost _]%NoDup_cons).
    apply elem_of_app in Hin as [Hin|Hin]; [|done].
    apply (Hpre d Hin). by left. }
  destruct (Rx_clearFeedback_siblings m p _ Hsib) as (d1 & t1 & Hclear & Hd1 & Hsib1 & Hlen1 & Hpar1 & Hother1).
  { intros f Hf. destruct (Hold f Hf) as [Hin _].
    rewrite elem_of_app in Hin. rewrite elem_of_app, elem_of_cons. tauto. }
  fold page old in Hclear, Hsib1, Hpar1, Hother1.
  assert (without old (pre ++ d :: post) = without old pre ++ d :: without old post) as Hkids.
  { rewrite without_app. f_equal. destruct old as [f|]; simpl; [|done].
    rewrite filter_cons_True; [done|congruence]. }
  rewrite Hkids in Hsib1.
  assert (RxDirective.feedback d1 = Some items) as Hitems1.
  { pose proof (Hd1 None) as Heq. apply (f_equal RxDirective.feedback) in Heq.
    simpl in Heq. by rewrite Heq. }
  rewrite (Rx_run_displayFeedback m _ items Hinit Hclear) by done.
  cbn [this with_this directive tree inputNode descriptionNode feedbackNode].
  rewrite Hd, Hlen1. fold page.
  destruct (siblings_createElement _ _ _ Hsib1) as (Hsib2 & Hleaf & Hsame & Hpar).
  rewrite Hlen1 in Hleaf, Hsame, Hpar.
  set (t2 := t1 ++ _) in *.
  assert (inputNode page ∈ without old pre ++ d :: without old post) as Hin2.
  { rewrite <- Hkids. apply elem_of_without. split; [done|].
    intros Hf. by destruct (Hold _ Hf). }
  pose proof Hsib2 as (_ & Hp2 & Hnd2 & Hkids2 & _).
  rewrite (Hkids2 _ Hin2), (nextSibling_siblings _ _ _ _ _ Hsib2).
  destruct (siblings_insert t2 p _ (length (tree page)) (head (without old post))
              Hsib2 Hleaf)
    as (-> & Hsib3 & Hlen3 & Hother3 & _).
  { intros Heq. destruct Hsib as (_ & _ & _ & _ & dp & Hdp & _).
    apply lookup_lt_Some in Hdp. lia. }
  { intros r Hr. apply elem_of_app. right. right.
    destruct (without old post); simplify_eq/=. by left. }
  eexists. split_and!.
  - unfold with_this, set_tree. cbn [this calls now timers emitted directive tree
      inputNode descriptionNode feedbackNode]. by rewrite Hd1.
  - by rewrite place_after in Hsib3.
  - intros f Hf. pose proof (Hpar1 f Hf) as Hpf.
    destruct (Hold f Hf) as [Hin Hne].
    assert (f < length (tree page)) as Hlt.
    { destruct Hsib as (_ & _ & _ & Hk & _).
      eapply parentNode_lt. apply Hk. rewrite elem_of_app in Hin.
      rewrite elem_of_app, elem_of_cons. tauto. }
    assert (f ≠ p) as Hfp.
    { intros ->. destruct Hsib as (_ & Hp & _). apply Hp.
      rewrite elem_of_app in Hin. rewrite elem_of_app, elem_of_cons. tauto. }
    unfold parentNode in *. rewrite Hother3 by (done || lia).
    by rewrite Hsame.
Qed.

(** X17.  Without a description element, which is the case as long as
    [hideDescriptions] is set, [displayFeedback] of
    [informative-validator-rules.ts] throws on an initialised directive
    with feedback to show: it reads [nextSibling] of the missing element.
    The [div] it has built by then stays in [_feedbackElement] outside
    the document, so that from then on [clearFeedback], [displayFeedback]
    and [ngOnDestroy] throw as well. *)
Theorem Rx_displayFeedback_without_descriptions
    (m : Machine (Page RxDirective.Directive)) items :
  let page := this m in
  RxDirective._initialised (directive page) = true →
  RxDirective.feedback (directive page) = Some items →
  descriptionNode page = None →
  feedbackNode page = None →
  ∃ m', RxDirective.displayFeedback m = (m', None)
    ∧ feedbackNode (this m') = Some (length (tree page))
    ∧ parentNode (tree (this m')) (length (tree page)) = None
    ∧ descriptionNode (this m') = None
    ∧ RxDirective.clearFeedback m' = (m', None)
    ∧ RxDirective.displayFeedback m' = (m', None)
    ∧ (RxDirective.ngOnDestroy m').2 = None.
Proof.
  intros page Hinit Hitems Hd Hf.
  assert (RxDirective.clearFeedback m = (m, Some tt)) as Hclear.
  { rewrite Rx_run_clearFeedback. fold page. by rewrite Hf. }
  rewrite (Rx_run_displayFeedback m m items Hinit Hclear) by done. fold page.
  rewrite Hd.
  set (t1 := tree page ++ _).
  set (page1 := {| directive := _; tree := t1 |}).
  assert (t1 !! length (tree page)
          = Some {| isElement := true; parent := None; children := [] |}) as Hnew.
  { subst t1. rewrite lookup_app_r by lia. by rewrite Nat.sub_diag. }
  assert (parentNode t1 (length (tree page)) = None) as Hpar
    by (by rewrite (parentNode_lookup _ _ _ Hnew)).
  assert (RxDirective.clearFeedback (with_this page1 m) = (with_this page1 m, None)) as Hthrow.
  { rewrite Rx_run_clearFeedback. cbn [this with_this feedbackNode page1 tree].
    unfold parentElement. by rewrite Hpar. }
  exists (with_this page1 m).
  split_and!; [by destruct (parentNode t1 (inputNode page))|done..| |].
  - apply Rx_rethrow_displayFeedback; [|done]. simpl. by destruct (directive page).
  - unfold RxDirective.ngOnDestroy. unfold bind at 1.
    destruct (zoom RxDirective.unsubscribeTypingTimer (with_this page1 m))
      as [m2 [[]|]] eqn:Hzoom; [|done].
    assert (this m2 = page1) as Hm2.
    { unfold zoom in Hzoom. rewrite unsubscribeTypingTimer_eq in Hzoom.
      simpl in Hzoom. injection Hzoom as <-. simpl. unfold set_directive. done. }
    unfold bind at 1. rewrite Rx_run_clearFeedback, Hm2.
    cbn [feedbackNode page1 tree]. unfold parentElement. by rewrite Hpar.
Qed.

(** A child of [p] without children, inserted before its own next
    sibling: it stays where it is. *)
Lemma siblings_reinsert t p pre d post :
  siblings t p (pre ++ d :: post) →
  (∃ dd, t !! d = Some dd ∧ children dd = []) →
  let t' := attach p d (head post) (detach d t) in
  pre_insert p d (nextSibling t d) t = Some t'
  ∧ siblings t' p (pre ++ d :: post)
  ∧ length t' = length t
  ∧ (∀ n, n ≠ p → n ≠ d → t' !! n = t !! n).
Proof.
  intros Hsib (dd & Hdd & Hcd) t'. subst t'.
  pose proof Hsib as (Hwf & Hp & Hnd & Hkids & dp & Hdp & Hel & Hch).
  assert (d ∈ pre ++ d :: post) as Hd by (apply elem_of_app; right; by left).
  assert (d ≠ p) as Hdp' by (intros ->; done).
  pose proof Hnd as Hnd'.
  apply NoDup_app in Hnd' as (Hpre & Hdis & [Hdpost Hpost]%NoDup_cons).
  assert (∀ r, head post = Some r → r ∈ post) as Hhead.
  { intros r Hr. destruct post; simplify_eq/=. by left. }
  destruct (siblings_remove t p _ d Hsib Hd)
    as (_ & _ & Hsib1 & Hlen1 & Hpar1 & Hother1 & Hd1).
  rewrite filter_ne_app in Hsib1 by done.
  destruct (siblings_insert (detach d t) p (pre ++ post) d (head post) Hsib1)
    as (_ & Hsib2 & Hlen2 & Hother2 & _).
  { eexists. split; [by apply Hd1|]. done. }
  { done. }
  { intros r Hr. apply elem_of_app. right. by apply Hhead. }
  split_and!.
  - rewrite (nextSibling_siblings _ _ _ _ _ Hsib). unfold pre_insert.
    rewrite leaf_not_ancestor; [|done| |done].
    2: { intros da Hda. by simplify_eq. }
    assert (match head post with
            | Some c => bool_decide (parentNode t c = Some p)
            | None => true
            end = true) as ->.
    { destruct (head post) as [r|] eqn:Hr; [|done]. apply bool_decide_eq_true.
      apply Hkids. apply elem_of_app. right. right. by apply Hhead. }
    rewrite bool_decide_eq_false_2; [done|].
    intros Hr. apply Hdpost. by apply Hhead.
  - replace (pre ++ d :: post)
      with (match head post with
            | Some r => before d r (pre ++ post)
            | None => (pre ++ post) ++ [d]
            end); [done|].
    destruct post as [|r post']; simpl.
    + by rewrite !app_nil_r.
    + apply before_app. intros Hr. apply (Hdis r Hr). right. by left.
  - by rewrite Hlen2.
  - intros n Hn1 Hn2. rewrite Hother2 by done. by apply Hother1.
Qed.

Lemma Dir_run_clearFeedback (m : Machine (Page Directive.Directive)) :
  let page := this m in
  Directive.clearFeedback m =
    match feedbackNode page with
    | None => (m, Some tt)
    | Some f =>
        match parentElement (tree page) f with
        | None => (m, None)
        | Some q =>
            match pre_remove q f (tree page) with
            | None => (m, None)
            | Some t' => (with_this (set_tree t' page) m, Some tt)
            end
        end
    end.
Proof.
  destruct m as [[d t i dn fn] cs nw tms em]. simpl.
  unfold Directive.clearFeedback, removeChild. run. proj.
  destruct fn as [f|]; [|done].
  destruct (parentElement t f) as [q|]; [|done]. simpl. proj.
  by destruct (pre_remove q f t).
Qed.

Lemma Dir_run_displayFeedback (m m1 : Machine (Page Directive.Directive)) items :
  Directive.clearFeedback m = (m1, Some tt) →
  let page := this m1 in
  Directive.feedback (directive page) = Some items →
  let node := length (tree page) in
  let t1 := tree page ++ [{| isElement := true; parent := None; children := [] |}] in
  let page1 :=
    {| directive :=
         Directive.set__feedbackElement
           (Some {| className := "informative-validator-feedback";
                    innerHTML := list_html (default "null" <$> items) |})
           (directive page);
       tree := t1; inputNode := inputNode page;
       descriptionNode := descriptionNode page; feedbackNode := Some node |} in
  Directive.displayFeedback m =
    match parentNode t1 (inputNode page) with
    | None => (with_this page1 m1, None)
    | Some p =>
        match descriptionNode page with
        | None => (with_this page1 m1, None)
        | Some d =>
            match pre_insert p d (nextSibling t1 d) t1 with
            | None => (with_this page1 m1, None)
            | Some t2 => (with_this (set_tree t2 page1) m1, Some tt)
            end
        end
    end.
Proof.
  intros Hclear. destruct m1 as [[d t i dn fn] cs nw tms em]. simpl.
  intros Hitems.
  unfold Directive.displayFeedback. unfold bind at 1. rewrite Hclear.
  unfold bind at 1, gets at 1. simpl. rewrite Hitems.
  unfold bind at 1, lift at 1. unfold bind at 1. rewrite Dir_add_item_loop.
  unfold createElement, Directive.assign__feedbackElement,
    Directive.write__feedbackElement, insertBefore. run.
  unfold list_html, with_this. rewrite string_append_assoc.
  destruct (parentNode _ i) as [p|]; [|by destruct d].
  simpl. destruct dn as [dn|]; [|by destruct d]. simpl.
  destruct (pre_insert _ _ _ _); by destruct d.
Qed.

Lemma Dir_rethrow_displayFeedback (m m1 : Machine (Page Directive.Directive)) :
  Directive.clearFeedback m = (m1, None) →
  Directive.displayFeedback m = (m1, None).
Proof.
  intros Hclear. unfold Directive.displayFeedback. unfold bind at 1. by rewrite Hclear.
Qed.

(** X19.  [displayFeedback] of [informative-validator.directive.ts] never
    shows the feedback: its last statement inserts the description
    element, before its own next sibling, so that the children of the
    input's parent are what they were and the [div] holding the feedback
    stays outside the document.  As [clearFeedback] does not reset
    [_feedbackElement], every later [clearFeedback], [displayFeedback],
    [setErrors] and [clearErrors] throws on that [div], which has no
    parent. *)
Theorem Dir_displayFeedback_never_attached
    (m : Machine (Page Directive.Directive)) p pre post d items :
  let page := this m in
  Directive.feedback (directive page) = Some items →
  feedbackNode page = None →
  descriptionNode page = Some d →
  siblings (tree page) p (pre ++ d :: post) →
  (∃ dd, tree page !! d = Some dd ∧ children dd = []) →
  inputNode page ∈ pre ++ d :: post →
  ∃ t',
    let m' :=
      with_this
        {| directive :=
             Directive.set__feedbackElement
               (Some {| className := "informative-validator-feedback";
                        innerHTML := list_html (default "null" <$> items) |})
               (directive page);
           tree := t'; inputNode := inputNode page;
           descriptionNode := Some d;
           feedbackNode := Some (length (tree page)) |} m in
    Directive.displayFeedback m = (m', Some tt)
    ∧ siblings t' p (pre ++ d :: post)
    ∧ parentNode t' (length (tree page)) = None
    ∧ Directive.clearFeedback m' = (m', None)
    ∧ Directive.displayFeedback m' = (m', None)
    ∧ (Directive.setErrors m').2 = None
    ∧ (Directive.clearErrors m').2 = None
    ∧ Directive.ngOnDestroy m' = (m', None).
Proof.
  intros page Hitems Hf Hd Hsib (dd & Hdd & Hcd) Hinput.
  assert (Directive.clearFeedback m = (m, Some tt)) as Hclear.
  { rewrite Dir_run_clearFeedback. fold page. by rewrite Hf. }
  rewrite (Dir_run_displayFeedback m m items Hclear) by done. fold page.
  rewrite Hd.
  destruct (siblings_createElement _ _ _ Hsib) as (Hsib1 & Hleaf & Hsame & Hpar).
  set (t1 := tree page ++ _) in *.
  pose proof Hsib1 as (_ & Hp1 & Hnd1 & Hkids1 & _).
  assert (d < length (tree page)) as Hdlt by (by eapply lookup_lt_Some).
  assert (p < length (tree page)) as Hplt.
  { destruct Hsib as (_ & _ & _ & _ & dp & Hdp & _). by eapply lookup_lt_Some. }
  rewrite (Hkids1 _ Hinput).
  destruct (siblings_reinsert t1 p pre d post Hsib1) as (-> & Hsib2 & Hlen2 & Hother2).
  { exists dd. by rewrite Hsame. }
  set (t2 := attach _ _ _ _) in *.
  assert (parentNode t2 (length (tree page)) = None) as Hnew.
  { unfold parentNode. rewrite Hother2 by lia.
    destruct Hleaf as (dn & -> & Hpn & _). done. }
  exists t2. set (m' := with_this _ m).
  assert (Directive.clearFeedback m' = (m', None)) as Hthrow.
  { rewrite Dir_run_clearFeedback. subst m'.
    cbn [this with_this feedbackNode tree]. unfold parentElement. by rewrite Hnew. }
  split_and!; [done..| | | |].
  - by apply Dir_rethrow_displayFeedback.
  - unfold Directive.setErrors. unfold bind at 1, gets at 1. cbn [fst snd].
    destruct (Directive.validationControl (directive (this m'))) as [c|]; [|done].
    unfold bind at 1, lift at 1. unfold bind at 1, modify at 1.
    set (m2 := {| this := _ |}).
    unfold Directive.displayFeedback. unfold bind at 1.
    rewrite Dir_run_clearFeedback.
    subst m2 m'. cbn [this with_this feedbackNode tree set_directive].
    unfold parentElement. by rewrite Hnew.
  - unfold Directive.clearErrors. unfold bind at 1, gets at 1. cbn [fst snd].
    destruct (Directive.validationControl (directive (this m'))) as [c|]; [|done].
    unfold bind at 1, lift at 1. unfold bind at 1, modify at 1.
    set (m2 := {| this := _ |}).
    rewrite Dir_run_clearFeedback.
    subst m2 m'. cbn [this with_this feedbackNode tree set_directive].
    unfold parentElement. by rewrite Hnew.
  - unfold Directive.ngOnDestroy, bind. by rewrite Hthrow.
Qed.

Lemma Rx_clearDescriptions_siblings (m : Machine (Page RxDirective.Directive)) p kids :
  let page := this m in
  siblings (tree page) p kids →
  (∀ d, descriptionNode page = Some d → d ∈ kids) →
  ∃ t',
    RxDirective.clearDescriptions m =
      (with_this {| directive :=
                      match descriptionNode page with
                      | Some _ => RxDirective.set__descriptionElement None (directive page)
                      | None => directive page
                      end;
                    tree := t'; inputNode := inputNode page;
                    descriptionNode := None;
                    feedbackNode := feedbackNode page |} m, Some tt)
    ∧ siblings t' p (without (descriptionNode page) kids)
    ∧ (∀ n, n ≠ p → descriptionNode page ≠ Some n → t' !! n = tree page !! n).
Proof.
  intros page Hsib Hold. rewrite Rx_run_clearDescriptions. fold page.
  destruct (descriptionNode page) as [f|] eqn:Hf.
  - destruct (siblings_remove _ _ _ f Hsib (Hold f eq_refl))
      as (Hrem & Hpe & Hsib' & Hlen & Hpar & Hother & _).
    rewrite Hpe, Hrem. eexists. split_and!; [done|done|].
    intros n Hn1 Hn2. apply Hother; [done|congruence].
  - exists (tree page). split_and!; try done.
    unfold with_this. subst page. clear Hsib Hold.
    destruct m as [[d t i dn fn] cs nw tms em]. simpl in *. by subst.
Qed.

Lemma zoom_unsubscribeTypingTimer (m : Machine (Page RxDirective.Directive)) :
  zoom RxDirective.unsubscribeTypingTimer m =
    ({| this := this m; calls := calls m; now := now m;
        timers := match RxDirective._typingTimer (directive (this m)) with
                  | Some sub => alter close sub (timers m)
                  | None => timers m
                  end;
        emitted := emitted m |}, Some tt).
Proof.
  unfold zoom. rewrite unsubscribeTypingTimer_eq. unfold unsubscribed_table.
  destruct m as [[d t i dn fn] cs nw tms em]. simpl. done.
Qed.

(** X18.  [ngOnDestroy] of [informative-validator-rules.ts], with whatever
    is displayed among the children of one element: it unsubscribes the
    pending timer, takes the feedback element and the description element
    out of the document and forgets them; the other children keep their
    order and no other node is touched. *)
Theorem Rx_ngOnDestroy (m : Machine (Page RxDirective.Directive)) p kids :
  let page := this m in
  siblings (tree page) p kids →
  (∀ f, feedbackNode page = Some f → f ∈ kids ∧ descriptionNode page ≠ Some f) →
  (∀ d, descriptionNode page = Some d → d ∈ kids) →
  ∃ d' t',
    RxDirective.ngOnDestroy m =
      ({| this := {| directive := d'; tree := t'; inputNode := inputNode page;
                     descriptionNode := None; feedbackNode := None |};
          calls := calls m; now := now m;
          timers := match RxDirective._typingTimer (directive page) with
                    | Some sub => alter close sub (timers m)
                    | None => timers m
                    end;
          emitted := emitted m |},
       Some tt)
    ∧ (∀ e e', RxDirective.set__descriptionElement e (RxDirective.set__feedbackElement e' d')
               = RxDirective.set__descriptionElement e
                   (RxDirective.set__feedbackElement e' (directive page)))
    ∧ (is_Some (feedbackNode page) → RxDirective._feedbackElement d' = None)
    ∧ (is_Some (descriptionNode page) → RxDirective._descriptionElement d' = None)
    ∧ siblings t' p (without (descriptionNode page) (without (feedbackNode page) kids))
    ∧ (∀ n, n ≠ p → feedbackNode page ≠ Some n → descriptionNode page ≠ Some n →
            t' !! n = tree page !! n).
Proof.
  intros page Hsib Hf Hd.
  unfold RxDirective.ngOnDestroy. unfold bind at 1.
  rewrite zoom_unsubscribeTypingTimer. fold page.
  set (m0 := {| this := page |}).
  destruct (Rx_clearFeedback_siblings m0 p kids Hsib)
    as (d1 & t1 & Hclear & Hd1 & Hsib1 & Hlen1 & Hpar1 & Hother1).
  { intros f Hfn. by destruct (Hf f Hfn). }
  unfold bind at 1. rewrite Hclear.
  set (m1 := with_this _ m0).
  destruct (Rx_clearDescriptions_siblings m1 p _ Hsib1)
    as (t2 & Hclear2 & Hsib2 & Hother2).
  { intros d Hdn. apply elem_of_without. split; [by apply Hd|].
    intros Hfn. destruct (Hf _ Hfn) as [_ Hne]. by apply Hne. }
  rewrite Hclear2. subst m1 m0.
  cbn [this with_this directive tree inputNode descriptionNode feedbackNode
       calls now timers emitted] in *.
  eexists _, t2. split_and!; [done| | | |done|].
  - intros e e'. destruct (descriptionNode page);
      [|by rewrite Hd1]. specialize (Hd1 e').
    apply (f_equal (RxDirective.set__descriptionElement e)) in Hd1.
    rewrite <- Hd1. by destruct d1.
  - intros [f Hfn].
    assert (RxDirective._feedbackElement d1 = None) as H1.
    { revert Hclear. rewrite Rx_run_clearFeedback.
      cbn [this feedbackNode tree]. fold page. rewrite Hfn.
      destruct (parentElement _ f); [|done]. destruct (pre_remove _ _ _); [|done].
      unfold with_this. intros [= <- _]. done. }
    by destruct (descriptionNode page).
  - intros [d Hdn]. by rewrite Hdn.
  - intros n Hn1 Hn2 Hn3. rewrite Hother2 by done. by apply Hother1.
Qed.

Lemma Dir_clearFeedback_directive (m : Machine (Page Directive.Directive)) :
  directive (this (Directive.clearFeedback m).1) = directive (this m).
Proof.
  rewrite Dir_run_clearFeedback.
  destruct (feedbackNode (this m)) as [f|]; [|done].
  destruct (parentElement _ f) as [q|]; [|done].
  by destruct (pre_remove q f _).
Qed.

Lemma Dir_control_displayFeedback (m : Machine (Page Directive.Directive)) :
  Directive.validationControl (directive (this (Directive.displayFeedback m).1))
  = Directive.validationControl (directive (this m)).
Proof.
  pose proof (Dir_clearFeedback_directive m) as Hdir.
  destruct (Directive.clearFeedback m) as [m1 [[]|]] eqn:Hclear; simpl in Hdir.
  - destruct (Directive.feedback (directive (this m1))) as [items|] eqn:Hitems.
    + rewrite (Dir_run_displayFeedback m m1 items Hclear Hitems).
      rewrite <- Hdir.
      destruct (parentNode _ _); [|by destruct (directive (this m1))].
      destruct (descriptionNode _); [|by destruct (directive (this m1))].
      destruct (pre_insert _ _ _ _); by destruct (directive (this m1)).
    + unfold Directive.displayFeedback. unfold bind at 1. rewrite Hclear.
      unfold bind at 1, gets at 1. cbn [fst snd]. rewrite Hitems.
      unfold bind, lift. cbn [fst snd]. by rewrite Hdir.
  - rewrite (Dir_rethrow_displayFeedback m m1 Hclear). simpl. by rewrite Hdir.
Qed.

(** X20.  The callback that [ngOnChanges] of
    [informative-validator.directive.ts] runs after a pass never leaves
    the bound control without an errors object: when feedback is to be
    displayed the errors are [{customErrors: true}], and otherwise they
    are [{}], an object without keys, not [null].  This holds whether the
    rendering that follows returns or throws. *)
Theorem Dir_ngOnChanges_then_errors (m : Machine (Page Directive.Directive)) c :
  Directive.validationControl (directive (this m)) = Some c →
  ∃ display c',
    Directive.shouldDisplayFeedback (directive (this m)) = Some display
    ∧ Directive.validationControl (directive (this (Directive.ngOnChanges_then m).1))
      = Some c'
    ∧ errors c' = Some (if display then CUSTOM_ERRORS else [])
    ∧ errors c' ≠ None.
Proof.
  intros Hc.
  assert (∃ display, Directive.shouldDisplayFeedback (directive (this m)) = Some display)
    as [display Hdisplay].
  { unfold Directive.shouldDisplayFeedback. rewrite Hc. simpl.
    repeat case_match; by eexists. }
  exists display,
    (setErrors_control (Some (if display then CUSTOM_ERRORS else [])) c).
  split_and!; [done| |done|done].
  unfold Directive.ngOnChanges_then. unfold bind at 1, gets at 1. cbn [fst snd].
  rewrite Hdisplay. unfold bind at 1, lift at 1.
  destruct display.
  - unfold Directive.setErrors. unfold bind at 1, gets at 1. cbn [fst snd].
    rewrite Hc. unfold bind at 1, lift at 1. unfold bind at 1, modify at 1.
    rewrite Dir_control_displayFeedback. simpl. by destruct (directive (this m)).
  - unfold Directive.clearErrors. unfold bind at 1, gets at 1. cbn [fst snd].
    rewrite Hc. unfold bind at 1, lift at 1. unfold bind at 1, modify at 1.
    rewrite Dir_clearFeedback_directive. simpl. by destruct (directive (this m)).
Qed.

Lemma Dir_run_displayDescriptions (m : Machine (Page Directive.Directive)) items :
  let page := this m in
  Directive.hideDescriptions (directive page) = false →
  Directive.descriptions (directive page) = Some items →
  let node := length (tree page) in
  let t1 := tree page ++ [{| isElement := true; parent := None; children := [] |}] in
  let page1 :=
    {| directive :=
         Directive.set__descriptionElement
           (Some {| className := "informative-validator-descriptions";
                    innerHTML := list_html (default "null" <$> items) |})
           (directive page);
       tree := t1; inputNode := inputNode page;
       descriptionNode := Some node; feedbackNode := feedbackNode page |} in
  Directive.displayDescriptions m =
    match parentNode t1 (inputNode page) with
    | None => (with_this page1 m, None)
    | Some p =>
        match pre_insert p node (nextSibling t1 (inputNode page)) t1 with
        | None => (with_this page1 m, None)
        | Some t2 => (with_this (set_tree t2 page1) m, Some tt)
        end
    end.
Proof.
  destruct m as [[d t i dn fn] cs nw tms em]. simpl. intros Hhide Hitems.
  unfold Directive.displayDescriptions. unfold bind at 1, gets at 1. simpl.
  rewrite Hhide. unfold bind at 1, gets at 1. simpl. rewrite Hitems.
  unfold bind at 1, lift at 1. unfold bind at 1. rewrite Dir_add_item_loop.
  unfold createElement, Directive.assign__descriptionElement,
    Directive.write__descriptionElement, insertBefore. run.
  unfold list_html, with_this. rewrite string_append_assoc.
  destruct (parentNode _ i) as [p|]; [|by destruct d].
  simpl. destruct (pre_insert _ _ _ _); by destruct d.
Qed.

Lemma Dir_zoom_buildDescriptions (m : Machine (Page Directive.Directive)) :
  let d := directive (this m) in
  zoom Directive.buildDescriptions m =
    (with_this
       (set_directive
          (Directive.set_descriptions
             (Some ((SynchronousValidationRule.getDescription <$> Dir_syncRules d)
                    ++ (AsynchronousValidationRule.getDescription <$> Dir_asyncRules d)))
             d)
          (this m)) m,
     Some tt).
Proof.
  intros d. unfold zoom, Directive.buildDescriptions.
  unfold bind at 1. rewrite Dir_getSyncRules_eq.
  unfold bind at 1. rewrite Dir_getAsyncRules_eq.
  unfold bind at 1, modify at 1. cbn [fst snd].
  unfold bind at 1. rewrite (Dir_describe_sync_loop _ _ []) by reflexivity.
  cbn [this calls now timers emitted].
  rewrite (Dir_describe_async_loop _ _
             (SynchronousValidationRule.getDescription <$> Dir_syncRules d)).
  2: { reflexivity. }
  unfold with_this. cbn [this calls now timers emitted]. subst d.
  by destruct (directive (this m)).
Qed.

(** X21.  [ngOnInit] of [informative-validator.directive.ts], the input
    being a child of an element: the directive is marked initialised,
    [descriptions] holds one entry per rule, and unless
    [hideDescriptions] is set a new [div] of class
    [informative-validator-descriptions] is put right after the input,
    holding one list item per rule, which reads [null] for a rule without
    a description. *)
Theorem Dir_ngOnInit (m : Machine (Page Directive.Directive)) p pre post :
  let page := this m in
  let d := directive page in
  let items := (SynchronousValidationRule.getDescription <$> Dir_syncRules d)
               ++ (AsynchronousValidationRule.getDescription <$> Dir_asyncRules d) in
  let d1 := Directive.set_descriptions (Some items) (Directive.set__initialised true d) in
  siblings (tree page) p (pre ++ inputNode page :: post) →
  (Directive.hideDescriptions d = true →
   Directive.ngOnInit m = (with_this (set_directive d1 page) m, Some tt))
  ∧ (Directive.hideDescriptions d = false →
     ∃ t',
       Directive.ngOnInit m =
         (with_this
            {| directive :=
                 Directive.set__descriptionElement
                   (Some {| className := "informative-validator-descriptions";
                            innerHTML := list_html (default "null" <$> items) |})
                   d1;
               tree := t'; inputNode := inputNode page;
               descriptionNode := Some (length (tree page));
               feedbackNode := feedbackNode page |} m,
          Some tt)
       ∧ siblings t' p (pre ++ inputNode page :: length (tree page) :: post)
       ∧ (∀ n, n ≠ p → n < length (tree page) → t' !! n = tree page !! n)).
Proof.
  intros page d items d1 Hsib.
  assert (Directive.ngOnInit m
          = Directive.displayDescriptions (with_this (set_directive d1 page) m)) as Hrun.
  { unfold Directive.ngOnInit. unfold bind at 1, modify at 1.
    unfold bind at 1. rewrite Dir_zoom_buildDescriptions.
    reflexivity. }
  rewrite Hrun. split.
  - intros Hhide. unfold Directive.displayDescriptions, bind, gets.
    cbn [this with_this set_directive directive]. subst d1. simpl. by rewrite Hhide.
  - intros Hhide.
    rewrite (Dir_run_displayDescriptions _ (items)).
    2: { simpl. subst d1. simpl. done. }
    2: { simpl. done. }
    cbn [this with_this set_directive directive tree inputNode descriptionNode
         feedbackNode]. fold page.
    destruct (siblings_createElement _ _ _ Hsib) as (Hsib1 & Hleaf & Hsame & Hpar).
    set (t1 := tree page ++ _) in *.
    assert (inputNode page ∈ pre ++ inputNode page :: post) as Hin
      by (apply elem_of_app; right; by left).
    pose proof Hsib1 as (_ & Hp1 & Hnd1 & Hkids1 & _).
    rewrite (Hkids1 _ Hin), (nextSibling_siblings _ _ _ _ _ Hsib1).
    destruct (siblings_insert t1 p _ (length (tree page)) (head post) Hsib1 Hleaf)
      as (-> & Hsib2 & Hlen2 & Hother & _).
    { intros Heq. destruct Hsib as (_ & _ & _ & _ & dp & Hdp & _).
      apply lookup_lt_Some in Hdp. lia. }
    { intros r Hr. apply elem_of_app. right. right.
      destruct post; simplify_eq/=. by left. }
    eexists. split_and!; [done| |].
    + by rewrite place_after in Hsib2.
    + intros n Hn1 Hn2. rewrite Hother by (done || lia). by apply Hsame.
Qed.

Ltac solve_siblings :=
  unfold siblings; split_and!;
  [ intros n q Hq; unfold parentNode in Hq;
    do 6 (destruct n as [|n];
          [simpl in Hq;
           first [discriminate Hq
                 |injection Hq as <-; eexists; split; [reflexivity|repeat constructor]]|]);
    discriminate Hq
  | rewrite !elem_of_cons, elem_of_nil; lia
  | repeat (apply NoDup_cons; split; [rewrite ?elem_of_cons, ?elem_of_nil; lia|]);
    apply NoDup_nil_2
  | intros x Hx; rewrite !elem_of_cons, elem_of_nil in Hx;
    repeat (destruct Hx as [->|Hx]; [reflexivity|]); done
  | eexists; split_and!; reflexivity ].

Lemma sample_tree_siblings : siblings sample_tree 0 [1; 2; 3].
Proof. solve_siblings. Qed.

Lemma rendered_tree_siblings : siblings rendered_tree 0 [1; 2; 4; 5; 3].
Proof. solve_siblings. Qed.

Lemma Rx_displayDescriptions_inserts_witness :
  let m := boot (sample_page Rx_informed) in
  RxDirective.hideDescriptions (directive (this m)) = false
  ∧ RxDirective.descriptions (directive (this m))
    = Some ["This field is required"; "Must be unique"]
  ∧ siblings (tree (this m)) 0 ([1] ++ inputNode (this m) :: [3])
  ∧ ∃ t',
      RxDirective.displayDescriptions m =
        (with_this
           {| directive :=
                RxDirective.set__descriptionElement
                  (Some {| className := "informative-validator-descriptions";
                           innerHTML :=
                             "<ul><li>This field is required</li><li>Must be unique</li></ul>" |})
                  Rx_informed;
              tree := t'; inputNode := 2; descriptionNode := Some 4;
              feedbackNode := None |} m,
         Some tt)
      ∧ siblings t' 0 [1; 2; 4; 3]
      ∧ (∀ n, n ≠ 0 → n < 4 → t' !! n = sample_tree !! n).
Proof.
  intros m. split_and!; [reflexivity|reflexivity|exact sample_tree_siblings|].
  exact (proj2 (proj2 (Rx_displayDescriptions_inserts m)) 0 [1] [3]
           ["This field is required"; "Must be unique"]
           eq_refl eq_refl sample_tree_siblings).
Defined.

Lemma Rx_displayFeedback_replaces_witness :
  let m := boot (rendered_page Rx_informed (Some 5)) in
  RxDirective._initialised (directive (this m)) = true
  ∧ RxDirective.feedback (directive (this m)) = Some ["This name is taken"]
  ∧ descriptionNode (this m) = Some 4
  ∧ siblings (tree (this m)) 0 ([1; 2] ++ 4 :: [5; 3])
  ∧ inputNode (this m) ∈ [1; 2] ++ 4 :: [5; 3]
  ∧ (∀ f, feedbackNode (this m) = Some f → f ∈ [1; 2] ++ [5; 3] ∧ f ≠ inputNode (this m))
  ∧ ∃ t',
      RxDirective.displayFeedback m =
        (with_this
           {| directive :=
                RxDirective.set__feedbackElement
                  (Some {| className := "informative-validator-feedback";
                           innerHTML := "<ul><li>This name is taken</li></ul>" |})
                  Rx_informed;
              tree := t'; inputNode := 2; descriptionNode := Some 4;
              feedbackNode := Some 6 |} m,
         Some tt)
      ∧ siblings t' 0 [1; 2; 4; 6; 3]
      ∧ (∀ f, Some 5 = Some f → parentNode t' f = None).
Proof.
  intros m.
  assert (inputNode (this m) ∈ [1; 2] ++ 4 :: [5; 3]) as Hin by (repeat constructor).
  assert (∀ f, feedbackNode (this m) = Some f
               → f ∈ [1; 2] ++ [5; 3] ∧ f ≠ inputNode (this m)) as Hold.
  { intros f [= <-]. split; [repeat constructor|done]. }
  split_and!; [reflexivity|reflexivity|reflexivity|exact rendered_tree_siblings
              |exact Hin|exact Hold|].
  exact (Rx_displayFeedback_replaces m 0 [1; 2] [5; 3] 4 ["This name is taken"]
           eq_refl eq_refl eq_refl rendered_tree_siblings Hin Hold).
Defined.

Lemma Rx_displayFeedback_without_descriptions_witness :
  let m := boot (sample_page
                   (RxDirective.set_feedback (Some ["This name is taken"])
                      (Rx_configured [RequiredValidationRule.rule] [name_is_free]
                         (sample_control (VString "ada"))))) in
  RxDirective._initialised (directive (this m)) = true
  ∧ RxDirective.feedback (directive (this m)) = Some ["This name is taken"]
  ∧ descriptionNode (this m) = None
  ∧ feedbackNode (this m) = None
  ∧ ∃ m', RxDirective.displayFeedback m = (m', None)
      ∧ feedbackNode (this m') = Some 4
      ∧ parentNode (tree (this m')) 4 = None
      ∧ descriptionNode (this m') = None
      ∧ RxDirective.clearFeedback m' = (m', None)
      ∧ RxDirective.displayFeedback m' = (m', None)
      ∧ (RxDirective.ngOnDestroy m').2 = None.
Proof.
  intros m. split_and!; [reflexivity..|].
  exact (Rx_displayFeedback_without_descriptions m ["This name is taken"]
           eq_refl eq_refl eq_refl eq_refl).
Defined.

Lemma Rx_ngOnDestroy_witness :
  let m := boot (rendered_page Rx_informed (Some 5)) in
  siblings (tree (this m)) 0 [1; 2; 4; 5; 3]
  ∧ (∀ f, feedbackNode (this m) = Some f
          → f ∈ [1; 2; 4; 5; 3] ∧ descriptionNode (this m) ≠ Some f)
  ∧ (∀ d, descriptionNode (this m) = Some d → d ∈ [1; 2; 4; 5; 3])
  ∧ ∃ d' t',
      RxDirective.ngOnDestroy m =
        ({| this := {| directive := d'; tree := t'; inputNode := 2;
                       descriptionNode := None; feedbackNode := None |};
            calls := []; now := 0; timers := []; emitted := [] |},
         Some tt)
      ∧ (∀ e e',
           RxDirective.set__descriptionElement e (RxDirective.set__feedbackElement e' d')
           = RxDirective.set__descriptionElement e
               (RxDirective.set__feedbackElement e' Rx_informed))
      ∧ (is_Some (Some 5) → RxDirective._feedbackElement d' = None)
      ∧ (is_Some (Some 4) → RxDirective._descriptionElement d' = None)
      ∧ siblings t' 0 [1; 2; 3]
      ∧ (∀ n, n ≠ 0 → Some 5 ≠ Some n → Some 4 ≠ Some n →
              t' !! n = rendered_tree !! n).
Proof.
  intros m.
  assert (∀ f, feedbackNode (this m) = Some f
               → f ∈ [1; 2; 4; 5; 3] ∧ descriptionNode (this m) ≠ Some f) as Hf.
  { intros f [= <-]. split; [repeat constructor|done]. }
  assert (∀ d, descriptionNode (this m) = Some d → d ∈ [1; 2; 4; 5; 3]) as Hd.
  { intros d [= <-]. repeat constructor. }
  split_and!; [exact rendered_tree_siblings|exact Hf|exact Hd|].
  exact (Rx_ngOnDestroy m 0 [1; 2; 4; 5; 3] rendered_tree_siblings Hf Hd).
Defined.

Lemma Dir_displayFeedback_never_attached_witness :
  let m := boot (rendered_page Dir_informed None) in
  Directive.feedback (directive (this m)) = Some [Some "Must be unique"]
  ∧ feedbackNode (this m) = None
  ∧ descriptionNode (this m) = Some 4
  ∧ siblings (tree (this m)) 0 ([1; 2] ++ 4 :: [5; 3])
  ∧ (∃ dd, tree (this m) !! 4 = Some dd ∧ children dd = [])
  ∧ inputNode (this m) ∈ [1; 2] ++ 4 :: [5; 3]
  ∧ ∃ t',
      let m' :=
        with_this
          {| directive :=
               Directive.set__feedbackElement
                 (Some {| className := "informative-validator-feedback";
                          innerHTML := "<ul><li>Must be unique</li></ul>" |})
                 Dir_informed;
             tree := t'; inputNode := 2; descriptionNode := Some 4;
             feedbackNode := Some 6 |} m in
      Directive.displayFeedback m = (m', Some tt)
      ∧ siblings t' 0 [1; 2; 4; 5; 3]
      ∧ parentNode t' 6 = None
      ∧ Directive.clearFeedback m' = (m', None)
      ∧ Directive.displayFeedback m' = (m', None)
      ∧ (Directive.setErrors m').2 = None
      ∧ (Directive.clearErrors m').2 = None
      ∧ Directive.ngOnDestroy m' = (m', None).
Proof.
  intros m.
  assert (∃ dd, tree (this m) !! 4 = Some dd ∧ children dd = []) as Hleaf
    by (eexists; split; reflexivity).
  assert (inputNode (this m) ∈ [1; 2] ++ 4 :: [5; 3]) as Hin by (repeat constructor).
  split_and!; [reflexivity|reflexivity|reflexivity|exact rendered_tree_siblings
              |exact Hleaf|exact Hin|].
  exact (Dir_displayFeedback_never_attached m 0 [1; 2] [5; 3] 4 [Some "Must be unique"]
           eq_refl eq_refl eq_refl rendered_tree_siblings Hleaf Hin).
Defined.

Lemma Dir_ngOnChanges_then_errors_witness :
  let c := sample_control (VString "ada") in
  let m := boot (rendered_page
                   (Directive.set__valid true
                      (Directive.set_feedback (Some [])
                         (Dir_configured [RequiredValidationRule.rule] [] c)))
                   None) in
  Directive.validationControl (directive (this m)) = Some c
  ∧ ∃ display c',
      Directive.shouldDisplayFeedback (directive (this m)) = Some display
      ∧ Directive.validationControl (directive (this (Directive.ngOnChanges_then m).1))
        = Some c'
      ∧ errors c' = Some (if display then CUSTOM_ERRORS else [])
      ∧ errors c' ≠ None.
Proof.
  intros c m. split; [reflexivity|].
  exact (Dir_ngOnChanges_then_errors m c eq_refl).
Defined.

Lemma Dir_ngOnInit_witness :
  let m := boot (sample_page
                   (Dir_configured [RequiredValidationRule.rule; silent_rule]
                      [async_rule None (Some "Checked") (Fulfilled true)]
                      (sample_control (VString "ada")))) in
  siblings (tree (this m)) 0 ([1] ++ inputNode (this m) :: [3])
  ∧ Directive.hideDescriptions (directive (this m)) = false
  ∧ ∃ t' d',
      Directive.ngOnInit m =
        (with_this {| directive := d'; tree := t'; inputNode := 2;
                      descriptionNode := Some 4; feedbackNode := None |} m,
         Some tt)
      ∧ Directive._descriptionElement d' =
          Some {| className := "informative-validator-descriptions";
                  innerHTML :=
                    "<ul><li>This field is required</li><li>Checked silently</li><li>null</li></ul>" |}
      ∧ Directive.descriptions d' =
          Some [Some "This field is required"; Some "Checked silently"; None]
      ∧ Directive._initialised d' = true
      ∧ siblings t' 0 [1; 2; 4; 3].
Proof.
  intros m. split_and!; [exact sample_tree_siblings|reflexivity|].
  destruct (proj2 (Dir_ngOnInit m 0 [1] [3] sample_tree_siblings) eq_refl)
    as (t' & Hrun & Hsib & _).
  exists t'. eexists. split_and!; [exact Hrun|reflexivity..|exact Hsib].
Defined.

Lemma Rx_clearFeedback_control (m : Machine (Page RxDirective.Directive)) :
  RxDirective.formControl (directive (this (RxDirective.clearFeedback m).1))
  = RxDirective.formControl (directive (this m)).
Proof.
  rewrite Rx_run_clearFeedback.
  destruct (feedbackNode (this m)) as [f|]; [|done].
  destruct (parentElement _ f) as [q|]; [|done].
  destruct (pre_remove q f _); [|done]. simpl. by destruct (directive (this m)).
Qed.

Lemma Rx_control_displayFeedback (m : Machine (Page RxDirective.Directive)) :
  RxDirective.formControl (directive (this (RxDirective.displayFeedback m).1))
  = RxDirective.formControl (directive (this m)).
Proof.
  destruct (RxDirective._initialised (directive (this m))) eqn:Hinit.
  2: { unfold RxDirective.displayFeedback, bind, gets. cbn [fst snd].
       by rewrite Hinit. }
  pose proof (Rx_clearFeedback_control m) as Hdir.
  destruct (RxDirective.clearFeedback m) as [m1 [[]|]] eqn:Hclear; simpl in Hdir.
  - destruct (RxDirective.feedback (directive (this m1))) as [items|] eqn:Hitems.
    + rewrite (Rx_run_displayFeedback m m1 items Hinit Hclear Hitems).
      rewrite <- Hdir.
      destruct (parentNode _ _); [|by destruct (directive (this m1))].
      destruct (descriptionNode _); [|by destruct (directive (this m1))].
      destruct (pre_insert _ _ _ _); by destruct (directive (this m1)).
    + unfold RxDirective.displayFeedback. unfold bind at 1, gets at 1. cbn [fst snd].
      rewrite Hinit. cbn [negb]. unfold bind at 1. rewrite Hclear.
      unfold bind at 1, gets at 1. cbn [fst snd]. rewrite Hitems.
      unfold bind, lift. cbn [fst snd]. by rewrite Hdir.
  - rewrite (Rx_rethrow_displayFeedback m m1 Hinit Hclear). simpl. by rewrite Hdir.
Qed.

(** X22.  The callback that [valueUpdate] of
    [informative-validator-rules.ts] runs after a pass writes the verdict
    to the bound control before it renders: the errors of the control are
    [null] exactly when [_valid] holds and [{customErrors: true}]
    otherwise, whether the rendering that follows returns or throws.
    Without a control the callback throws at once and changes nothing. *)
Theorem Rx_valueUpdate_then_errors (m : Machine (Page RxDirective.Directive)) :
  (∀ c, RxDirective.formControl (directive (this m)) = Some c →
     ∃ c', RxDirective.formControl (directive (this (RxDirective.valueUpdate_then m).1))
           = Some c'
       ∧ errors c' = if RxDirective._valid (directive (this m)) then None
                     else Some CUSTOM_ERRORS)
  ∧ (RxDirective.formControl (directive (this m)) = None →
     RxDirective.valueUpdate_then m = (m, None)).
Proof.
  split.
  - intros c Hc. unfold RxDirective.valueUpdate_then. unfold bind at 1.
    unfold zoom, RxDirective.setErrors. unfold bind at 1, gets at 1. cbn [fst snd this].
    unfold bind at 1, gets at 1. cbn [fst snd this]. rewrite Hc.
    unfold bind at 1, lift at 1. unfold modify at 1. cbn [fst snd this].
    unfold bind at 1, gets at 1. cbn [fst snd this].
    destruct (RxDirective.shouldDisplayFeedback _).
    + rewrite Rx_control_displayFeedback. simpl. eexists. split; [done|]. done.
    + rewrite Rx_clearFeedback_control. simpl. eexists. split; [done|]. done.
  - intros Hc. unfold RxDirective.valueUpdate_then. unfold bind at 1.
    unfold zoom, RxDirective.setErrors. unfold bind at 1, gets at 1. cbn [fst snd this].
    unfold bind at 1, gets at 1. cbn [fst snd this]. rewrite Hc.
    unfold bind, lift. cbn [fst snd this]. unfold set_directive.
    by destruct m as [[] ? ? ? ?].
Qed.

Lemma Rx_valueUpdate_then_errors_witness :
  (let c := sample_control (VString "ada") in
   let m := boot (rendered_page (RxDirective.set__valid true Rx_informed) (Some 5)) in
   RxDirective.formControl (directive (this m)) = Some c
   ∧ ∃ c', RxDirective.formControl (directive (this (RxDirective.valueUpdate_then m).1))
           = Some c'
       ∧ errors c' = None)
  ∧ (let m := boot (sample_page (RxDirective.constructor sample_element)) in
     RxDirective.formControl (directive (this m)) = None
     ∧ RxDirective.valueUpdate_then m = (m, None)).
Proof.
  split.
  - intros c m. split; [reflexivity|].
    exact (proj1 (Rx_valueUpdate_then_errors m) c eq_refl).
  - intros m. split; [reflexivity|].
    exact (proj2 (Rx_valueUpdate_then_errors m) eq_refl).
Defined.
